(** * English Text Analyzer: the analysis engine wrapper

    A shallow embedding of the JavaScript classes [AnalysisEngineWrapper],
    [GeminiAPIClient], [RateLimiter] and [AnalysisPrompts], and the
    properties of the orchestration, retry, caching and response-parsing
    code that the specification states.

    JavaScript strings are sequences of UTF-16 code units; they are
    modelled as lists of [N].  Asynchronous code runs on a single flow of
    control, so it is written as explicit state passing over a [world]
    (clock and event trace) and the engine's own mutable fields. *)

From Stdlib Require Import ZArith NArith QArith String Ascii DecimalString Lia.
From stdpp Require Import gmap list sorting strings.

Local Open Scope Z_scope.

(** ** JavaScript strings *)

Module Js.

Definition jsstring : Type := list N.

(** An ASCII literal as a JavaScript string. *)
Definition lit (s : string) : jsstring :=
  N_of_ascii <$> list_ascii_of_string s.

Definition NL : N := 10%N.        (* '\n' *)
Definition QUOTE : N := 34%N.     (* the double quote *)
Definition BULLET : N := 8226%N.  (* U+2022 *)

(** White space and line terminators: what [String.prototype.trim] strips
    and what [\s] matches. *)
Definition isWhiteSpace (c : N) : bool :=
  ((9 <=? c) && (c <=? 13) || (c =? 32) || (c =? 160) || (c =? 5760)
   || (8192 <=? c) && (c <=? 8202) || (c =? 8232) || (c =? 8233)
   || (c =? 8239) || (c =? 8287) || (c =? 12288) || (c =? 65279))%N.

Definition isDigit (c : N) : bool := ((48 <=? c) && (c <=? 57))%N.
Definition isUpper (c : N) : bool := ((65 <=? c) && (c <=? 90))%N.
Definition isLower (c : N) : bool := ((97 <=? c) && (c <=? 122))%N.

Fixpoint dropWhile (p : N -> bool) (s : jsstring) : jsstring :=
  match s with
  | [] => []
  | c :: r => if p c then dropWhile p r else s
  end.

Fixpoint takeWhile (p : N -> bool) (s : jsstring) : jsstring :=
  match s with
  | [] => []
  | c :: r => if p c then c :: takeWhile p r else []
  end.

Definition trimStart (s : jsstring) : jsstring := dropWhile isWhiteSpace s.
Definition trimEnd (s : jsstring) : jsstring :=
  reverse (dropWhile isWhiteSpace (reverse s)).
(** [s.trim()] *)
Definition trim (s : jsstring) : jsstring := trimEnd (trimStart s).

(** [s.split(c)] for a one-character separator: never the empty list. *)
Fixpoint split (sep : N) (s : jsstring) : list jsstring :=
  match s with
  | [] => [[]]
  | c :: r =>
      if (c =? sep)%N then [] :: split sep r
      else match split sep r with
           | [] => [[c]]
           | l :: ls => (c :: l) :: ls
           end
  end.

(** [parts.join(sep)] *)
Fixpoint join (sep : jsstring) (parts : list jsstring) : jsstring :=
  match parts with
  | [] => []
  | [p] => p
  | p :: ps => p ++ sep ++ join sep ps
  end.

Fixpoint startsWith (p s : jsstring) : bool :=
  match p, s with
  | [], _ => true
  | _ :: _, [] => false
  | a :: p', b :: s' => (a =? b)%N && startsWith p' s'
  end.

(** [s.includes(needle)] *)
Fixpoint includes (needle s : jsstring) : bool :=
  startsWith needle s ||
  match s with
  | [] => false
  | _ :: r => includes needle r
  end.

(** [s.toLowerCase()].  The ASCII capitals move to their small letters.
    Outside ASCII, the two code points whose lower-case form holds an ASCII
    letter are mapped (U+0130 to "i" followed by U+0307, U+212A to "k");
    every other code unit is left as it is: its lower-case form holds no
    ASCII letter and no white space, and the only caller deletes all such
    code units right after. *)
Definition lowerUnit (c : N) : jsstring :=
  if isUpper c then [(c + 32)%N]
  else if (c =? 304)%N then [105%N; 775%N]
  else if (c =? 8490)%N then [107%N]
  else [c].

Definition toLowerCase (s : jsstring) : jsstring := s ≫= lowerUnit.

(** What the regular expression [^\d+\.\s+] matches at the start of [s]:
    the rest of the string after the match, if there is a match.  Each
    repetition is followed by a character outside its class, so the greedy
    match is the only one. *)
Definition afterNumberDot (s : jsstring) : option jsstring :=
  match s with
  | d :: _ =>
      if isDigit d then
        match dropWhile isDigit s with
        | dot :: r => if (dot =? 46)%N then Some r else None
        | [] => None
        end
      else None
  | [] => None
  end.

Definition afterNumberedPrefix (s : jsstring) : option jsstring :=
  match afterNumberDot s with
  | Some (w :: r) =>
      if isWhiteSpace w then Some (dropWhile isWhiteSpace r) else None
  | _ => None
  end.

(** [Number.prototype.toString()] of a natural number *)
Definition decimal (n : N) : jsstring :=
  lit (NilZero.string_of_uint (N.to_uint n)).

(** [ToInt32] *)
Definition toInt32 (z : Z) : Z :=
  let m := z mod 2 ^ 32 in
  if 2 ^ 31 <=? m then m - 2 ^ 32 else m.

Definition digit36 (d : Z) : N :=
  Z.to_N (if d <? 10 then 48 + d else 87 + d).

Fixpoint toString36_from (fuel : nat) (n : Z) (acc : jsstring) : jsstring :=
  match fuel with
  | O => acc
  | S fuel' =>
      let acc' := digit36 (n mod 36) :: acc in
      if n / 36 =? 0 then acc' else toString36_from fuel' (n / 36) acc'
  end.

(** [n.toString(36)] for [0 <= n <= 2^31], which has at most six digits. *)
Definition toString36 (n : Z) : jsstring := toString36_from 7 n [].

(** The default comparison of [Array.prototype.sort] on strings: code
    units, left to right, a proper prefix first. *)
Fixpoint compareStrings (a b : jsstring) : comparison :=
  match a, b with
  | [], [] => Eq
  | [], _ :: _ => Lt
  | _ :: _, [] => Gt
  | x :: a', y :: b' =>
      match (x ?= y)%N with
      | Eq => compareStrings a' b'
      | c => c
      end
  end.

Definition str_le (a b : jsstring) : Prop := compareStrings a b <> Gt.

#[export] Instance str_le_dec a b : Decision (str_le a b).
Proof. unfold str_le. apply _. Defined.

(** [arr.sort()] on an array of strings.  The order is total and two
    strings that compare equal are the same string, so every sorting
    algorithm yields the same array (see [sort_unique]). *)
Definition sort (arr : list jsstring) : list jsstring := merge_sort str_le arr.

End Js.
Import Js.

(** ** Parsing the free-text response *)

(** A JavaScript object with string values, in property order.  The section
    names below hold only the letters a-z and white space, never an array
    index, so property order is insertion order. *)
Definition sections : Type := list (jsstring * jsstring).

(** [obj[k] = v]: an existing property keeps its place. *)
Fixpoint setProperty (k v : jsstring) (obj : sections) : sections :=
  match obj with
  | [] => [(k, v)]
  | (k', v') :: obj' =>
      if decide (k = k') then (k, v) :: obj'
      else (k', v') :: setProperty k v obj'
  end.

(** The test [trimmedLine.match(/^\d+\.\s+[A-Z]/)] *)
Definition isHeading (trimmedLine : jsstring) : bool :=
  match afterNumberedPrefix trimmedLine with
  | Some (c :: _) => isUpper c
  | _ => false
  end.

(** [trimmedLine.toLowerCase().replace(/^\d+\.\s+/, '')
      .replace(/[^a-z\s]/g, '').trim()] *)
Definition sectionName (trimmedLine : jsstring) : jsstring :=
  let lowered := toLowerCase trimmedLine in
  let stripped := default lowered (afterNumberedPrefix lowered) in
  trim (List.filter (fun c => isLower c || isWhiteSpace c) stripped).

Record sectionScan := {
  scanned : sections;
  currentSection : jsstring;
  currentContent : list jsstring
}.

Definition flushSection (s : sectionScan) : sections :=
  match currentContent s with
  | [] => scanned s
  | _ :: _ =>
      setProperty (currentSection s) (join [NL] (currentContent s)) (scanned s)
  end.

Definition scanLine (s : sectionScan) (line : jsstring) : sectionScan :=
  let trimmedLine := trim line in
  if isHeading trimmedLine then
    {| scanned := flushSection s;
       currentSection := sectionName trimmedLine;
       currentContent := [] |}
  else if (0 <? length trimmedLine)%nat then
    {| scanned := scanned s;
       currentSection := currentSection s;
       currentContent := currentContent s ++ [trimmedLine] |}
  else s.

Definition extractSections (response : jsstring) : sections :=
  flushSection
    (foldl scanLine
       {| scanned := []; currentSection := lit "general"; currentContent := [] |}
       (split NL response)).

(** The test on a trimmed line of [extractWordList]: it starts with "-",
    with the bullet, or matches [/^\d+\./]. *)
Definition isBulletLine (trimmed : jsstring) : bool :=
  startsWith (lit "-") trimmed || startsWith [BULLET] trimmed
  || bool_decide (is_Some (afterNumberDot trimmed)).

(** [trimmed.replace(/^[-•\d.]\s*/, '')]: ONE character of the class, then
    white space. *)
Definition stripMarker (trimmed : jsstring) : jsstring :=
  match trimmed with
  | c :: r =>
      if (c =? 45)%N || (c =? BULLET)%N || isDigit c || (c =? 46)%N
      then dropWhile isWhiteSpace r
      else trimmed
  | [] => []
  end.

(** [s.split(/[,;]/)[0]] *)
Definition firstToken (s : jsstring) : jsstring :=
  takeWhile (fun c => negb ((c =? 44)%N || (c =? 59)%N)) s.

Definition wordOfLine (line : jsstring) : option jsstring :=
  let trimmed := trim line in
  if isBulletLine trimmed then
    let word := trim (firstToken (stripMarker trimmed)) in
    if (0 <? length word)%nat then Some word else None
  else None.

Definition extractWordList (content : jsstring) : list jsstring :=
  omap wordOfLine (split NL content).

Record difficulty := {
  basic : list jsstring;
  intermediate : list jsstring;
  advanced : list jsstring
}.

Definition anyIncludes (needles : list jsstring) (s : jsstring) : bool :=
  existsb (fun n => includes n s) needles.

Definition extractDifficultyLevels (secs : sections) : difficulty :=
  foldl
    (fun levels '(section, content) =>
       if anyIncludes [lit "basic"; lit "a1"; lit "a2"] section then
         {| basic := extractWordList content;
            intermediate := intermediate levels; advanced := advanced levels |}
       else if anyIncludes [lit "intermediate"; lit "b1"; lit "b2"] section then
         {| basic := basic levels;
            intermediate := extractWordList content; advanced := advanced levels |}
       else if anyIncludes [lit "advanced"; lit "c1"; lit "c2"] section then
         {| basic := basic levels; intermediate := intermediate levels;
            advanced := extractWordList content |}
       else levels)
    {| basic := []; intermediate := []; advanced := [] |}
    secs.

(** The loop shared by [extractAcademicVocabulary], [extractCollocations]
    and [extractTransitionWords]: the word list of the first section whose
    name includes one of the needles. *)
Fixpoint firstWordList (needles : list jsstring) (secs : sections)
  : list jsstring :=
  match secs with
  | [] => []
  | (section, content) :: rest =>
      if anyIncludes needles section then extractWordList content
      else firstWordList needles rest
  end.

Definition extractAcademicVocabulary (secs : sections) : list jsstring :=
  firstWordList [lit "academic"] secs.

Definition extractCollocations (secs : sections) : list jsstring :=
  firstWordList [lit "collocation"; lit "phrase"] secs.

Definition extractTransitionWords (secs : sections) : list jsstring :=
  firstWordList [lit "transition"; lit "marker"] secs.

Record vocabularyData := {
  difficultyLevels : difficulty;
  academicVocabulary : list jsstring;
  collocations : list jsstring;
  frequencyAnalysis : jsstring          (* the [summary] it holds *)
}.

Definition parseVocabularyResponse (response : jsstring) : vocabularyData :=
  let secs := extractSections response in
  {| difficultyLevels := extractDifficultyLevels secs;
     academicVocabulary := extractAcademicVocabulary secs;
     collocations := extractCollocations secs;
     frequencyAnalysis := lit "Frequency analysis completed" |}.

(** The [structured] field.  For the grammar and complexity categories the
    numeric fields are read off the section table with [parseInt] and
    [parseFloat]; the table is kept in their place.  The structure category
    has one extracted field, the content category none. *)
Inductive structuredData :=
  | Vocabulary (v : vocabularyData)
  | Grammar (secs : sections)
  | Structure (transitionWords : list jsstring)
  | Content
  | Complexity (secs : sections)
  | Summary (response : option jsstring).

(** ** Cache keys *)

Definition hashStep (hash : Z) (char : N) : Z :=
  let h := toInt32 (Z.shiftl (toInt32 hash) 5) - hash + Z.of_N char in
  Z.land (toInt32 h) (toInt32 h).

Definition simpleHash (str : jsstring) : jsstring :=
  toString36 (Z.abs (foldl hashStep 0 str)).

(** [generateCacheKey] sorts the array it is given in place: it returns the
    key together with the array as the call leaves it. *)
Definition generateCacheKey (text : jsstring) (modules : list jsstring)
  : jsstring * list jsstring :=
  let textHash := simpleHash text in
  let sorted := sort modules in
  (textHash ++ lit "_" ++ join (lit ",") sorted, sorted).

Fixpoint countRuns (inRun : bool) (s : jsstring) : nat :=
  match s with
  | [] => 0
  | c :: r =>
      if isWhiteSpace c then (if inRun then 0 else 1) + countRuns true r
      else countRuns false r
  end%nat.

(** [text.trim() ? text.trim().split(/\s+/).length : 0] *)
Definition countWords (text : jsstring) : nat :=
  match trim text with
  | [] => 0
  | t => S (countRuns false t)
  end.

Definition response1 : jsstring :=
  lit "Intro" ++ [NL] ++ lit "1. Academic Vocabulary:" ++ [NL]
  ++ lit "  - analyze" ++ [NL] ++ [BULLET] ++ lit " synthesis; noun" ++ [NL]
  ++ lit "2. Collocations" ++ [NL] ++ lit "3. heavy rain".

(** ** The world outside the engine *)

(** What an observer sees: requests sent to the remote endpoint, timers
    waited for, calls of the [onProgress] callback.  The callback receives
    the number [completed / total * 100]; the event keeps the two operands
    (see [percentage]). *)
Inductive event :=
  | EFetch (prompt : jsstring)
  | EDelay (ms : Z)
  | EProgress (completed total : nat) (message : jsstring).

Record world := {
  now : Z;                 (* [Date.now()], in milliseconds *)
  trace : list event       (* oldest event first *)
}.

Definition emit (e : event) (w : world) : world :=
  {| now := now w; trace := trace w ++ [e] |}.

(** [await new Promise(resolve => setTimeout(resolve, ms))] *)
Definition delay (ms : Z) (w : world) : world :=
  {| now := now w + ms; trace := trace w ++ [EDelay ms] |}.

(** The prompts of the requests sent, in order. *)
Definition fetches (t : list event) : list jsstring :=
  omap (fun e => match e with EFetch p => Some p | _ => None end) t.

(** The calls of [onProgress], in order. *)
Definition progressCalls (t : list event) : list (nat * nat * jsstring) :=
  omap (fun e => match e with
                 | EProgress c n m => Some (c, n, m)
                 | _ => None
                 end) t.

Definition percentage (completed total : nat) : Q :=
  inject_Z (Z.of_nat completed) / inject_Z (Z.of_nat total) * 100.

(** The first candidate of a response body: its finish reason and, when
    [content.parts[0]] is there, the [text] of that part ([None] for a part
    without text). *)
Record candidate := {
  finishReason : jsstring;
  firstPart : option (option jsstring)
}.

(** How one [fetch] of the endpoint ends.  Of the body of a response that
    is not ok the code reads [errorData.error?.message] only:
    [errorMessage] is that value as the template literal renders it when
    it is truthy, and [None] when it is falsy or absent (also for a body
    that is no JSON, which is read as [{}]).  The one body on which that
    read throws is [null]. *)
Inductive fetchOutcome :=
  | FetchRejected (message : jsstring)         (* no HTTP response at all *)
  | NotOk (status : N) (statusText : jsstring)
          (errorMessage : option jsstring)
  | NotOkNull (status : N) (statusText : jsstring)
                                               (* not ok, the body is [null] *)
  | JsonRejected (message : jsstring)          (* an ok response of which
                                                  [response.json()] rejects, or
                                                  gives [null], with the error
                                                  of [data.candidates] *)
  | Data (candidate0 : option candidate).      (* [data.candidates[0]] *)

Record reply := { latency : Z; outcome : fetchOutcome }.

(** Every error of this code is an [Error] (or a [TypeError] of the
    runtime) of which only the message is ever read. *)
Inductive result (A : Type) :=
  | Returned (a : A)
  | Thrown (message : jsstring).
Arguments Returned {A} a.
Arguments Thrown {A} message.

(** ** AnalysisPrompts *)

Record AnalysisPrompts := {
  vocabularyPrompt : jsstring;
  grammarPrompt : jsstring;
  structurePrompt : jsstring;
  contentPrompt : jsstring;
  complexityPrompt : jsstring
}.

(** The own properties of [this.prompts]. *)
Definition promptProperty (P : AnalysisPrompts) (module : jsstring)
  : option jsstring :=
  if decide (module = lit "vocabulary") then Some (vocabularyPrompt P)
  else if decide (module = lit "grammar") then Some (grammarPrompt P)
  else if decide (module = lit "structure") then Some (structurePrompt P)
  else if decide (module = lit "content") then Some (contentPrompt P)
  else if decide (module = lit "complexity") then Some (complexityPrompt P)
  else None.

(** [this.prompts] is an object literal: a name that is not an own
    property is looked up in [Object.prototype], which holds a function
    under each of these names, the function [Object] under "constructor",
    and itself under "__proto__". *)
Definition objectPrototypeMethods : list jsstring :=
  lit <$> ["hasOwnProperty"; "isPrototypeOf"; "propertyIsEnumerable";
           "toLocaleString"; "toString"; "valueOf"; "__defineGetter__";
           "__defineSetter__"; "__lookupGetter__"; "__lookupSetter__"].

(** The text of a built-in function, in the wording of V8. *)
Definition nativeFunctionText (name : jsstring) : jsstring :=
  lit "function " ++ name ++ lit "() { [native code] }".

(** What a value inherited from [Object.prototype] reads as in the template
    literal of [getPrompt]; all these values are truthy. *)
Definition inheritedText (module : jsstring) : option jsstring :=
  if decide (module = lit "constructor") then
    Some (nativeFunctionText (lit "Object"))
  else if decide (module = lit "__proto__") then Some (lit "[object Object]")
  else if bool_decide (module ∈ objectPrototypeMethods) then
    Some (nativeFunctionText module)
  else None.

(** What the template literal of [getPrompt] puts after the base prompt. *)
Definition promptTail (text : jsstring) : jsstring :=
  [NL; NL] ++ lit "Text to analyze:" ++ [NL; QUOTE] ++ text ++ [QUOTE; NL; NL]
  ++ lit "Please provide a detailed analysis following the format specified above.".

Definition getPrompt (P : AnalysisPrompts) (module text : jsstring) : jsstring :=
  let basePrompt :=
    match promptProperty P module with
    | Some (c :: p) => c :: p
    | Some [] => vocabularyPrompt P      (* [|| this.prompts.vocabulary] *)
    | None => default (vocabularyPrompt P) (inheritedText module)
    end in
  basePrompt ++ promptTail text.

(** ** GeminiAPIClient *)

Record GeminiAPIClient := {
  retryAttempts : nat;
  retryDelay : Z
}.

(** The fields the constructor sets. *)
Definition newGeminiAPIClient : GeminiAPIClient :=
  {| retryAttempts := 3; retryDelay := 1000 |}.

Inductive attemptResult :=
  | Done (text : option jsstring)     (* [return candidate.content.parts[0].text] *)
  | Again                             (* the [continue] of the 429 branch *)
  | Raised (message : jsstring).      (* a [throw] inside the [try] *)

Definition MSG_RATE_LIMIT : jsstring :=
  lit "Rate limit exceeded. Please try again later.".
Definition MSG_API_KEY : jsstring :=
  lit "API key is invalid or access is denied. Please check your API key.".
Definition MSG_SAFETY : jsstring :=
  lit "Content was blocked due to safety concerns. Please try with different text.".
Definition MSG_FORMAT : jsstring := lit "Invalid response format from API".
(** The message of the TypeError for a property read on [undefined], in
    the wording of V8. *)
Definition MSG_UNDEFINED (property : string) : jsstring :=
  lit "Cannot read properties of undefined (reading '" ++ lit property ++ lit "')".
Definition MSG_NULL (property : string) : jsstring :=
  lit "Cannot read properties of null (reading '" ++ lit property ++ lit "')".

(** The two tests of the [catch] block on [error.message]. *)
Definition mentionsTransport (message : jsstring) : bool :=
  includes (lit "fetch") message || includes (lit "network") message.

Definition isNotRetried (message : jsstring) : bool :=
  includes (lit "API key") message
  || includes (lit "Invalid request") message
  || includes (lit "safety concerns") message.

Section Client.
Variable client : GeminiAPIClient.
(** The endpoint: its reply to the i-th request ever sent (from 0). *)
Variable net : nat -> reply.

Definition fetch (prompt : jsstring) (w : world) : fetchOutcome * world :=
  let r := net (length (fetches (trace w))) in
  (outcome r, {| now := now w + latency r; trace := trace w ++ [EFetch prompt] |}).

(** The [try] block of one attempt, after the [fetch]. *)
Definition tryBlock (attempt : nat) (out : fetchOutcome) : attemptResult :=
  match out with
  | FetchRejected message => Raised message
  | NotOk status statusText errorMessage =>
      if (status =? 429)%N then
        if (attempt <? retryAttempts client)%nat then Again
        else Raised MSG_RATE_LIMIT
      else if (status =? 400)%N then
        Raised (lit "Invalid request: "
                ++ default (lit "Bad request") errorMessage)
      else if (status =? 403)%N then Raised MSG_API_KEY
      else Raised (lit "API request failed: " ++ decimal status
                   ++ lit " " ++ statusText)
  | NotOkNull status statusText =>
      if (status =? 429)%N then
        if (attempt <? retryAttempts client)%nat then Again
        else Raised MSG_RATE_LIMIT
      else if (status =? 400)%N then
        Raised (MSG_NULL "error")      (* [errorData.error] on [null] *)
      else if (status =? 403)%N then Raised MSG_API_KEY
      else Raised (lit "API request failed: " ++ decimal status
                   ++ lit " " ++ statusText)
  | JsonRejected message => Raised message
  | Data (Some c) =>
      if decide (finishReason c = lit "SAFETY") then Raised MSG_SAFETY
      else match firstPart c with
           | Some text => Done text
           | None => Raised MSG_FORMAT
           end
  | Data None => Raised MSG_FORMAT
  end.

(** The code after the loop. *)
Definition afterRetries (lastError : option jsstring)
  : result (option jsstring) :=
  match lastError with
  | Some message =>
      Thrown (lit "Analysis failed after "
              ++ decimal (N.of_nat (retryAttempts client))
              ++ lit " attempts: " ++ message)
  | None => Thrown (MSG_UNDEFINED "message")
  end.

(** The loop [for (attempt = 1; attempt <= retryAttempts; attempt++)],
    entered with [remaining = retryAttempts + 1 - attempt]. *)
Fixpoint attemptLoop (prompt : jsstring) (remaining attempt : nat)
    (lastError : option jsstring) (w : world)
  : result (option jsstring) * world :=
  match remaining with
  | O => (afterRetries lastError, w)
  | S remaining' =>
      let '(out, w1) := fetch prompt w in
      let backoff := delay (retryDelay client * Z.of_nat attempt) in
      match tryBlock attempt out with
      | Done text => (Returned text, w1)
      | Again => attemptLoop prompt remaining' (S attempt) lastError (backoff w1)
      | Raised message =>
          if mentionsTransport message && (attempt <? retryAttempts client)%nat
          then attemptLoop prompt remaining' (S attempt) (Some message) (backoff w1)
          else if isNotRetried message then (Thrown message, w1)
          else if (attempt =? retryAttempts client)%nat
          then (afterRetries (Some message), w1)
          else attemptLoop prompt remaining' (S attempt) (Some message) (backoff w1)
      end
  end.

Definition generateContent (prompt : jsstring) (w : world)
  : result (option jsstring) * world :=
  attemptLoop prompt (retryAttempts client) 1 None w.
End Client.

(** ** RateLimiter *)

Record RateLimiter := {
  requestsPerMinute : nat;
  minInterval : Z;
  requests : list Z
}.

(** [new RateLimiter()], as the engine builds it: 60 requests a minute,
    hence [minInterval = 60000 / 60]. *)
Definition newRateLimiter : RateLimiter :=
  {| requestsPerMinute := 60; minInterval := 1000; requests := [] |}.

Definition minimum (l : list Z) : Z :=
  match l with [] => 0 | x :: r => foldl Z.min x r end.
Definition maximum (l : list Z) : Z :=
  match l with [] => 0 | x :: r => foldl Z.max x r end.

Definition waitIfNeeded (rl : RateLimiter) (w : world) : RateLimiter * world :=
  let now0 := now w in
  let recent := List.filter (fun time => now0 - time <? 60000) (requests rl) in
  let w1 :=
    if (requestsPerMinute rl <=? length recent)%nat then
      let waitTime := 60000 - (now0 - minimum recent) + 100 in
      if 0 <? waitTime then delay waitTime w else w
    else w in
  let w2 :=
    if (0 <? length recent)%nat then
      let timeSinceLastRequest := now0 - maximum recent in
      if timeSinceLastRequest <? minInterval rl
      then delay (minInterval rl - timeSinceLastRequest) w1
      else w1
    else w1 in
  ({| requestsPerMinute := requestsPerMinute rl;
      minInterval := minInterval rl;
      requests := recent ++ [now w2] |}, w2).

(** ** AnalysisEngineWrapper *)

(** What [processModuleResponse] returns. *)
Record processedData := {
  pdModule : jsstring;
  rawResponse : option jsstring;
  processed : bool;
  pdError : option jsstring;
  pdTimestamp : Z;
  pdWordCount : option nat;
  structured : option structuredData
}.

(** The values held by the properties of the results object. *)
Inductive value :=
  | VString (s : jsstring)
  | VNumber (n : Z)
  | VDate (time : Z)                    (* an ISO date string *)
  | VProcessed (p : processedData)
  | VFailed (error module : jsstring) (timestamp : Z).

(** The results object: used as a map from property names.  The
    assignment [results[module] = ...] for a module named "__proto__" sets
    the prototype of the object instead of an own property; reading that
    name gives the value back, so the map holds it like the others, and
    [ownValues] leaves it out. *)
Abbreviation report := (gmap jsstring value).

(** [Object.values(results)] *)
Definition ownValues (results : report) : list value :=
  snd <$> List.filter (fun kv => negb (bool_decide (kv.1 = lit "__proto__")))
            (map_to_list results).

Record options := {
  modules : option (list jsstring);
  onProgress : bool                     (* is a callback supplied? *)
}.

Definition defaultModules : list jsstring :=
  [lit "vocabulary"; lit "grammar"; lit "structure"; lit "content";
   lit "complexity"].

(** [options.modules || ['vocabulary', ...]]: an array, even an empty
    one, is truthy. *)
Definition requested (opts : options) : list jsstring :=
  default defaultModules (modules opts).

Record engine := {
  cache : gmap jsstring report;
  rateLimiter : RateLimiter
}.

(** The fields the constructor sets. *)
Definition newEngine : engine :=
  {| cache := ∅; rateLimiter := newRateLimiter |}.

Definition isTruthy (s : jsstring) : bool :=
  match s with [] => false | _ :: _ => true end.

(** The predicate [r => r && !r.error] of the cache guard. *)
Definition withoutError (r : value) : bool :=
  match r with
  | VString s => isTruthy s
  | VNumber n => negb (n =? 0)
  | VDate _ => true
  | VProcessed p => negb (from_option isTruthy false (pdError p))
  | VFailed error _ _ => negb (isTruthy error)
  end.

(** [Object.values(results).some(r => r && !r.error)] *)
Definition someWithoutError (results : report) : bool :=
  existsb withoutError (ownValues results).

Definition processModuleResponse (module : jsstring)
    (response : option jsstring) (originalText : jsstring) (w : world)
  : processedData :=
  let success s :=
    {| pdModule := module; rawResponse := response; processed := true;
       pdError := None; pdTimestamp := now w;
       pdWordCount := Some (countWords originalText);
       structured := Some s |} in
  (* every parser starts with [response.split], a TypeError on undefined *)
  let parsed (f : jsstring -> structuredData) :=
    match response with
    | Some r => success (f r)
    | None =>
        {| pdModule := module; rawResponse := response; processed := false;
           pdError := Some (lit "Processing failed: " ++ MSG_UNDEFINED "split");
           pdTimestamp := now w; pdWordCount := None; structured := None |}
    end in
  if decide (module = lit "vocabulary") then
    parsed (fun r => Vocabulary (parseVocabularyResponse r))
  else if decide (module = lit "grammar") then
    parsed (fun r => Grammar (extractSections r))
  else if decide (module = lit "structure") then
    parsed (fun r => Structure (extractTransitionWords (extractSections r)))
  else if decide (module = lit "content") then
    parsed (fun _ => Content)
  else if decide (module = lit "complexity") then
    parsed (fun r => Complexity (extractSections r))
  else success (Summary response).

(** The message passed to [onProgress]. *)
Definition progressMessage (module : jsstring) : jsstring :=
  lit "Completed " ++ module ++ lit " analysis".

Record loopState := {
  results : report;
  completedModules : nat;
  limiter : RateLimiter;
  outside : world
}.

Section Engine.
Variable prompts : AnalysisPrompts.
Variable client : GeminiAPIClient.
Variable net : nat -> reply.

Definition runModuleAnalysis (text module : jsstring) (w : world)
  : result processedData * world :=
  let prompt := getPrompt prompts module text in
  match generateContent client net prompt w with
  | (Returned response, w1) =>
      (Returned (processModuleResponse module response text w1), w1)
  | (Thrown message, w1) => (Thrown message, w1)
  end.

(** One turn of the loop over the modules: the [try] and its [catch]. *)
Definition analyzeModule (text : jsstring) (callback : bool)
    (totalModules : nat) (st : loopState) (module : jsstring) : loopState :=
  let '(rl, w1) := waitIfNeeded (limiter st) (outside st) in
  match runModuleAnalysis text module w1 with
  | (Returned data, w2) =>
      let completed := S (completedModules st) in
      {| results := <[module := VProcessed data]> (results st);
         completedModules := completed;
         limiter := rl;
         outside :=
           if callback then
             emit (EProgress completed totalModules (progressMessage module)) w2
           else w2 |}
  | (Thrown message, w2) =>
      {| results := <[module := VFailed message module (now w2)]> (results st);
         completedModules := completedModules st;
         limiter := rl;
         outside := w2 |}
  end.

Definition analyzeModules (text : jsstring) (callback : bool)
    (totalModules : nat) (st : loopState) (mods : list jsstring) : loopState :=
  foldl (analyzeModule text callback totalModules) st mods.

(** The results object before the loop. *)
Definition initialResults (text : jsstring) (w : world) : report :=
  <[lit "processingTime" := VNumber 0]>
  (<[lit "analysisDate" := VDate (now w)]>
  (<[lit "charCount" := VNumber (Z.of_nat (length text))]>
  (<[lit "wordCount" := VNumber (Z.of_nat (countWords text))]>
  (<[lit "text" := VString text]> ∅)))).

Definition analyzeText (e : engine) (w : world) (text : jsstring)
    (opts : options) : result report * engine * world :=
  if (length (trim text) =? 0)%nat then
    (Thrown (lit "Text cannot be empty"), e, w)
  else if 50000 <? Z.of_nat (length text) then
    (Thrown (lit "Text is too long. Please use texts under 50,000 characters."),
     e, w)
  else
    let startTime := now w in
    let '(cacheKey, mods) :=
      generateCacheKey text (requested opts) in
    match cache e !! cacheKey with
    | Some cached => (Returned cached, e, w)
    | None =>
        let st :=
          analyzeModules text (onProgress opts) (length mods)
            {| results := initialResults text w; completedModules := 0;
               limiter := rateLimiter e; outside := w |} mods in
        let final :=
          <[lit "processingTime" := VNumber (now (outside st) - startTime)]>
            (results st) in
        (Returned final,
         {| cache := if someWithoutError final
                     then <[cacheKey := final]> (cache e) else cache e;
            rateLimiter := limiter st |},
         outside st)
    end.
End Engine.

(** ** The prompt templates of the source *)

Definition vocabularyTemplate : jsstring :=
  lit "You are an expert English language teacher analyzing vocabulary in a text for educational purposes. Please provide a detailed vocabulary analysis following this exact format:

1. VOCABULARY DIFFICULTY LEVELS:
   Basic (A1-A2 CEFR):
   - [List 5-10 common, everyday words from the text]
   
   Intermediate (B1-B2 CEFR):
   - [List 5-10 moderately challenging words from the text]
   
   Advanced (C1-C2 CEFR):
   - [List 5-10 sophisticated, academic words from the text]

2. ACADEMIC VOCABULARY:
   - [List words that appear in the Academic Word List (AWL)]
   - [Note any domain-specific terminology]

3. COLLOCATIONS AND PHRASES:
   - [List common word combinations found in the text]
   - [Identify any idiomatic expressions]
   - [Note fixed phrases or formulaic language]

4. FREQUENCY ANALYSIS:
   - Most frequent content words: [list top 5-7 words]
   - Lexical diversity: [High/Medium/Low with brief explanation]
   - Word families: [Group related words if present]

Focus only on words that actually appear in the provided text. Provide specific examples and brief explanations for educational value.".

Definition grammarTemplate : jsstring :=
  lit "You are an expert English grammar teacher analyzing grammatical structures in a text. Please provide a detailed grammar analysis following this exact format:

1. SENTENCE TYPES:
   Simple sentences: [count] (e.g., " ++ [QUOTE] ++
  lit "[quote example from text]" ++ [QUOTE] ++
  lit ")
   Compound sentences: [count] (e.g., " ++ [QUOTE] ++
  lit "[quote example from text]" ++ [QUOTE] ++
  lit ")
   Complex sentences: [count] (e.g., " ++ [QUOTE] ++
  lit "[quote example from text]" ++ [QUOTE] ++
  lit ")
   Compound-complex sentences: [count] (e.g., " ++ [QUOTE] ++
  lit "[quote example from text]" ++ [QUOTE] ++
  lit ")

2. VERB TENSES AND VOICE:
   Present tenses: [list specific examples from text]
   Past tenses: [list specific examples from text]
   Future tenses: [list specific examples from text]
   Active voice: [percentage estimate] (e.g., " ++ [QUOTE] ++
  lit "[example from text]" ++ [QUOTE] ++
  lit ")
   Passive voice: [percentage estimate] (e.g., " ++ [QUOTE] ++
  lit "[example from text]" ++ [QUOTE] ++
  lit ")
   Modal verbs: [list modals found with their functions]

3. CLAUSE ANALYSIS:
   Main clauses: [count and brief description]
   Subordinate clauses: [identify types found with examples]
   Relative clauses: [list examples if present]

4. COMPLEX STRUCTURES:
   - Participial phrases: [quote examples if found]
   - Gerund constructions: [quote examples if found]
   - Infinitive constructions: [quote examples if found]
   - Conditional sentences: [quote examples if found]
   - Other complex patterns: [identify any other notable structures]

Only analyze structures that actually appear in the provided text. Quote specific examples and explain their educational significance.".

Definition structureTemplate : jsstring :=
  lit "You are an expert in text analysis focusing on organization and coherence. Please analyze the following text and provide:

1. PARAGRAPH ORGANIZATION:
   - Topic sentences identification
   - Supporting sentences analysis
   - Concluding sentences

2. COHERENCE AND COHESION:
   - Transition words and phrases
   - Pronoun references
   - Lexical cohesion (repetition, synonyms)

3. TEXT FLOW:
   - Logical progression of ideas
   - Connection between paragraphs
   - Overall organizational pattern

4. DISCOURSE MARKERS:
   - Sequence markers (first, then, finally)
   - Contrast markers (however, although)
   - Addition markers (furthermore, moreover)

Please highlight specific examples and explain how they contribute to text coherence.".

Definition contentTemplate : jsstring :=
  lit "You are an expert in content analysis and critical reading. Please analyze the following text and provide:

1. MAIN IDEAS:
   - Central thesis or main argument
   - Key points in each paragraph
   - Overall message or purpose

2. SUPPORTING DETAILS:
   - Examples provided
   - Statistics or data
   - Expert opinions or citations
   - Analogies or comparisons

3. ARGUMENT STRUCTURE:
   - Claims made by the author
   - Evidence supporting claims
   - Warrants (assumptions connecting evidence to claims)
   - Counter-arguments addressed

4. RHETORICAL ELEMENTS:
   - Persuasive techniques used
   - Appeals to logic, emotion, or credibility
   - Tone and style analysis

Please create a hierarchical outline showing the relationship between main ideas and supporting details.".

Definition complexityTemplate : jsstring :=
  lit "You are an expert in text complexity analysis and readability assessment. Please analyze the following text and provide:

1. READABILITY METRICS:
   - Estimated Flesch-Kincaid Grade Level
   - Average sentence length
   - Average syllables per word
   - Estimated CEFR level (A1-C2)

2. LEXICAL COMPLEXITY:
   - Vocabulary diversity (Type-Token Ratio estimate)
   - Proportion of high-frequency vs low-frequency words
   - Academic vocabulary percentage

3. SYNTACTIC COMPLEXITY:
   - Sentence structure variety
   - Clause density
   - Phrase complexity
   - Coordination vs subordination

4. RECOMMENDATIONS:
   - Appropriate reading level/audience
   - Suggestions for simplification if needed
   - Educational scaffolding recommendations

Please provide specific metrics and educational insights for teachers and learners.".

Definition sourcePrompts : AnalysisPrompts :=
  {| vocabularyPrompt := vocabularyTemplate;
     grammarPrompt := grammarTemplate;
     structurePrompt := structureTemplate;
     contentPrompt := contentTemplate;
     complexityPrompt := complexityTemplate |}.

(** ** Scenarios

    Concrete endpoints, worlds and requests on which the definitions are
    run. *)

Definition always (r : reply) : nat -> reply := fun _ => r.

(** The endpoint replies in the order of the list, then with [r]. *)
Definition script (rs : list reply) (r : reply) : nat -> reply :=
  fun i => default r (rs !! i).

Definition throttled : reply :=
  {| latency := 120; outcome := NotOk 429 (lit "Too Many Requests") None |}.

Definition denied : reply :=
  {| latency := 90; outcome := NotOk 403 (lit "Forbidden") None |}.

Definition blocked : reply :=
  {| latency := 300;
     outcome := Data (Some {| finishReason := lit "SAFETY"; firstPart := None |}) |}.

Definition answer (text : jsstring) : reply :=
  {| latency := 250;
     outcome := Data (Some {| finishReason := lit "STOP";
                              firstPart := Some (Some text) |}) |}.

Definition world0 : world := {| now := 1700000000000; trace := [] |}.

Definition request (mods : list string) (callback : bool) : options :=
  {| modules := Some (lit <$> mods); onProgress := callback |}.

Definition raised {A} (r : result A) : bool :=
  match r with Thrown _ => true | Returned _ => false end.

(** ** Vocabulary of the statements *)

(** The two checks [analyzeText] makes on its text. *)
Definition validText (text : jsstring) : Prop :=
  length (trim text) <> 0%nat /\ Z.of_nat (length text) <= 50000.

(** Membership in the closed enumeration of categories. *)
Definition isCategory (module : jsstring) : bool :=
  bool_decide (module ∈ defaultModules).

Definition isProcessed (entry : option value) : bool :=
  match entry with Some (VProcessed _) => true | _ => false end.

(** The parts of a call of [analyzeText] that finds nothing in the cache. *)
Section Call.
Variable prompts : AnalysisPrompts.
Variable client : GeminiAPIClient.
Variable net : nat -> reply.

(** The state in which the loop starts. *)
Definition loopStart (e : engine) (w : world) (text : jsstring) : loopState :=
  {| results := initialResults text w; completedModules := 0;
     limiter := rateLimiter e; outside := w |}.

(** The loop of a call that finds nothing in the cache. *)
Definition loopEnd (e : engine) (w : world) (text : jsstring) (opts : options)
  : loopState :=
  let mods := (generateCacheKey text (requested opts)).2 in
  analyzeModules prompts client net text (onProgress opts) (length mods) (loopStart e w text) mods.

Definition finalResults (e : engine) (w : world) (text : jsstring)
    (opts : options) : report :=
  <[lit "processingTime" := VNumber (now (outside (loopEnd e w text opts)) - now w)]>
    (results (loopEnd e w text opts)).
End Call.

(** A call in which every category fails: the endpoint denies access. *)
Definition deniedCall : result report * engine * world :=
  analyzeText sourcePrompts newGeminiAPIClient (always denied) newEngine world0
    (lit "Hello world") (request ["grammar"; "vocabulary"] false).

Definition deniedReport : report :=
  match deniedCall.1.1 with Returned r => r | Thrown _ => ∅ end.

(** An endpoint that denies the first request and answers the others. *)
Definition deniedOnce : nat -> reply :=
  script [denied] (answer (lit "1. Sentence Types" ++ [NL] ++ lit "none")).

(** ** Responses with an academic-vocabulary section

    The shape of the responses for which the word list is stated: a line
    is [indent marker gap item spaceAfter remainder], where the remainder
    is empty or starts at the first "," or ";" of the line. *)

Record bulletLine := {
  indent : jsstring;
  marker : N;
  gap : jsstring;
  item : jsstring;
  spaceAfter : jsstring;
  remainder : jsstring
}.

Definition renderBullet (b : bulletLine) : jsstring :=
  indent b ++ marker b :: gap b ++ item b ++ spaceAfter b ++ remainder b.

Definition isSeparator (c : N) : bool := ((c =? 44) || (c =? 59))%N.

(** No line feed inside. *)
Definition oneLine (s : jsstring) : bool :=
  forallb (fun c => negb (c =? NL)%N) s.



(** A string that ends in a character other than white space. *)
Definition endsTight (s : jsstring) : Prop :=
  exists d r, reverse s = d :: r /\ isWhiteSpace d = false.


(** The lines a section keeps: trimmed, the empty ones dropped. *)
Definition contentLines (ls : list jsstring) : list jsstring :=
  List.filter (fun t => (0 <? length t)%nat) (trim <$> ls).



Definition academicHeading : jsstring := lit "1. Academic Vocabulary:".




Definition dash (w : string) : bulletLine :=
  {| indent := lit "   "; marker := 45%N; gap := lit " "; item := lit w;
     spaceAfter := []; remainder := [] |}.

Definition dot (w rest : string) : bulletLine :=
  {| indent := []; marker := BULLET; gap := lit " "; item := lit w;
     spaceAfter := lit " "; remainder := lit rest |}.

Definition response2 : jsstring :=
  join [NL]
    ([lit "Here is the analysis."; []]
     ++ academicHeading
     :: (renderBullet <$> [dash "analyze"; dot "paradigm shift" "; a phrase"])
     ++ [lit "2. Collocations And Phrases:"; lit "- take into account"]).

(** ** Vocabulary of the statements about the client *)

(** The events of a call that sends [sends] requests, the first of them at
    attempt number [attempt]: after each request but the last, the backoff
    [retryDelay * attempt]. *)
Fixpoint backoffTrace (prompt : jsstring) (retryDelay : Z)
    (attempt sends : nat) : list event :=
  match sends with
  | O => []
  | S O => [EFetch prompt]
  | S k =>
      EFetch prompt :: EDelay (retryDelay * Z.of_nat attempt)
      :: backoffTrace prompt retryDelay (S attempt) k
  end.

(** The response of an attempt neither ends the call with a text nor with an
    error that is thrown on. *)
Definition keepsTrying (client : GeminiAPIClient) (attempt : nat)
    (out : fetchOutcome) : bool :=
  match tryBlock client attempt out with
  | Done _ => false
  | Again => true
  | Raised message => negb (isNotRetried message)
  end.

(** The message of the error thrown for status 400. *)
Definition invalidRequestMessage (errorMessage : option jsstring) : jsstring :=
  lit "Invalid request: " ++ default (lit "Bad request") errorMessage.

Definition unreachable : reply :=
  {| latency := 30; outcome := FetchRejected (lit "Failed to fetch") |}.

Definition malformed (message : string) : reply :=
  {| latency := 80;
     outcome := NotOk 400 (lit "Bad Request") (Some (lit message)) |}.

(** [k] times a request followed by its backoff, from attempt [attempt]. *)
Fixpoint retryPrefix (prompt : jsstring) (retryDelay : Z)
    (attempt k : nat) : list event :=
  match k with
  | O => []
  | S k' =>
      EFetch prompt :: EDelay (retryDelay * Z.of_nat attempt)
      :: retryPrefix prompt retryDelay (S attempt) k'
  end.

(** ** Vocabulary of the statements about the rate limiter *)

(** The recorded requests that lie less than a minute before [time]. *)
Definition inWindow (time : Z) (recorded : list Z) : list Z :=
  List.filter (fun t => time - t <? 60000) recorded.

(** ** Vocabulary of the statements about the cache *)

(** A module name that is not empty and holds no comma. *)
Definition isPlainName (module : jsstring) : bool :=
  isTruthy module && forallb (fun c => negb (c =? 44)%N) module.

(** [clearCache()] *)
Definition clearCache (e : engine) : engine :=
  {| cache := ∅; rateLimiter := rateLimiter e |}.

(** A request whose report is in the cache of [deniedCall]. *)
Definition deniedKey : jsstring :=
  (generateCacheKey (lit "Hello world")
     (requested (request ["grammar"; "vocabulary"] false))).1.

(** ** More of the response parsing *)

(** The test of the regular expression [/([ABC][12])/i] at one position. *)
Definition isLevelLetter (c : N) : bool :=
  ((65 <=? c) && (c <=? 67) || (97 <=? c) && (c <=? 99))%N.
Definition isLevelDigit (c : N) : bool := ((c =? 49) || (c =? 50))%N.

(** [content.match(/([ABC][12])/i)]: the leftmost match, if any. *)
Fixpoint findLevel (content : jsstring) : option jsstring :=
  match content with
  | a :: ((b :: _) as rest) =>
      if isLevelLetter a && isLevelDigit b then Some [a; b] else findLevel rest
  | _ => None
  end.

(** [s.toUpperCase()] for a string of ASCII characters. *)
Definition toUpperCaseAscii (s : jsstring) : jsstring :=
  (fun c => if isLower c then (c - 32)%N else c) <$> s.

Fixpoint extractCEFRLevel (secs : sections) : jsstring :=
  match secs with
  | [] => lit "B2"                    (* the default estimate *)
  | (_, content) :: rest =>
      match findLevel content with
      | Some cefrMatch => toUpperCaseAscii cefrMatch
      | None => extractCEFRLevel rest
      end
  end.

Definition cefrLevels : list jsstring :=
  lit <$> ["A1"; "A2"; "B1"; "B2"; "C1"; "C2"].

(** ** Vocabulary of the statements about the parsing *)

(** A section name: small letters and white space, none at either end. *)
Definition isSectionKey (k : jsstring) : bool :=
  forallb (fun c => isLower c || isWhiteSpace c) k && bool_decide (trim k = k).

(** A line of a section body: not empty, trimmed, without a line feed. *)
Definition isContentLine (l : jsstring) : bool :=
  isTruthy l && oneLine l && bool_decide (trim l = l).

Definition isSectionEntry (entry : jsstring * jsstring) : bool :=
  isSectionKey entry.1 && isTruthy entry.2
  && forallb isContentLine (split NL entry.2).

(** A word of a word list: not empty, trimmed, without "," or ";" or a
    line feed. *)
Definition isListWord (w : jsstring) : bool :=
  isTruthy w && bool_decide (trim w = w)
  && forallb (fun c => negb (isSeparator c) && negb (c =? NL)%N) w.

(** A word and a gap of a text, as [countWords] counts them. *)
Definition isWord (w : jsstring) : bool :=
  isTruthy w && forallb (fun c => negb (isWhiteSpace c)) w.
Definition isGap (g : jsstring) : bool :=
  isTruthy g && forallb isWhiteSpace g.

(** A first word and further words, each after a gap. *)
Definition spaced (first : jsstring) (rest : list (jsstring * jsstring))
  : jsstring :=
  first ++ concat ((fun gw => gw.1 ++ gw.2) <$> rest).

(** What the scan keeps true from line to line. *)
Record scanInvariant (s : sectionScan) : Prop := {
  si_keys : NoDup (scanned s).*1;
  si_entries : Forall (fun entry => isSectionEntry entry = true) (scanned s);
  si_current : isSectionKey (currentSection s) = true;
  si_content : forallb isContentLine (currentContent s) = true
}.

Definition noDifficulty : difficulty :=
  {| basic := []; intermediate := []; advanced := [] |}.

(** ** The module list of the page *)

(** [s.replace(pattern, '')] for a string pattern: the first occurrence of
    the pattern is removed. *)
Fixpoint removeFirst (pattern s : jsstring) : jsstring :=
  if startsWith pattern s then drop (length pattern) s
  else match s with
       | [] => []
       | c :: r => c :: removeFirst pattern r
       end.

Definition checkboxes : list jsstring :=
  [lit "vocabulary-analysis"; lit "grammar-analysis"; lit "structure-analysis";
   lit "content-analysis"; lit "complexity-analysis"].

(** [getSelectedAnalysisModules], given which of the five checkboxes are
    checked. *)
Definition getSelectedAnalysisModules (checked : jsstring -> bool)
  : list jsstring :=
  removeFirst (lit "-analysis") <$> List.filter checked checkboxes.

(** ** APIKeyManager

    The key is kept in [localStorage] under one name, encoded with [btoa]
    and read back with [atob]. *)

(** The base64 alphabet. *)
Definition base64Char (v : N) : N :=
  (if v <? 26 then 65 + v
   else if v <? 52 then 71 + v
   else if v <? 62 then v - 4
   else if v =? 62 then 43 else 47)%N.

Definition base64Value (c : N) : option N :=
  if isUpper c then Some (c - 65)%N
  else if isLower c then Some (c - 71)%N
  else if isDigit c then Some (c + 4)%N
  else if (c =? 43)%N then Some 62%N
  else if (c =? 47)%N then Some 63%N
  else None.

(** The groups of six bits of a sequence of bytes. *)
Fixpoint sextets (bytes : list N) : list N :=
  match bytes with
  | [] => []
  | [a] => [a / 4; a mod 4 * 16]%N
  | [a; b] => [a / 4; a mod 4 * 16 + b / 16; b mod 16 * 4]%N
  | a :: b :: c :: rest =>
      (a / 4 :: a mod 4 * 16 + b / 16 :: b mod 16 * 4 + c / 64 :: c mod 64
       :: sextets rest)%N
  end.

Definition padding (bytes : list N) : jsstring :=
  match (length bytes mod 3)%nat with
  | 1%nat => [61; 61]%N
  | 2%nat => [61%N]
  | _ => []
  end.

(** [btoa(s)]: throws when a code unit is above 255. *)
Definition btoa (s : jsstring) : option jsstring :=
  if forallb (fun c => c <=? 255)%N s
  then Some ((base64Char <$> sextets s) ++ padding s)
  else None.

Definition isAsciiWhitespace (c : N) : bool :=
  ((c =? 9) || (c =? 10) || (c =? 12) || (c =? 13) || (c =? 32))%N.

(** One or two "=" signs at the end are removed. *)
Definition stripPadding (data : jsstring) : jsstring :=
  match reverse data with
  | a :: b :: r =>
      if (a =? 61)%N then
        if (b =? 61)%N then reverse r else reverse (b :: r)
      else data
  | [a] => if (a =? 61)%N then [] else data
  | [] => data
  end.

(** The bytes of a sequence of groups of six bits; of the last group the
    bits that do not fill a byte are dropped. *)
Fixpoint bytesOfSextets (vs : list N) : list N :=
  match vs with
  | a :: b :: c :: d :: rest =>
      (a * 4 + b / 16 :: b mod 16 * 16 + c / 4 :: c mod 4 * 64 + d
       :: bytesOfSextets rest)%N
  | [a; b; c] => [a * 4 + b / 16; b mod 16 * 16 + c / 4]%N
  | [a; b] => [a * 4 + b / 16]%N
  | _ => []
  end.

(** [atob(s)], the forgiving base64 decoding: [None] when it throws. *)
Definition atob (s : jsstring) : option jsstring :=
  let data := List.filter (fun c => negb (isAsciiWhitespace c)) s in
  let data :=
    if (length data mod 4 =? 0)%nat then stripPadding data else data in
  if (length data mod 4 =? 1)%nat then None
  else bytesOfSextets <$> mapM base64Value data.

Definition storageKey : jsstring := lit "english_analyzer_api_key".

(** [setAPIKey]: the value returned and the storage it leaves. *)
Definition setAPIKey (key : jsstring) (localStorage : gmap jsstring jsstring)
  : bool * gmap jsstring jsstring :=
  match btoa key with
  | Some encoded => (true, <[storageKey := encoded]> localStorage)
  | None => (false, localStorage)
  end.

(** [getAPIKey]: [None] for [null]. *)
Definition getAPIKey (localStorage : gmap jsstring jsstring) : option jsstring :=
  match localStorage !! storageKey with
  | Some encoded => if isTruthy encoded then atob encoded else None
  | None => None
  end.

Definition clearAPIKey (localStorage : gmap jsstring jsstring)
  : gmap jsstring jsstring :=
  delete storageKey localStorage.

(** [validateAPIKey] *)
Definition validateAPIKey (key : jsstring) : bool :=
  isTruthy key && startsWith (lit "AIza") key && (30 <? length key)%nat.

Definition sampleKey : jsstring := lit "AIzaSyA-0123456789_abcdefghijklmnopqrs".

(** ** Vocabulary of the statements about the report and the trace *)

(** The module an entry of the report was written for. *)
Definition entryModule (v : value) : option jsstring :=
  match v with
  | VProcessed p => Some (pdModule p)
  | VFailed _ module _ => Some module
  | _ => None
  end.

(** One turn of the loop over the modules, as an observer sees it: the
    events of its remote part (the waits of the rate limiter, the requests
    and the backoffs of the client), and whether the module analysis
    returned. *)
Record turn := {
  turnModule : jsstring;
  remote : list event;
  turnReturned : bool
}.

(** The events of a loop with a callback: turn after turn the remote part,
    followed at once by the progress report when the turn returned. *)
Fixpoint turnsTrace (total completed : nat) (turns : list turn) : list event :=
  match turns with
  | [] => []
  | t :: rest =>
      remote t
      ++ (if turnReturned t then
            EProgress (S completed) total (progressMessage (turnModule t))
            :: turnsTrace total (S completed) rest
          else turnsTrace total completed rest)
  end.

(** The remote part of a turn holds no progress report and no request
    but requests with the prompt of its module; the turn returned exactly
    when the report holds processed data for its module, and then its
    remote part ends with the request that was answered. *)
Definition isTurnOf (prompts : AnalysisPrompts) (text : jsstring)
    (final : report) (t : turn) : Prop :=
  progressCalls (remote t) = []
  /\ (exists k, fetches (remote t)
                = replicate k (getPrompt prompts (turnModule t) text))
  /\ turnReturned t = isProcessed (final !! turnModule t)
  /\ (turnReturned t = true ->
      last (remote t) = Some (EFetch (getPrompt prompts (turnModule t) text))).

(** A response with status 400 and the body [null]. *)
Definition nullBody : reply :=
  {| latency := 80; outcome := NotOkNull 400 (lit "Bad Request") |}.

(** A limiter for two requests a minute whose window is full at time
    40000. *)
Definition fullLimiter : RateLimiter :=
  {| requestsPerMinute := 2; minInterval := 30000; requests := [1000; 31000] |}.

Definition fullTime : world := {| now := 40000; trace := [] |}.

(** * Properties *)

(** ** The definitions on small inputs *)

Example lit_abc : lit "Az" = [65%N; 122%N].
Proof. reflexivity. Qed.

Example trim_ex : trim (lit "  a b  ") = lit "a b".
Proof. reflexivity. Qed.

Example split_ex : split NL ([97; 10; 10; 98]%N) = [[97%N]; []; [98%N]].
Proof. reflexivity. Qed.

Example sort_ex :
  sort [lit "vocabulary"; lit "grammar"; lit "content"]
  = [lit "content"; lit "grammar"; lit "vocabulary"].
Proof. reflexivity. Qed.

Example decimal_ex : decimal 429 = lit "429".
Proof. reflexivity. Qed.

Example toString36_ex : toString36 71 = lit "1z".
Proof. reflexivity. Qed.

Example extractSections_ex :
  extractSections response1
  = [(lit "general", lit "Intro");
     (lit "academic vocabulary",
      lit "- analyze" ++ [NL] ++ [BULLET] ++ lit " synthesis; noun");
     (lit "collocations", lit "3. heavy rain")].
Proof. vm_compute. reflexivity. Qed.

Example parseVocabulary_ex :
  academicVocabulary (parseVocabularyResponse response1)
  = [lit "analyze"; lit "synthesis"]
  /\ collocations (parseVocabularyResponse response1) = [lit ". heavy rain"].
Proof. vm_compute. split; reflexivity. Qed.

Example countWords_ex : countWords (lit "  the  quick brown   fox ") = 4%nat.
Proof. reflexivity. Qed.

Example simpleHash_ex : simpleHash (lit "ab") = lit "2e9".
Proof. reflexivity. Qed.

Example generateCacheKey_ex :
  generateCacheKey (lit "ab") [lit "vocabulary"; lit "grammar"]
  = (lit "2e9_grammar,vocabulary", [lit "grammar"; lit "vocabulary"]).
Proof. vm_compute. reflexivity. Qed.

(** ** Sorting strings *)

Lemma compareStrings_refl a : compareStrings a a = Eq.
Proof. induction a as [|x a IH]; simpl; [done|]. by rewrite N.compare_refl. Qed.

Lemma compareStrings_eq a b : compareStrings a b = Eq -> a = b.
Proof.
  revert b. induction a as [|x a IH]; intros [|y b]; simpl; try done.
  destruct (N.compare_spec x y); try done.
  intros. subst. f_equal. by apply IH.
Qed.

Lemma compareStrings_flip a b :
  compareStrings b a = CompOpp (compareStrings a b).
Proof.
  revert b. induction a as [|x a IH]; intros [|y b]; simpl; try done.
  rewrite (N.compare_antisym x y).
  destruct (x ?= y)%N; simpl; auto.
Qed.

Lemma compareStrings_lt_trans a b c :
  compareStrings a b = Lt -> compareStrings b c = Lt -> compareStrings a c = Lt.
Proof.
  revert b c. induction a as [|x a IH]; intros [|y b] [|z c]; simpl; try done.
  destruct (N.compare_spec x y), (N.compare_spec y z), (N.compare_spec x z);
    try done; try lia; subst; eauto; lia.
Qed.

#[export] Instance str_le_total : Total str_le.
Proof.
  intros a b. unfold str_le. rewrite (compareStrings_flip a b).
  destruct (compareStrings a b); simpl; auto.
Qed.

#[export] Instance str_le_trans : Transitive str_le.
Proof.
  intros a b c. unfold str_le. intros Hab Hbc.
  destruct (compareStrings a b) eqn:E1; [|clear Hab|done].
  - apply compareStrings_eq in E1. by subst.
  - destruct (compareStrings b c) eqn:E2; [| |done].
    + apply compareStrings_eq in E2. subst. by rewrite E1.
    + by rewrite (compareStrings_lt_trans a b c).
Qed.

#[export] Instance str_le_antisym : AntiSymm (=) str_le.
Proof.
  intros a b. unfold str_le. rewrite (compareStrings_flip a b).
  destruct (compareStrings a b) eqn:E; simpl; try done.
  intros. by apply compareStrings_eq.
Qed.

Lemma sort_Permutation arr : sort arr ≡ₚ arr.
Proof. apply merge_sort_Permutation. Qed.

Lemma sort_Sorted arr : Sorted str_le (sort arr).
Proof. apply (Sorted_merge_sort str_le). Qed.

(** The sorted array is the only sorted arrangement of its elements. *)
Lemma sort_unique arr sorted :
  Sorted str_le sorted -> sorted ≡ₚ arr -> sort arr = sorted.
Proof.
  intros Hs Hp. apply (Sorted_unique str_le); auto using sort_Sorted.
  by rewrite sort_Permutation.
Qed.

Lemma sort_perm arr1 arr2 : arr1 ≡ₚ arr2 -> sort arr1 = sort arr2.
Proof.
  intros Hp. apply sort_unique; [apply sort_Sorted|].
  by rewrite sort_Permutation.
Qed.

Lemma sort_idemp arr : sort (sort arr) = sort arr.
Proof. apply sort_perm, sort_Permutation. Qed.

(** ** The event trace *)

Lemma fetches_app t1 t2 : fetches (t1 ++ t2) = fetches t1 ++ fetches t2.
Proof. apply omap_app. Qed.

Lemma progressCalls_app t1 t2 :
  progressCalls (t1 ++ t2) = progressCalls t1 ++ progressCalls t2.
Proof. apply omap_app. Qed.

Lemma fetches_delay ms w : fetches (trace (delay ms w)) = fetches (trace w).
Proof. simpl. rewrite fetches_app. simpl. by rewrite app_nil_r. Qed.

Lemma progressCalls_delay ms w :
  progressCalls (trace (delay ms w)) = progressCalls (trace w).
Proof. simpl. rewrite progressCalls_app. simpl. by rewrite app_nil_r. Qed.

Lemma fetches_fetch net prompt w :
  fetches (trace (fetch net prompt w).2) = fetches (trace w) ++ [prompt].
Proof. simpl. by rewrite fetches_app. Qed.

Lemma progressCalls_fetch net prompt w :
  progressCalls (trace (fetch net prompt w).2) = progressCalls (trace w).
Proof. simpl. rewrite progressCalls_app. simpl. by rewrite app_nil_r. Qed.

(** ** The retry loop of the client *)

Section ClientFacts.
Variable client : GeminiAPIClient.
Variable net : nat -> reply.

Lemma attemptLoop_S prompt remaining attempt lastError w :
  attemptLoop client net prompt (S remaining) attempt lastError w =
  let out := (fetch net prompt w).1 in
  let w1 := (fetch net prompt w).2 in
  let backoff := delay (retryDelay client * Z.of_nat attempt) in
  match tryBlock client attempt out with
  | Done text => (Returned text, w1)
  | Again =>
      attemptLoop client net prompt remaining (S attempt) lastError (backoff w1)
  | Raised message =>
      if mentionsTransport message && (attempt <? retryAttempts client)%nat
      then attemptLoop client net prompt remaining (S attempt) (Some message)
             (backoff w1)
      else if isNotRetried message then (Thrown message, w1)
      else if (attempt =? retryAttempts client)%nat
      then (afterRetries client (Some message), w1)
      else attemptLoop client net prompt remaining (S attempt) (Some message)
             (backoff w1)
  end.
Proof. reflexivity. Qed.

(** A call sends the same prompt a number of times, at most once per
    attempt, and never calls [onProgress]. *)
Lemma attemptLoop_trace prompt remaining attempt lastError w :
  let w' := (attemptLoop client net prompt remaining attempt lastError w).2 in
  exists k, (k <= remaining)%nat /\ (0 < remaining -> 0 < k)%nat
    /\ fetches (trace w') = fetches (trace w) ++ replicate k prompt
    /\ progressCalls (trace w') = progressCalls (trace w).
Proof.
  revert attempt lastError w.
  induction remaining as [|k IH]; intros attempt lastError w.
  { exists 0%nat. simpl. rewrite app_nil_r. repeat split; auto; lia. }
  rewrite attemptLoop_S. cbv zeta.
  pose proof (fetches_fetch net prompt w) as Hf.
  pose proof (progressCalls_fetch net prompt w) as Hp.
  set (w1 := (fetch net prompt w).2) in *.
  set (bw := delay _ w1).
  assert (Hb : fetches (trace bw) = fetches (trace w) ++ [prompt])
    by (unfold bw; by rewrite fetches_delay).
  assert (Hq : progressCalls (trace bw) = progressCalls (trace w))
    by (unfold bw; by rewrite progressCalls_delay).
  assert (Hstop : exists n, (n <= S k)%nat /\ (0 < S k -> 0 < n)%nat
            /\ fetches (trace w1) = fetches (trace w) ++ replicate n prompt
            /\ progressCalls (trace w1) = progressCalls (trace w)).
  { exists 1%nat. repeat split; auto; lia. }
  assert (Hgo : forall le,
    let w' := (attemptLoop client net prompt k (S attempt) le bw).2 in
    exists n, (n <= S k)%nat /\ (0 < S k -> 0 < n)%nat
      /\ fetches (trace w') = fetches (trace w) ++ replicate n prompt
      /\ progressCalls (trace w') = progressCalls (trace w)).
  { intros le. destruct (IH (S attempt) le bw) as (n & Hn & _ & Hn1 & Hn2).
    exists (S n). simpl. rewrite Hn1, Hn2, Hb, Hq, <- app_assoc.
    repeat split; auto; lia. }
  destruct (tryBlock client attempt _); simpl; auto.
  destruct (_ && _); auto.
  destruct (isNotRetried _); simpl; auto.
  destruct (_ =? _)%nat; simpl; auto.
Qed.

Lemma generateContent_trace prompt w :
  let w' := (generateContent client net prompt w).2 in
  exists k, (k <= retryAttempts client)%nat
    /\ (0 < retryAttempts client -> 0 < k)%nat
    /\ fetches (trace w') = fetches (trace w) ++ replicate k prompt
    /\ progressCalls (trace w') = progressCalls (trace w).
Proof. apply attemptLoop_trace. Qed.
End ClientFacts.


Lemma safety_message_class :
  mentionsTransport MSG_SAFETY = false /\ isNotRetried MSG_SAFETY = true.
Proof. split; reflexivity. Qed.

(** ** Validation of the text *)

(** C1. A text that is empty once trimmed, or longer than 50,000
    characters, makes [analyzeText] throw; the engine and the world are the
    ones the call started with, so no request has been sent to the remote
    endpoint. *)
Theorem C1_invalid_text_rejected prompts client net e w text opts :
  length (trim text) = 0%nat \/ 50000 < Z.of_nat (length text) ->
  exists message,
    analyzeText prompts client net e w text opts = (Thrown message, e, w)
    /\ length (fetches (trace (analyzeText prompts client net e w text opts).2))
       = length (fetches (trace w)).
Proof.
  intros Hbad. unfold analyzeText.
  destruct (length (trim text) =? 0)%nat eqn:Hempty.
  { eexists. split; reflexivity. }
  destruct Hbad as [Hz | Hlong].
  { rewrite Hz in Hempty. discriminate. }
  apply Z.ltb_lt in Hlong. rewrite Hlong.
  eexists. split; reflexivity.
Qed.

Lemma C1_invalid_text_rejected_witness :
  (length (trim (lit "  ")) = 0%nat \/ 50000 < Z.of_nat (length (lit "  ")))
  /\ exists message,
       analyzeText sourcePrompts newGeminiAPIClient (always (answer (lit "ok")))
         newEngine world0 (lit "  ") (request ["grammar"] true)
       = (Thrown message, newEngine, world0)
       /\ length (fetches (trace (analyzeText sourcePrompts newGeminiAPIClient
                    (always (answer (lit "ok"))) newEngine world0 (lit "  ")
                    (request ["grammar"] true)).2))
          = length (fetches (trace world0)).
Proof.
  split; [left; reflexivity|].
  apply (C1_invalid_text_rejected sourcePrompts newGeminiAPIClient
           (always (answer (lit "ok"))) newEngine world0 (lit "  ")
           (request ["grammar"] true)).
  left; reflexivity.
Defined.

(** ** Retries *)

Section Throttling.
Variable client : GeminiAPIClient.
Variable net : nat -> reply.
Hypothesis always429 : forall i, exists statusText errorMessage,
  outcome (net i) = NotOk 429 statusText errorMessage.

End Throttling.



Example throttled_three_requests :
  generateContent newGeminiAPIClient (always throttled) (lit "p") world0
  = (Thrown (lit "Analysis failed after 3 attempts: Rate limit exceeded. Please try again later."),
     {| now := 1700000000000 + 120 + 1000 + 120 + 2000 + 120;
        trace := [EFetch (lit "p"); EDelay 1000; EFetch (lit "p"); EDelay 2000;
                  EFetch (lit "p")] |}).
Proof. vm_compute. reflexivity. Qed.

(** C4. When the response of an attempt is an ok response whose first
    candidate has [finishReason] "SAFETY", the call throws the safety error
    at that attempt: one request is sent and none after it, whatever the
    number of the attempt and however many attempts remain.  In particular
    a call whose first response is such a response sends exactly one
    request. *)
Theorem C4_safety_block_not_retried client net prompt w c :
  outcome (net (length (fetches (trace w)))) = Data (Some c) ->
  finishReason c = lit "SAFETY" ->
  (forall remaining attempt lastError,
      attemptLoop client net prompt (S remaining) attempt lastError w
      = (Thrown MSG_SAFETY, (fetch net prompt w).2))
  /\ fetches (trace (fetch net prompt w).2) = fetches (trace w) ++ [prompt]
  /\ ((1 <= retryAttempts client)%nat ->
      generateContent client net prompt w
      = (Thrown MSG_SAFETY, (fetch net prompt w).2)).
Proof.
  intros Hout Hsafety.
  assert (Hloop : forall remaining attempt lastError,
             attemptLoop client net prompt (S remaining) attempt lastError w
             = (Thrown MSG_SAFETY, (fetch net prompt w).2)).
  { intros remaining attempt lastError. rewrite attemptLoop_S. cbv zeta.
    unfold fetch at 1. cbn [fst]. rewrite Hout. cbn [tryBlock].
    destruct (decide (finishReason c = lit "SAFETY")) as [_|Hne]; [|done].
    destruct safety_message_class as [-> ->]. reflexivity. }
  split; [exact Hloop|]. split; [apply fetches_fetch|].
  intros Hpos. unfold generateContent.
  destruct (retryAttempts client) as [|k]; [lia|]. apply Hloop.
Qed.

Lemma C4_safety_block_not_retried_witness :
  outcome (always blocked (length (fetches (trace world0))))
  = Data (Some {| finishReason := lit "SAFETY"; firstPart := None |})
  /\ finishReason {| finishReason := lit "SAFETY"; firstPart := None |}
     = lit "SAFETY"
  /\ (forall remaining attempt lastError,
        attemptLoop newGeminiAPIClient (always blocked) (lit "p") (S remaining)
          attempt lastError world0
        = (Thrown MSG_SAFETY, (fetch (always blocked) (lit "p") world0).2))
  /\ fetches (trace (fetch (always blocked) (lit "p") world0).2)
     = fetches (trace world0) ++ [lit "p"]
  /\ ((1 <= retryAttempts newGeminiAPIClient)%nat ->
      generateContent newGeminiAPIClient (always blocked) (lit "p") world0
      = (Thrown MSG_SAFETY, (fetch (always blocked) (lit "p") world0).2)).
Proof.
  split; [reflexivity|]. split; [reflexivity|].
  exact (C4_safety_block_not_retried newGeminiAPIClient (always blocked)
           (lit "p") world0
           {| finishReason := lit "SAFETY"; firstPart := None |}
           eq_refl eq_refl).
Defined.

(** Throttled twice, then answered: the third attempt returns the text. *)
Example throttled_twice_then_answered :
  generateContent newGeminiAPIClient
    (script [throttled; throttled] (answer (lit "fine"))) (lit "p") world0
  = (Returned (Some (lit "fine")),
     {| now := 1700000000000 + 120 + 1000 + 120 + 2000 + 250;
        trace := [EFetch (lit "p"); EDelay 1000; EFetch (lit "p"); EDelay 2000;
                  EFetch (lit "p")] |}).
Proof. vm_compute. reflexivity. Qed.

Example blocked_one_request :
  generateContent newGeminiAPIClient (always blocked) (lit "p") world0
  = (Thrown MSG_SAFETY,
     {| now := 1700000000000 + 300; trace := [EFetch (lit "p")] |}).
Proof. vm_compute. reflexivity. Qed.

(** ** One turn of the loop over the modules *)

Lemma waitIfNeeded_trace rl w :
  fetches (trace (waitIfNeeded rl w).2) = fetches (trace w)
  /\ progressCalls (trace (waitIfNeeded rl w).2) = progressCalls (trace w).
Proof.
  unfold waitIfNeeded. cbn [snd].
  repeat match goal with
         | |- context [if ?b then _ else _] => destruct b
         end;
    rewrite ?fetches_delay, ?progressCalls_delay; auto.
Qed.

Lemma fetches_emit_progress c n m w :
  fetches (trace (emit (EProgress c n m) w)) = fetches (trace w).
Proof. simpl. rewrite fetches_app. simpl. by rewrite app_nil_r. Qed.

Lemma progressCalls_emit_progress c n m w :
  progressCalls (trace (emit (EProgress c n m) w))
  = progressCalls (trace w) ++ [(c, n, m)].
Proof. simpl. by rewrite progressCalls_app. Qed.

Section EngineFacts.
Variable prompts : AnalysisPrompts.
Variable client : GeminiAPIClient.
Variable net : nat -> reply.

Abbreviation runModuleAnalysis := (runModuleAnalysis prompts client net).
Abbreviation analyzeModule := (analyzeModule prompts client net).
Abbreviation analyzeModules := (analyzeModules prompts client net).
Abbreviation analyzeText := (analyzeText prompts client net).

(** The world in which the remote call of a turn starts. *)
Abbreviation cleared st := (waitIfNeeded (limiter st) (outside st)).2.

Lemma runModuleAnalysis_world text module w :
  (runModuleAnalysis text module w).2
  = (generateContent client net (getPrompt prompts module text) w).2.
Proof.
  unfold runModuleAnalysis.
  by destruct (generateContent _ _ _ _) as [[?|?] ?].
Qed.

Lemma analyzeModule_returned text callback total st module data w2 :
  runModuleAnalysis text module (cleared st) = (Returned data, w2) ->
  analyzeModule text callback total st module =
  {| results := <[module := VProcessed data]> (results st);
     completedModules := S (completedModules st);
     limiter := (waitIfNeeded (limiter st) (outside st)).1;
     outside :=
       if callback then
         emit (EProgress (S (completedModules st)) total
                 (progressMessage module)) w2
       else w2 |}.
Proof.
  unfold analyzeModule.
  destruct (waitIfNeeded _ _) as [rl w1]. cbn [fst snd]. by intros ->.
Qed.

Lemma analyzeModule_thrown text callback total st module message w2 :
  runModuleAnalysis text module (cleared st) = (Thrown message, w2) ->
  analyzeModule text callback total st module =
  {| results := <[module := VFailed message module (now w2)]> (results st);
     completedModules := completedModules st;
     limiter := (waitIfNeeded (limiter st) (outside st)).1;
     outside := w2 |}.
Proof.
  unfold analyzeModule.
  destruct (waitIfNeeded _ _) as [rl w1]. cbn [fst snd]. by intros ->.
Qed.

(** A turn sends the prompt of its module, between once and
    [retryAttempts] times, and nothing else. *)
Lemma analyzeModule_fetches text callback total st module :
  exists k, (k <= retryAttempts client)%nat
    /\ (0 < retryAttempts client -> 0 < k)%nat
    /\ fetches (trace (outside (analyzeModule text callback total st module)))
       = fetches (trace (outside st))
         ++ replicate k (getPrompt prompts module text).
Proof.
  destruct (generateContent_trace client net (getPrompt prompts module text)
              (cleared st)) as (k & Hk & Hpos & Hf & _).
  cbv zeta in Hf. rewrite <- runModuleAnalysis_world in Hf.
  rewrite (proj1 (waitIfNeeded_trace _ _)) in Hf.
  exists k. split; [done|]. split; [done|].
  destruct (runModuleAnalysis text module (cleared st)) as [[data|msg] w2] eqn:E;
    cbn [snd] in Hf.
  - rewrite (analyzeModule_returned _ callback total _ _ _ _ E). cbn [outside].
    destruct callback; by rewrite ?fetches_emit_progress.
  - by rewrite (analyzeModule_thrown _ callback total _ _ _ _ E).
Qed.

Lemma analyzeModules_cons text callback total st module mods :
  analyzeModules text callback total st (module :: mods)
  = analyzeModules text callback total
      (analyzeModule text callback total st module) mods.
Proof. reflexivity. Qed.

Lemma analyzeModules_app text callback total st mods1 mods2 :
  analyzeModules text callback total st (mods1 ++ mods2)
  = analyzeModules text callback total
      (analyzeModules text callback total st mods1) mods2.
Proof. apply foldl_app. Qed.

(** The loop sends, module after module in the order of the array, the
    prompt of the module, each between once and [retryAttempts] times. *)
Lemma analyzeModules_fetches text callback total mods : forall st,
  exists ks, length ks = length mods
    /\ Forall (fun k => (k <= retryAttempts client)%nat
                        /\ (0 < retryAttempts client -> 0 < k)%nat) ks
    /\ fetches (trace (outside (analyzeModules text callback total st mods)))
       = fetches (trace (outside st))
         ++ concat (zip_with (fun m k => replicate k (getPrompt prompts m text))
                      mods ks).
Proof.
  induction mods as [|m mods IH]; intros st.
  { exists []. simpl. by rewrite app_nil_r. }
  rewrite analyzeModules_cons.
  destruct (analyzeModule_fetches text callback total st m) as (k & Hk & Hpos & Hf).
  destruct (IH (analyzeModule text callback total st m)) as (ks & Hlen & Hall & Hfs).
  exists (k :: ks). split; [simpl; by rewrite Hlen|].
  split; [by constructor|].
  rewrite Hfs, Hf. simpl. by rewrite <- app_assoc.
Qed.

(** A property of the results object that no later turn writes keeps its
    value. *)
Lemma analyzeModule_results_other text callback total st module key :
  key <> module ->
  results (analyzeModule text callback total st module) !! key
  = results st !! key.
Proof.
  intros Hne.
  destruct (runModuleAnalysis text module (cleared st)) as [[data|msg] w2] eqn:E.
  - rewrite (analyzeModule_returned _ callback total _ _ _ _ E). cbn [results].
    by rewrite lookup_insert_ne.
  - rewrite (analyzeModule_thrown _ callback total _ _ _ _ E). cbn [results].
    by rewrite lookup_insert_ne.
Qed.

Lemma analyzeModules_results_other text callback total mods key : forall st,
  key ∉ mods ->
  results (analyzeModules text callback total st mods) !! key
  = results st !! key.
Proof.
  induction mods as [|m mods IH]; intros st Hnot; [done|].
  rewrite analyzeModules_cons, IH by set_solver.
  apply analyzeModule_results_other. set_solver.
Qed.

Lemma processModuleResponse_module module response text w :
  pdModule (processModuleResponse module response text w) = module.
Proof.
  unfold processModuleResponse.
  destruct (decide (module = lit "vocabulary")) as [E|_];
    [|destruct (decide (module = lit "grammar")) as [E|_];
      [|destruct (decide (module = lit "structure")) as [E|_];
        [|destruct (decide (module = lit "content")) as [E|_];
          [|destruct (decide (module = lit "complexity")) as [E|_]]]]];
    by destruct response.
Qed.

(** A turn writes an entry for its module. *)
Lemma analyzeModule_entry text callback total st module :
  exists entry,
    results (analyzeModule text callback total st module) !! module = Some entry
    /\ entryModule entry = Some module.
Proof.
  destruct (runModuleAnalysis text module (cleared st)) as [[data|msg] w2] eqn:E.
  - rewrite (analyzeModule_returned _ callback total _ _ _ _ E). cbn [results].
    rewrite lookup_insert_eq. eexists. split; [reflexivity|]. cbn [entryModule].
    unfold runModuleAnalysis in E.
    destruct (generateContent _ _ _ _) as [[response|?] w1]; simplify_eq.
    by rewrite processModuleResponse_module.
  - rewrite (analyzeModule_thrown _ callback total _ _ _ _ E). cbn [results].
    rewrite lookup_insert_eq. eauto.
Qed.

Lemma analyzeModules_snoc text callback total st mods module :
  analyzeModules text callback total st (mods ++ [module])
  = analyzeModule text callback total
      (analyzeModules text callback total st mods) module.
Proof. rewrite analyzeModules_app. reflexivity. Qed.

(** After the loop every module of the array has its entry. *)
Lemma analyzeModules_entries text callback total mods : forall st module,
  module ∈ mods ->
  exists entry,
    results (analyzeModules text callback total st mods) !! module = Some entry
    /\ entryModule entry = Some module.
Proof.
  induction mods as [|m mods IH] using rev_ind; intros st module Hin.
  { by apply elem_of_nil in Hin. }
  rewrite analyzeModules_snoc.
  destruct (decide (module = m)) as [->|Hne].
  - apply analyzeModule_entry.
  - rewrite analyzeModule_results_other by done.
    apply IH. apply elem_of_app in Hin as [Hin|Hin]; [done|].
    by apply list_elem_of_singleton in Hin.
Qed.
End EngineFacts.

(** ** The whole call *)

Lemma validText_truthy text : validText text -> isTruthy text = true.
Proof. intros [Hne _]. by destruct text. Qed.

Lemma category_not_field module :
  isCategory module = true ->
  module <> lit "text" /\ module <> lit "processingTime".
Proof.
  unfold isCategory. intros H. apply bool_decide_eq_true in H.
  unfold defaultModules in H. rewrite !elem_of_cons in H.
  destruct H as [->|[->|[->|[->|[->|H]]]]];
    [| | | | |by apply elem_of_nil in H]; split; intros E; vm_compute in E;
    discriminate.
Qed.

Lemma elem_of_sort module arr : module ∈ sort arr <-> module ∈ arr.
Proof. by rewrite sort_Permutation. Qed.

Lemma someWithoutError_text (final : report) text :
  final !! lit "text" = Some (VString text) -> isTruthy text = true ->
  someWithoutError final = true.
Proof.
  intros Hl Ht. unfold someWithoutError, ownValues. apply existsb_exists.
  exists (VString text). split; [|done].
  apply list_elem_of_In, list_elem_of_fmap.
  exists (lit "text", VString text). split; [done|].
  apply list_elem_of_In, List.filter_In. split; [|done].
  apply list_elem_of_In. by apply elem_of_map_to_list.
Qed.

Section CallFacts.
Variable prompts : AnalysisPrompts.
Variable client : GeminiAPIClient.
Variable net : nat -> reply.

Abbreviation analyzeModules := (analyzeModules prompts client net).
Abbreviation analyzeText := (analyzeText prompts client net).
Abbreviation loopEnd := (loopEnd prompts client net).
Abbreviation finalResults := (finalResults prompts client net).

Lemma analyzeText_valid e w text opts :
  validText text ->
  analyzeText e w text opts =
  match cache e !! (generateCacheKey text (requested opts)).1 with
  | Some cached => (Returned cached, e, w)
  | None =>
      (Returned (finalResults e w text opts),
       {| cache := if someWithoutError (finalResults e w text opts)
                   then <[(generateCacheKey text (requested opts)).1
                          := finalResults e w text opts]> (cache e)
                   else cache e;
          rateLimiter := limiter (loopEnd e w text opts) |},
       outside (loopEnd e w text opts))
  end.
Proof.
  intros [Hne Hlen]. unfold analyzeText.
  apply Nat.eqb_neq in Hne. rewrite Hne.
  replace (50000 <? Z.of_nat (length text)) with false
    by (symmetry; apply Z.ltb_ge; lia).
  unfold finalResults, loopEnd, loopStart.
  destruct (generateCacheKey text (requested opts)) as [key mods]. cbn [fst snd].
  reflexivity.
Qed.

Lemma analyzeText_returned_valid e w text opts r e' w' :
  analyzeText e w text opts = (Returned r, e', w') -> validText text.
Proof.
  unfold analyzeText, validText.
  destruct (length (trim text) =? 0)%nat eqn:E1; [done|].
  destruct (50000 <? Z.of_nat (length text)) eqn:E2; [done|].
  intros _. apply Nat.eqb_neq in E1. apply Z.ltb_ge in E2. done.
Qed.

(** The [text] property survives the loop when no module has that name. *)
Lemma finalResults_text e w text opts :
  lit "text" ∉ requested opts ->
  finalResults e w text opts !! lit "text" = Some (VString text).
Proof.
  intros Hnot. unfold finalResults.
  rewrite lookup_insert_ne by (intros E; vm_compute in E; discriminate).
  unfold loopEnd. rewrite analyzeModules_results_other.
  - unfold loopStart, initialResults. cbn [results].
    rewrite !lookup_insert_ne by (intros E; vm_compute in E; discriminate).
    apply lookup_insert_eq.
  - cbn [generateCacheKey snd]. by rewrite elem_of_sort.
Qed.

Lemma finalResults_guard e w text opts :
  validText text -> lit "text" ∉ requested opts ->
  someWithoutError (finalResults e w text opts) = true.
Proof.
  intros Hv Hnot. apply (someWithoutError_text _ text).
  - by apply finalResults_text.
  - by apply validText_truthy.
Qed.

(** After a call that returned, the cache holds the report returned,
    under the key of the request. *)
Lemma analyzeText_stored e w text opts r e' w' :
  lit "text" ∉ requested opts ->
  analyzeText e w text opts = (Returned r, e', w') ->
  cache e' !! (generateCacheKey text (requested opts)).1 = Some r.
Proof.
  intros Hnot Hcall.
  pose proof (analyzeText_returned_valid _ _ _ _ _ _ _ Hcall) as Hv.
  rewrite (analyzeText_valid _ _ _ _ Hv) in Hcall.
  destruct (cache e !! _) as [cached|] eqn:Hc.
  - by simplify_eq.
  - rewrite (finalResults_guard _ _ _ _ Hv Hnot) in Hcall.
    simplify_eq. cbn [cache]. apply lookup_insert_eq.
Qed.

(** A call that finds its key in the cache returns what is stored, and
    changes neither the engine nor the world. *)
Lemma analyzeText_hit e w text opts r :
  validText text ->
  cache e !! (generateCacheKey text (requested opts)).1 = Some r ->
  analyzeText e w text opts = (Returned r, e, w).
Proof. intros Hv Hc. by rewrite (analyzeText_valid _ _ _ _ Hv), Hc. Qed.
End CallFacts.

Lemma generateCacheKey_perm text mods1 mods2 :
  mods1 ≡ₚ mods2 -> generateCacheKey text mods1 = generateCacheKey text mods2.
Proof. intros Hp. unfold generateCacheKey. by rewrite (sort_perm _ _ Hp). Qed.

Lemma categories_not_text mods :
  forallb isCategory mods = true -> lit "text" ∉ mods.
Proof.
  intros Hall Hin. rewrite forallb_forall in Hall.
  apply list_elem_of_In, Hall, category_not_field in Hin. by destruct Hin.
Qed.

Ltac valid_text := split; vm_compute; discriminate.

(** ** The cache *)

(** C5. Two category lists that are permutations of each other have the
    same cache key, for every text.  And when a call for a valid text and
    categories of the enumeration has returned a report, that report is
    stored in the cache of the engine under the key of the request: it is
    the report the cache held before under that key, or else the report
    computed by the call, with the text and an entry for every requested
    category.  A second call for the same text and the same categories (in
    any order) returns that stored report from the engine the first call
    left, and changes neither that engine nor the world: it sends no
    request. *)
Theorem C5_cache_key_and_hit prompts client net e w w2 text opts opts2 :
  requested opts ≡ₚ requested opts2 ->
  (generateCacheKey text (requested opts)).1
  = (generateCacheKey text (requested opts2)).1
  /\ (validText text -> forallb isCategory (requested opts) = true ->
      let key := (generateCacheKey text (requested opts)).1 in
      let first := analyzeText prompts client net e w text opts in
      let second := analyzeText prompts client net first.1.2 w2 text opts2 in
      exists r,
        first.1.1 = Returned r
        /\ cache first.1.2 !! key = Some r
        /\ match cache e !! key with
           | Some stored => r = stored
           | None =>
               r !! lit "text" = Some (VString text)
               /\ forall module, module ∈ requested opts ->
                    exists entry, r !! module = Some entry
                                  /\ entryModule entry = Some module
           end
        /\ second = (Returned r, first.1.2, w2)
        /\ fetches (trace second.2) = fetches (trace w2)).
Proof.
  intros Hperm. split; [by rewrite (generateCacheKey_perm text _ _ Hperm)|].
  intros Hv Hcat key first second.
  pose proof (categories_not_text _ Hcat) as Hnot.
  destruct first as [[res e1] w1] eqn:Hfirst.
  assert (Hret : exists r, res = Returned r).
  { subst first. rewrite (analyzeText_valid _ _ _ _ _ _ _ Hv) in Hfirst.
    destruct (cache e !! _); simplify_eq; eauto. }
  destruct Hret as [r ->]. exists r.
  pose proof (analyzeText_stored _ _ _ _ _ _ _ _ _ _ Hnot Hfirst) as Hstored.
  assert (Hsecond : second = (Returned r, e1, w2)).
  { subst second. cbn [fst snd]. apply analyzeText_hit; [done|].
    by rewrite <- (generateCacheKey_perm text _ _ Hperm). }
  split; [reflexivity|]. split; [exact Hstored|].
  split; [|split; [exact Hsecond|by rewrite Hsecond]].
  subst first. rewrite (analyzeText_valid _ _ _ _ _ _ _ Hv) in Hfirst.
  fold key in Hfirst. destruct (cache e !! key) as [stored|]; [by simplify_eq|].
  assert (Hr : r = finalResults prompts client net e w text opts)
    by (by simplify_eq).
  split; [rewrite Hr; by apply finalResults_text|].
  intros module Hin. rewrite Hr. unfold finalResults.
  rewrite lookup_insert_ne.
  - unfold loopEnd. apply analyzeModules_entries.
    cbn [generateCacheKey snd]. by rewrite elem_of_sort.
  - rewrite forallb_forall in Hcat.
    apply list_elem_of_In, Hcat, category_not_field in Hin.
    intros E. by destruct Hin as [_ []].
Qed.

Lemma C5_cache_key_and_hit_witness :
  requested (request ["vocabulary"; "grammar"] true)
  ≡ₚ requested (request ["grammar"; "vocabulary"] true)
  /\ (generateCacheKey (lit "Hello world")
        (requested (request ["vocabulary"; "grammar"] true))).1
     = (generateCacheKey (lit "Hello world")
          (requested (request ["grammar"; "vocabulary"] true))).1
  /\ validText (lit "Hello world")
  /\ forallb isCategory (requested (request ["vocabulary"; "grammar"] true)) = true
  /\ let net := always (answer (lit "fine")) in
     let text := lit "Hello world" in
     let opts := request ["vocabulary"; "grammar"] true in
     let opts2 := request ["grammar"; "vocabulary"] true in
     let key := (generateCacheKey text (requested opts)).1 in
     let first :=
       analyzeText sourcePrompts newGeminiAPIClient net newEngine world0 text
         opts in
     let second :=
       analyzeText sourcePrompts newGeminiAPIClient net first.1.2 world0 text
         opts2 in
     exists r,
       first.1.1 = Returned r
       /\ cache first.1.2 !! key = Some r
       /\ match cache newEngine !! key with
          | Some stored => r = stored
          | None =>
              r !! lit "text" = Some (VString text)
              /\ forall module, module ∈ requested opts ->
                   exists entry, r !! module = Some entry
                                 /\ entryModule entry = Some module
          end
       /\ second = (Returned r, first.1.2, world0)
       /\ fetches (trace second.2) = fetches (trace world0).
Proof.
  assert (Hp : requested (request ["vocabulary"; "grammar"] true)
               ≡ₚ requested (request ["grammar"; "vocabulary"] true))
    by apply perm_swap.
  assert (Hv : validText (lit "Hello world")) by valid_text.
  assert (Hc : forallb isCategory
                 (requested (request ["vocabulary"; "grammar"] true)) = true)
    by reflexivity.
  pose proof (C5_cache_key_and_hit sourcePrompts newGeminiAPIClient
                (always (answer (lit "fine"))) newEngine world0 world0
                (lit "Hello world") (request ["vocabulary"; "grammar"] true)
                (request ["grammar"; "vocabulary"] true) Hp) as [Hkey Hsecond].
  split; [exact Hp|]. split; [exact Hkey|]. split; [exact Hv|].
  split; [exact Hc|]. exact (Hsecond Hv Hc).
Defined.

(** The first call sends a request for each of the two categories and
    stores its report; the second call sends none. *)
Example second_call_from_cache :
  let net := always (answer (lit "fine")) in
  let first :=
    analyzeText sourcePrompts newGeminiAPIClient net newEngine world0
      (lit "Hello world") (request ["vocabulary"; "grammar"] true) in
  let second :=
    analyzeText sourcePrompts newGeminiAPIClient net first.1.2 first.2
      (lit "Hello world") (request ["grammar"; "vocabulary"] true) in
  length (fetches (trace first.2)) = 2%nat
  /\ size (cache first.1.2) = 1%nat
  /\ length (fetches (trace second.2)) = 2%nat
  /\ raised second.1.1 = false.
Proof. vm_compute. repeat split; reflexivity. Qed.

(** C10. When a call for categories of the enumeration returns a report,
    the cache of the engine it leaves holds that report under the key of
    the request.  When the report was computed by this call, it passes the
    guard of the cache through its [text] property, whatever happened to
    the categories, also when every one of them failed.  A later call for
    the same text and the same request returns that report and changes
    neither the engine nor the world: it sends no request. *)
Theorem C10_report_always_cached prompts client net e w w2 text opts r e' w' :
  analyzeText prompts client net e w text opts = (Returned r, e', w') ->
  forallb isCategory (requested opts) = true ->
  cache e' !! (generateCacheKey text (requested opts)).1 = Some r
  /\ (cache e !! (generateCacheKey text (requested opts)).1 = None ->
      r !! lit "text" = Some (VString text) /\ someWithoutError r = true)
  /\ analyzeText prompts client net e' w2 text opts = (Returned r, e', w2).
Proof.
  intros Hcall Hcat.
  pose proof (analyzeText_returned_valid _ _ _ _ _ _ _ _ _ _ Hcall) as Hv.
  pose proof (categories_not_text _ Hcat) as Hnot.
  pose proof (analyzeText_stored _ _ _ _ _ _ _ _ _ _ Hnot Hcall) as Hstored.
  split; [exact Hstored|]. split.
  - intros Hmiss. rewrite (analyzeText_valid _ _ _ _ _ _ _ Hv), Hmiss in Hcall.
    simplify_eq. split.
    + by apply finalResults_text.
    + by apply finalResults_guard.
  - by apply analyzeText_hit.
Qed.

Lemma C10_report_always_cached_witness :
  deniedCall = (Returned deniedReport, deniedCall.1.2, deniedCall.2)
  /\ forallb isCategory (requested (request ["grammar"; "vocabulary"] false)) = true
  /\ cache deniedCall.1.2
       !! (generateCacheKey (lit "Hello world")
             (requested (request ["grammar"; "vocabulary"] false))).1
     = Some deniedReport
  /\ (cache newEngine
        !! (generateCacheKey (lit "Hello world")
              (requested (request ["grammar"; "vocabulary"] false))).1 = None ->
      deniedReport !! lit "text" = Some (VString (lit "Hello world"))
      /\ someWithoutError deniedReport = true)
  /\ analyzeText sourcePrompts newGeminiAPIClient (always denied)
       deniedCall.1.2 deniedCall.2 (lit "Hello world")
       (request ["grammar"; "vocabulary"] false)
     = (Returned deniedReport, deniedCall.1.2, deniedCall.2).
Proof.
  assert (H1 : deniedCall = (Returned deniedReport, deniedCall.1.2, deniedCall.2))
    by (vm_compute; reflexivity).
  assert (H2 : forallb isCategory
                 (requested (request ["grammar"; "vocabulary"] false)) = true)
    by reflexivity.
  split; [exact H1|]. split; [exact H2|].
  exact (C10_report_always_cached sourcePrompts newGeminiAPIClient (always denied)
           newEngine world0 deniedCall.2 (lit "Hello world")
           (request ["grammar"; "vocabulary"] false)
           deniedReport deniedCall.1.2 deniedCall.2 H1 H2).
Defined.

Example denied_report_entries :
  deniedReport !! lit "grammar"
  = Some (VFailed MSG_API_KEY (lit "grammar") (1700000000000 + 90))
  /\ deniedReport !! lit "vocabulary"
     = Some (VFailed MSG_API_KEY (lit "vocabulary") (1700000000000 + 1000 + 90))
  /\ length (fetches (trace deniedCall.2)) = 2%nat
  /\ size (cache deniedCall.1.2) = 1%nat.
Proof. vm_compute. repeat split; reflexivity. Qed.

(** ** Failures of single categories *)

Section MissFacts.
Variable prompts : AnalysisPrompts.
Variable client : GeminiAPIClient.
Variable net : nat -> reply.

Lemma analyzeText_miss e w text opts :
  validText text ->
  cache e !! (generateCacheKey text (requested opts)).1 = None ->
  (analyzeText prompts client net e w text opts).1.1
  = Returned (finalResults prompts client net e w text opts)
  /\ (analyzeText prompts client net e w text opts).2
     = outside (loopEnd prompts client net e w text opts).
Proof.
  intros Hv Hmiss. by rewrite (analyzeText_valid _ _ _ _ _ _ _ Hv), Hmiss.
Qed.

(** The entry of a module that occurs for the last time in the array is
    the one its turn wrote. *)
Lemma loopEnd_entry e w text opts pre module post :
  (generateCacheKey text (requested opts)).2 = pre ++ module :: post ->
  module ∉ post ->
  let total := length (generateCacheKey text (requested opts)).2 in
  let st := analyzeModules prompts client net text (onProgress opts) total
              (loopStart e w text) pre in
  results (loopEnd prompts client net e w text opts) !! module
  = Some match runModuleAnalysis prompts client net text module
                 (waitIfNeeded (limiter st) (outside st)).2 with
         | (Returned data, _) => VProcessed data
         | (Thrown message, w2) => VFailed message module (now w2)
         end.
Proof.
  intros Horder Hlast total st. unfold loopEnd. fold total. rewrite Horder.
  rewrite analyzeModules_app, analyzeModules_cons. fold st.
  rewrite analyzeModules_results_other by done.
  destruct (runModuleAnalysis prompts client net text module _)
    as [[data|message] w2] eqn:E.
  - rewrite (analyzeModule_returned _ _ _ _ _ _ _ _ _ _ E). cbn [results].
    apply lookup_insert_eq.
  - rewrite (analyzeModule_thrown _ _ _ _ _ _ _ _ _ _ E). cbn [results].
    apply lookup_insert_eq.
Qed.
End MissFacts.

(** C2. For a valid text and a request that is not in the cache,
    [analyzeText] returns a report whatever the endpoint does.  Every
    module of the array is attempted: the requests sent are, module after
    module, the prompt of the module between once and [retryAttempts]
    times.  And the entry of a module in the report is what its own turn
    produced: the error message when the remote call threw (rate limit,
    access, safety, network), the processed data otherwise, which for a
    category with a response without text holds the processing error. *)
Theorem C2_failures_stay_in_their_category
    prompts client net e w text opts :
  validText text ->
  (1 <= retryAttempts client)%nat ->
  cache e !! (generateCacheKey text (requested opts)).1 = None ->
  let order := (generateCacheKey text (requested opts)).2 in
  let call := analyzeText prompts client net e w text opts in
  let final := finalResults prompts client net e w text opts in
  call.1.1 = Returned final
  /\ (exists ks, length ks = length order
        /\ Forall (fun k => 1 <= k <= retryAttempts client)%nat ks
        /\ fetches (trace call.2)
           = fetches (trace w)
             ++ concat (zip_with
                          (fun m k => replicate k (getPrompt prompts m text))
                          order ks))
  /\ (forall pre module post,
        order = pre ++ module :: post -> module ∉ post ->
        module <> lit "processingTime" ->
        let st := analyzeModules prompts client net text (onProgress opts)
                    (length order) (loopStart e w text) pre in
        match runModuleAnalysis prompts client net text module
                (waitIfNeeded (limiter st) (outside st)).2 with
        | (Thrown message, w2) =>
            final !! module = Some (VFailed message module (now w2))
        | (Returned data, _) => final !! module = Some (VProcessed data)
        end)
  /\ (forall module w1, isCategory module = true ->
        pdError (processModuleResponse module None text w1)
        = Some (lit "Processing failed: " ++ MSG_UNDEFINED "split")).
Proof.
  intros Hv Hpos Hmiss order call final.
  destruct (analyzeText_miss prompts client net e w text opts Hv Hmiss)
    as [Hres Hworld].
  split; [exact Hres|]. split; [|split].
  - subst call. rewrite Hworld. unfold loopEnd.
    destruct (analyzeModules_fetches prompts client net text (onProgress opts)
                (length order) order (loopStart e w text))
      as (ks & Hlen & Hall & Hf).
    exists ks. split; [done|]. split; [|exact Hf].
    eapply Forall_impl; [exact Hall|]. simpl. intros k [? ?]. lia.
  - intros pre module post Horder Hlast Hne st.
    pose proof (loopEnd_entry prompts client net e w text opts pre module post
                  Horder Hlast) as Hentry.
    cbv zeta in Hentry. fold order in Hentry. fold st in Hentry.
    subst final. unfold finalResults. rewrite lookup_insert_ne by done.
    rewrite Hentry.
    by destruct (runModuleAnalysis prompts client net text module _) as [[?|?] ?].
  - intros module w1 Hcat. unfold isCategory in Hcat.
    apply bool_decide_eq_true in Hcat. unfold defaultModules in Hcat.
    rewrite !elem_of_cons in Hcat.
    destruct Hcat as [->|[->|[->|[->|[->|H]]]]];
      [| | | | |by apply elem_of_nil in H]; reflexivity.
Qed.

Lemma C2_failures_stay_in_their_category_witness :
  validText (lit "Hello world")
  /\ (1 <= retryAttempts newGeminiAPIClient)%nat
  /\ cache newEngine
       !! (generateCacheKey (lit "Hello world")
             (requested (request ["vocabulary"; "grammar"] true))).1 = None
  /\ let prompts := sourcePrompts in
     let client := newGeminiAPIClient in
     let net := deniedOnce in
     let e := newEngine in
     let w := world0 in
     let text := lit "Hello world" in
     let opts := request ["vocabulary"; "grammar"] true in
     let order := (generateCacheKey text (requested opts)).2 in
     let call := analyzeText prompts client net e w text opts in
     let final := finalResults prompts client net e w text opts in
     call.1.1 = Returned final
     /\ (exists ks, length ks = length order
           /\ Forall (fun k => 1 <= k <= retryAttempts client)%nat ks
           /\ fetches (trace call.2)
              = fetches (trace w)
                ++ concat (zip_with
                             (fun m k => replicate k (getPrompt prompts m text))
                             order ks))
     /\ (forall pre module post,
           order = pre ++ module :: post -> module ∉ post ->
           module <> lit "processingTime" ->
           let st := analyzeModules prompts client net text (onProgress opts)
                       (length order) (loopStart e w text) pre in
           match runModuleAnalysis prompts client net text module
                   (waitIfNeeded (limiter st) (outside st)).2 with
           | (Thrown message, w2) =>
               final !! module = Some (VFailed message module (now w2))
           | (Returned data, _) => final !! module = Some (VProcessed data)
           end)
     /\ (forall module w1, isCategory module = true ->
           pdError (processModuleResponse module None text w1)
           = Some (lit "Processing failed: " ++ MSG_UNDEFINED "split")).
Proof.
  assert (Hv : validText (lit "Hello world")) by valid_text.
  assert (Hpos : (1 <= retryAttempts newGeminiAPIClient)%nat) by (simpl; lia).
  assert (Hmiss : cache newEngine
            !! (generateCacheKey (lit "Hello world")
                  (requested (request ["vocabulary"; "grammar"] true))).1 = None)
    by apply lookup_empty.
  split; [exact Hv|]. split; [exact Hpos|]. split; [exact Hmiss|].
  exact (C2_failures_stay_in_their_category sourcePrompts newGeminiAPIClient
           deniedOnce newEngine world0 (lit "Hello world")
           (request ["vocabulary"; "grammar"] true) Hv Hpos Hmiss).
Defined.

(** One category is denied access, the next one is still analysed. *)
Example denied_then_answered :
  let call := analyzeText sourcePrompts newGeminiAPIClient deniedOnce newEngine
                world0 (lit "Hello world")
                (request ["vocabulary"; "grammar"] true) in
  let final := finalResults sourcePrompts newGeminiAPIClient deniedOnce newEngine
                 world0 (lit "Hello world")
                 (request ["vocabulary"; "grammar"] true) in
  raised call.1.1 = false
  /\ final !! lit "grammar"
     = Some (VFailed MSG_API_KEY (lit "grammar") (1700000000000 + 90))
  /\ isProcessed (final !! lit "vocabulary") = true
  /\ fetches (trace call.2)
     = [getPrompt sourcePrompts (lit "grammar") (lit "Hello world");
        getPrompt sourcePrompts (lit "vocabulary") (lit "Hello world")].
Proof. vm_compute. repeat split; reflexivity. Qed.

(** ** The order of the modules *)

(** C6, at the request [vocabulary, grammar].  The key of the cache is
    computed first and sorts the array of the caller in place, so the loop
    runs over [grammar, vocabulary]: the requests are sent, and the progress
    reported, in that order and not in the order supplied. *)
Theorem C6_supplied_order_not_kept :
  let supplied := [lit "vocabulary"; lit "grammar"] in
  let call := analyzeText sourcePrompts newGeminiAPIClient
                (always (answer (lit "fine"))) newEngine world0
                (lit "Hello world")
                {| modules := Some supplied; onProgress := true |} in
  fetches (trace call.2)
  = [getPrompt sourcePrompts (lit "grammar") (lit "Hello world");
     getPrompt sourcePrompts (lit "vocabulary") (lit "Hello world")]
  /\ fetches (trace call.2)
     <> (fun m => getPrompt sourcePrompts m (lit "Hello world")) <$> supplied
  /\ progressCalls (trace call.2)
     = [(1%nat, 2%nat, lit "Completed grammar analysis");
        (2%nat, 2%nat, lit "Completed vocabulary analysis")].
Proof.
  vm_compute. split; [reflexivity|]. split; [|reflexivity].
  intros E. discriminate E.
Qed.

(** ** The category list is not validated *)

Lemma promptProperty_unknown prompts module :
  isCategory module = false -> promptProperty prompts module = None.
Proof.
  intros Hcat. unfold isCategory in Hcat. apply bool_decide_eq_false in Hcat.
  assert (Hne : forall s, s ∈ defaultModules -> module <> s)
    by (intros s Hs ->; done).
  unfold promptProperty.
  by rewrite !decide_False
    by (apply Hne; unfold defaultModules;
        repeat first [apply list_elem_of_here | apply list_elem_of_further]).
Qed.

Lemma getPrompt_vocabulary prompts text :
  getPrompt prompts (lit "vocabulary") text
  = vocabularyPrompt prompts ++ promptTail text.
Proof.
  unfold getPrompt, promptProperty. rewrite decide_True by reflexivity.
  by destruct (vocabularyPrompt prompts).
Qed.

Lemma getPrompt_unknown prompts module text :
  isCategory module = false ->
  getPrompt prompts module text
  = default (vocabularyPrompt prompts) (inheritedText module) ++ promptTail text.
Proof.
  intros Hcat. unfold getPrompt. by rewrite promptProperty_unknown.
Qed.

(** C8, as the code has it.  [analyzeText] checks its text and nothing
    else.  For a valid text and any category list it raises no error and
    returns a report; with an empty list it leaves the world as it found
    it, so it sends no request.  A name outside the enumeration is sent to
    the endpoint like a category: with the prompt of the vocabulary
    category, unless it names a property that the prompt table inherits
    from [Object.prototype] ("constructor", "toString", "__proto__", ...),
    in which case the text of the inherited value stands where the
    template would. *)
Theorem C8_only_the_text_is_validated prompts client net e w text opts :
  validText text ->
  raised (analyzeText prompts client net e w text opts).1.1 = false
  /\ (requested opts = [] ->
      (analyzeText prompts client net e w text opts).2 = w)
  /\ (forall module, isCategory module = false ->
      match inheritedText module with
      | None =>
          getPrompt prompts module text
          = getPrompt prompts (lit "vocabulary") text
      | Some inherited =>
          getPrompt prompts module text = inherited ++ promptTail text
      end).
Proof.
  intros Hv. rewrite (analyzeText_valid _ _ _ _ _ _ _ Hv).
  split; [|split].
  - by destruct (cache e !! _).
  - intros Hempty. destruct (cache e !! _); [done|]. cbn [snd].
    unfold loopEnd. by rewrite Hempty.
  - intros module Hcat. rewrite (getPrompt_unknown _ _ _ Hcat).
    destruct (inheritedText module); [done|].
    by rewrite getPrompt_vocabulary.
Qed.

Lemma C8_only_the_text_is_validated_witness :
  validText (lit "Hello world")
  /\ raised (analyzeText sourcePrompts newGeminiAPIClient
               (always (answer (lit "fine"))) newEngine world0
               (lit "Hello world") (request [] true)).1.1 = false
  /\ (requested (request [] true) = [] ->
      (analyzeText sourcePrompts newGeminiAPIClient
         (always (answer (lit "fine"))) newEngine world0
         (lit "Hello world") (request [] true)).2 = world0)
  /\ (forall module, isCategory module = false ->
      match inheritedText module with
      | None =>
          getPrompt sourcePrompts module (lit "Hello world")
          = getPrompt sourcePrompts (lit "vocabulary") (lit "Hello world")
      | Some inherited =>
          getPrompt sourcePrompts module (lit "Hello world")
          = inherited ++ promptTail (lit "Hello world")
      end).
Proof.
  assert (Hv : validText (lit "Hello world")) by valid_text.
  split; [exact Hv|].
  exact (C8_only_the_text_is_validated sourcePrompts newGeminiAPIClient
           (always (answer (lit "fine"))) newEngine world0
           (lit "Hello world") (request [] true) Hv).
Defined.

(** Names that the prompt table inherits. *)
Example inherited_prompts :
  getPrompt sourcePrompts (lit "constructor") (lit "Hi")
  = lit "function Object() { [native code] }" ++ promptTail (lit "Hi")
  /\ getPrompt sourcePrompts (lit "toString") (lit "Hi")
     = lit "function toString() { [native code] }" ++ promptTail (lit "Hi")
  /\ getPrompt sourcePrompts (lit "__proto__") (lit "Hi")
     = lit "[object Object]" ++ promptTail (lit "Hi")
  /\ inheritedText (lit "poetry") = None.
Proof. vm_compute. repeat split; reflexivity. Qed.

(** C8 as stated fails: an empty category list and a category outside the
    enumeration both get a report, not an error, and the second one makes
    the engine send a request. *)
Lemma C8_categories_not_validated_counterexample :
  let call mods :=
    analyzeText sourcePrompts newGeminiAPIClient (always (answer (lit "fine")))
      newEngine world0 (lit "Hello world") (request mods true) in
  isCategory (lit "poetry") = false
  /\ raised (call []).1.1 = false
  /\ raised (call ["poetry"]).1.1 = false
  /\ fetches (trace (call ["poetry"]).2)
     = [getPrompt sourcePrompts (lit "vocabulary") (lit "Hello world")].
Proof. vm_compute. repeat split; reflexivity. Qed.

(** ** Progress reports *)

Lemma percentage_lt c1 c2 n :
  (0 < n)%nat -> (c1 < c2)%nat -> (percentage c1 n < percentage c2 n)%Q.
Proof.
  intros Hn Hc. destruct n as [|n]; [lia|].
  unfold percentage, Qlt, Qdiv, Qmult, Qinv, inject_Z. simpl. nia.
Qed.

Lemma percentage_full n : (0 < n)%nat -> (percentage n n == 100)%Q.
Proof.
  intros Hn. destruct n as [|n]; [lia|].
  unfold percentage, Qeq, Qdiv, Qmult, Qinv, inject_Z. simpl. nia.
Qed.

Lemma filter_shorter {A} (f : A -> bool) l :
  List.filter f l <> l -> (length (List.filter f l) < length l)%nat.
Proof.
  induction l as [|x l IH]; simpl; [done|].
  pose proof (List.filter_length_le f l).
  destruct (f x); simpl; [|lia].
  intros Hne. assert (List.filter f l <> l) as Hl by congruence.
  apply IH in Hl. lia.
Qed.

Section ProgressFacts.
Variable prompts : AnalysisPrompts.
Variable client : GeminiAPIClient.
Variable net : nat -> reply.

Abbreviation runModuleAnalysis := (runModuleAnalysis prompts client net).
Abbreviation analyzeModule := (analyzeModule prompts client net).
Abbreviation analyzeModules := (analyzeModules prompts client net).

Lemma runModuleAnalysis_progress text module st :
  progressCalls (trace (runModuleAnalysis text module
                          (waitIfNeeded (limiter st) (outside st)).2).2)
  = progressCalls (trace (outside st)).
Proof.
  rewrite runModuleAnalysis_world.
  destruct (generateContent_trace client net (getPrompt prompts module text)
              (waitIfNeeded (limiter st) (outside st)).2) as (k & _ & _ & _ & Hp).
  cbv zeta in Hp. rewrite Hp. apply waitIfNeeded_trace.
Qed.

(** With a callback, a turn calls it once when the module analysis
    returned, and not at all when it threw. *)
Lemma analyzeModule_progress text total st module :
  let st' := analyzeModule text true total st module in
  if isProcessed (results st' !! module) then
    progressCalls (trace (outside st'))
    = progressCalls (trace (outside st))
      ++ [(S (completedModules st), total, progressMessage module)]
    /\ completedModules st' = S (completedModules st)
  else
    progressCalls (trace (outside st')) = progressCalls (trace (outside st))
    /\ completedModules st' = completedModules st.
Proof.
  pose proof (runModuleAnalysis_progress text module st) as Hp.
  destruct (runModuleAnalysis text module _) as [[data|msg] w2] eqn:E;
    cbn [snd] in Hp; cbv zeta.
  - rewrite (analyzeModule_returned _ _ _ _ _ _ _ _ _ _ E).
    cbn [results outside completedModules].
    rewrite lookup_insert_eq. cbn [isProcessed].
    by rewrite progressCalls_emit_progress, Hp.
  - rewrite (analyzeModule_thrown _ _ _ _ _ _ _ _ _ _ E).
    cbn [results outside completedModules].
    rewrite lookup_insert_eq. by cbn [isProcessed].
Qed.

Lemma analyzeModules_progress text total mods : forall st,
  NoDup mods ->
  let st' := analyzeModules text true total st mods in
  progressCalls (trace (outside st'))
  = progressCalls (trace (outside st))
    ++ imap (fun i m => ((completedModules st + S i)%nat, total,
                         progressMessage m))
         (List.filter (fun m => isProcessed (results st' !! m)) mods).
Proof.
  induction mods as [|m mods IH]; intros st Hnd; cbv zeta.
  { simpl. by rewrite app_nil_r. }
  apply NoDup_cons in Hnd as [Hm Hnd].
  rewrite analyzeModules_cons.
  set (st1 := analyzeModule text true total st m).
  specialize (IH st1 Hnd). cbv zeta in IH. rewrite IH.
  cbn [List.filter].
  rewrite (analyzeModules_results_other _ _ _ _ _ _ mods m st1 Hm).
  pose proof (analyzeModule_progress text total st m) as Hturn.
  cbv zeta in Hturn. fold st1 in Hturn.
  destruct (isProcessed (results st1 !! m)); destruct Hturn as [-> ->].
  - rewrite <- app_assoc. f_equal. cbn [imap app]. f_equal.
    + f_equal. f_equal. lia.
    + apply imap_ext. intros i x _. simpl. f_equal. f_equal. lia.
  - reflexivity.
Qed.

(** The rate limiter adds waits to the trace and nothing else. *)
Lemma waitIfNeeded_events rl w :
  exists waits,
    trace (waitIfNeeded rl w).2 = trace w ++ waits
    /\ fetches waits = [] /\ progressCalls waits = [].
Proof.
  unfold waitIfNeeded. cbn [snd].
  repeat match goal with
         | |- context [if ?b then _ else _] => destruct b
         end;
    cbn [delay trace]; rewrite <- ?app_assoc;
    first [ by (exists []; rewrite app_nil_r)
          | by (eexists; split; [reflexivity|]) ].
Qed.

(** The client adds requests with its prompt and backoffs to the trace;
    when it returns, the last event is the request that was answered. *)
Lemma attemptLoop_events prompt remaining : forall attempt lastError w,
  exists evs,
    trace (attemptLoop client net prompt remaining attempt lastError w).2
    = trace w ++ evs
    /\ progressCalls evs = []
    /\ (exists k, fetches evs = replicate k prompt)
    /\ (forall text,
          (attemptLoop client net prompt remaining attempt lastError w).1
          = Returned text -> last evs = Some (EFetch prompt)).
Proof.
  induction remaining as [|k IH]; intros attempt lastError w.
  { exists []. cbn [attemptLoop fst snd]. rewrite app_nil_r.
    split; [done|]. split; [done|]. split; [by exists 0%nat|].
    intros text. unfold afterRetries. by destruct lastError. }
  rewrite attemptLoop_S. cbv zeta.
  set (w1 := (fetch net prompt w).2).
  set (bw := delay _ w1).
  assert (Hstop : forall res : result (option jsstring),
    exists evs, trace (res, w1).2 = trace w ++ evs
      /\ progressCalls evs = []
      /\ (exists n, fetches evs = replicate n prompt)
      /\ (forall text, (res, w1).1 = Returned text ->
            last evs = Some (EFetch prompt))).
  { intros res. exists [EFetch prompt]. split; [done|]. split; [done|].
    split; [by exists 1%nat|done]. }
  assert (Hgo : forall le,
    exists evs,
      trace (attemptLoop client net prompt k (S attempt) le bw).2 = trace w ++ evs
      /\ progressCalls evs = []
      /\ (exists n, fetches evs = replicate n prompt)
      /\ (forall text,
            (attemptLoop client net prompt k (S attempt) le bw).1 = Returned text ->
            last evs = Some (EFetch prompt))).
  { intros le. destruct (IH (S attempt) le bw) as (evs & Ht & Hp & [n Hf] & Hl).
    exists (EFetch prompt :: EDelay (retryDelay client * Z.of_nat attempt) :: evs).
    split.
    { rewrite Ht. unfold bw, w1. cbn [delay fetch trace snd].
      by rewrite <- !app_assoc. }
    split; [exact Hp|]. split.
    { exists (S n). cbn [replicate]. rewrite <- Hf. reflexivity. }
    intros text Hret. specialize (Hl text Hret).
    destruct evs as [|ev evs]; [done|]. exact Hl. }
  destruct (tryBlock client attempt _); auto.
  destruct (_ && _); auto.
  destruct (isNotRetried _); auto.
  destruct (_ =? _)%nat; auto.
Qed.

(** A turn of the loop with a callback, as an observer sees it. *)
Lemma analyzeModule_turn text total st module :
  let st' := analyzeModule text true total st module in
  let ok := isProcessed (results st' !! module) in
  exists events,
    progressCalls events = []
    /\ (exists k, fetches events = replicate k (getPrompt prompts module text))
    /\ (ok = true -> last events = Some (EFetch (getPrompt prompts module text)))
    /\ trace (outside st')
       = trace (outside st) ++ events
         ++ (if ok then [EProgress (S (completedModules st)) total
                           (progressMessage module)] else [])
    /\ completedModules st'
       = if ok then S (completedModules st) else completedModules st.
Proof.
  cbv zeta.
  destruct (waitIfNeeded_events (limiter st) (outside st))
    as (waits & Hw & Hwf & Hwp).
  destruct (attemptLoop_events (getPrompt prompts module text)
              (retryAttempts client) 1 None
              (waitIfNeeded (limiter st) (outside st)).2)
    as (evs & He & Hep & [k Hef] & Hel).
  fold (generateContent client net (getPrompt prompts module text)
          (waitIfNeeded (limiter st) (outside st)).2) in He, Hel.
  exists (waits ++ evs).
  split; [by rewrite progressCalls_app, Hwp, Hep|].
  split; [exists k; by rewrite fetches_app, Hwf, Hef|].
  destruct (runModuleAnalysis text module
              (waitIfNeeded (limiter st) (outside st)).2)
    as [[data|msg] w2] eqn:E.
  - rewrite (analyzeModule_returned _ _ _ _ _ _ _ _ _ _ E).
    cbn [results outside completedModules].
    rewrite lookup_insert_eq. cbn [isProcessed].
    assert (Hw2 : w2 = (generateContent client net (getPrompt prompts module text)
                          (waitIfNeeded (limiter st) (outside st)).2).2)
      by (by rewrite <- runModuleAnalysis_world, E).
    assert (Hlast : last evs = Some (EFetch (getPrompt prompts module text))).
    { unfold runModuleAnalysis in E.
      destruct (generateContent client net _ _) as [[response|?] w3] eqn:G;
        [|done].
      by apply (Hel response). }
    split.
    { intros _. destruct evs as [|ev evs] using rev_ind; [done|].
      rewrite app_assoc, last_snoc. by rewrite last_snoc in Hlast. }
    split; [|done].
    cbn [emit trace]. rewrite Hw2, He, Hw. by rewrite <- !app_assoc.
  - rewrite (analyzeModule_thrown _ _ _ _ _ _ _ _ _ _ E).
    cbn [results outside completedModules].
    rewrite lookup_insert_eq. cbn [isProcessed].
    assert (Hw2 : w2 = (generateContent client net (getPrompt prompts module text)
                          (waitIfNeeded (limiter st) (outside st)).2).2)
      by (by rewrite <- runModuleAnalysis_world, E).
    split; [done|]. split; [|done].
    rewrite Hw2, He, Hw. by rewrite <- !app_assoc, app_nil_r.
Qed.

(** The trace of the loop with a callback: turn after turn. *)
Lemma analyzeModules_turns text total mods : forall st,
  NoDup mods ->
  let st' := analyzeModules text true total st mods in
  exists turns,
    turnModule <$> turns = mods
    /\ Forall (isTurnOf prompts text (results st')) turns
    /\ trace (outside st')
       = trace (outside st) ++ turnsTrace total (completedModules st) turns.
Proof.
  induction mods as [|m mods IH]; intros st Hnd; cbv zeta.
  { exists []. cbn. by rewrite app_nil_r. }
  apply NoDup_cons in Hnd as [Hm Hnd].
  rewrite analyzeModules_cons.
  set (st1 := analyzeModule text true total st m).
  destruct (IH st1 Hnd) as (turns & Hmods & Hall & Htrace).
  destruct (analyzeModule_turn text total st m)
    as (events & Hp & Hf & Hl & Ht & Hc).
  fold st1 in Hl, Ht, Hc.
  exists ({| turnModule := m; remote := events;
             turnReturned := isProcessed (results st1 !! m) |} :: turns).
  split; [by rewrite fmap_cons, Hmods|]. split.
  - constructor; [|exact Hall].
    unfold isTurnOf. cbn [turnModule remote turnReturned].
    rewrite (analyzeModules_results_other _ _ _ _ _ _ mods m st1 Hm).
    done.
  - rewrite Htrace, Ht, Hc. cbn [turnsTrace turnModule remote turnReturned].
    rewrite <- !app_assoc. by destruct (isProcessed (results st1 !! m)).
Qed.
End ProgressFacts.

(** C7, as the code has it.  For a valid text, distinct categories of the
    enumeration, a callback, and nothing in the cache: [onProgress] is
    called once for each category whose module analysis returned, in the
    order in which the loop runs, and not at all for a category whose
    analysis threw.  Each call comes right after its category: the trace of
    the call is, turn after turn, the waits and requests of a category,
    all with the prompt of that category, followed at once, when the
    analysis returned, by the progress report, which thus stands directly
    behind the request that was answered and before anything of the next
    category.  The k-th call reports [k / total * 100]; these percentages
    increase strictly; the last one is 100 when every category returned,
    and all stay below 100 when one of them threw. *)
Theorem C7_progress_only_after_success prompts client net e w text opts :
  validText text ->
  onProgress opts = true ->
  cache e !! (generateCacheKey text (requested opts)).1 = None ->
  NoDup (requested opts) ->
  forallb isCategory (requested opts) = true ->
  let order := (generateCacheKey text (requested opts)).2 in
  let call := analyzeText prompts client net e w text opts in
  let final := finalResults prompts client net e w text opts in
  let succeeded := List.filter (fun m => isProcessed (final !! m)) order in
  let calls := imap (fun i m => (S i, length order, progressMessage m)) succeeded in
  progressCalls (trace call.2) = progressCalls (trace w) ++ calls
  /\ (exists turns,
        turnModule <$> turns = order
        /\ Forall (isTurnOf prompts text final) turns
        /\ trace call.2 = trace w ++ turnsTrace (length order) 0 turns)
  /\ (forall i j ci cj n mi mj, (i < j)%nat ->
        calls !! i = Some (ci, n, mi) -> calls !! j = Some (cj, n, mj) ->
        (percentage ci n < percentage cj n)%Q)
  /\ (succeeded = order -> order <> [] ->
        exists m, last calls = Some (length order, length order, m)
                  /\ (percentage (length order) (length order) == 100)%Q)
  /\ (succeeded <> order ->
        forall c n m, (c, n, m) ∈ calls -> (percentage c n < 100)%Q).
Proof.
  intros Hv Hcb Hmiss Hnd Hcat order call final succeeded calls.
  assert (Horder : order = sort (requested opts)) by reflexivity.
  assert (Hnd' : NoDup order) by (by rewrite Horder, sort_Permutation).
  assert (Hfields : forall m, m ∈ order -> m <> lit "processingTime").
  { intros m Hm. rewrite Horder, elem_of_sort in Hm.
    rewrite forallb_forall in Hcat.
    apply list_elem_of_In, Hcat, category_not_field in Hm. by destruct Hm. }
  assert (Hsucc : succeeded
                  = List.filter
                      (fun m => isProcessed
                         (results (loopEnd prompts client net e w text opts) !! m))
                      order).
  { apply List.filter_ext_in. intros m Hm. subst final. unfold finalResults.
    rewrite lookup_insert_ne; [done|].
    intros E. apply (Hfields m); [by apply list_elem_of_In|done]. }
  assert (Hlookup : forall i c n m, calls !! i = Some (c, n, m) ->
            c = S i /\ n = length order /\ (i < length succeeded)%nat).
  { intros i c n m Hi. subst calls. rewrite list_lookup_imap in Hi.
    destruct (succeeded !! i) as [x|] eqn:Hx; [|done].
    apply lookup_lt_Some in Hx. simpl in Hi. by simplify_eq. }
  assert (Hle : (length succeeded <= length order)%nat)
    by apply List.filter_length_le.
  split; [|split; [|split; [|split]]].
  - subst call.
    rewrite (proj2 (analyzeText_miss prompts client net e w text opts Hv Hmiss)).
    unfold loopEnd. rewrite Hcb. fold order.
    rewrite (analyzeModules_progress prompts client net text (length order) order
               (loopStart e w text) Hnd').
    cbv zeta. cbn [loopStart completedModules outside Nat.add].
    subst calls. rewrite Hsucc. unfold loopEnd. rewrite Hcb. reflexivity.
  - subst call.
    rewrite (proj2 (analyzeText_miss prompts client net e w text opts Hv Hmiss)).
    destruct (analyzeModules_turns prompts client net text (length order) order
                (loopStart e w text) Hnd') as (turns & Hmods & Hall & Htrace).
    assert (Hend : analyzeModules prompts client net text true (length order)
                     (loopStart e w text) order
                   = loopEnd prompts client net e w text opts)
      by (unfold loopEnd; by rewrite Hcb).
    rewrite Hend in Hall, Htrace.
    exists turns. split; [exact Hmods|]. split; [|exact Htrace].
    apply Forall_forall. intros t Ht.
    rewrite Forall_forall in Hall. specialize (Hall t Ht).
    assert (Hin : turnModule t ∈ order)
      by (rewrite <- Hmods; by apply list_elem_of_fmap_2).
    destruct Hall as (H1 & H2 & H3 & H4).
    split; [exact H1|]. split; [exact H2|]. split; [|exact H4].
    rewrite H3. subst final. unfold finalResults.
    rewrite lookup_insert_ne; [done|].
    intros E. by apply (Hfields _ Hin).
  - intros i j ci cj n mi mj Hij Hi Hj.
    apply Hlookup in Hi as (-> & -> & Hi). apply Hlookup in Hj as (-> & _ & Hj).
    apply percentage_lt; lia.
  - intros Hall Hne.
    assert (Hpos : (0 < length order)%nat) by (destruct order; simpl; [done|lia]).
    assert (Hlen : length calls = length order)
      by (subst calls; by rewrite length_imap, Hall).
    rewrite last_lookup, Hlen.
    destruct (calls !! pred (length order)) as [[[c n] m]|] eqn:Hl.
    + pose proof (Hlookup _ _ _ _ Hl) as (-> & -> & _).
      exists m. split; [|by apply percentage_full].
      do 3 f_equal. lia.
    + apply lookup_ge_None in Hl. lia.
  - intros Hsome c n m Hin.
    apply list_elem_of_lookup in Hin as [i Hi].
    apply Hlookup in Hi as (-> & -> & Hi).
    pose proof (filter_shorter _ _ Hsome) as Hshort. fold succeeded in Hshort.
    eapply Qlt_le_trans.
    + apply (percentage_lt (S i) (length order) (length order)); lia.
    + apply Qle_lteq. right. apply percentage_full. lia.
Qed.

Lemma C7_progress_only_after_success_witness :
  validText (lit "Hello world")
  /\ onProgress (request ["vocabulary"; "grammar"] true) = true
  /\ cache newEngine
       !! (generateCacheKey (lit "Hello world")
             (requested (request ["vocabulary"; "grammar"] true))).1 = None
  /\ NoDup (requested (request ["vocabulary"; "grammar"] true))
  /\ forallb isCategory (requested (request ["vocabulary"; "grammar"] true)) = true
  /\ let prompts := sourcePrompts in
     let client := newGeminiAPIClient in
     let net := deniedOnce in
     let e := newEngine in
     let w := world0 in
     let text := lit "Hello world" in
     let opts := request ["vocabulary"; "grammar"] true in
     let order := (generateCacheKey text (requested opts)).2 in
     let call := analyzeText prompts client net e w text opts in
     let final := finalResults prompts client net e w text opts in
     let succeeded := List.filter (fun m => isProcessed (final !! m)) order in
     let calls :=
       imap (fun i m => (S i, length order, progressMessage m)) succeeded in
     progressCalls (trace call.2) = progressCalls (trace w) ++ calls
     /\ (exists turns,
           turnModule <$> turns = order
           /\ Forall (isTurnOf prompts text final) turns
           /\ trace call.2 = trace w ++ turnsTrace (length order) 0 turns)
     /\ (forall i j ci cj n mi mj, (i < j)%nat ->
           calls !! i = Some (ci, n, mi) -> calls !! j = Some (cj, n, mj) ->
           (percentage ci n < percentage cj n)%Q)
     /\ (succeeded = order -> order <> [] ->
           exists m, last calls = Some (length order, length order, m)
                     /\ (percentage (length order) (length order) == 100)%Q)
     /\ (succeeded <> order ->
           forall c n m, (c, n, m) ∈ calls -> (percentage c n < 100)%Q).
Proof.
  assert (Hv : validText (lit "Hello world")) by valid_text.
  assert (Hcb : onProgress (request ["vocabulary"; "grammar"] true) = true)
    by reflexivity.
  assert (Hmiss : cache newEngine
            !! (generateCacheKey (lit "Hello world")
                  (requested (request ["vocabulary"; "grammar"] true))).1 = None)
    by apply lookup_empty.
  assert (Hnd : NoDup (requested (request ["vocabulary"; "grammar"] true))).
  { apply (bool_decide_unpack _). vm_compute. exact I. }
  assert (Hcat : forallb isCategory
                   (requested (request ["vocabulary"; "grammar"] true)) = true)
    by reflexivity.
  split; [exact Hv|]. split; [exact Hcb|]. split; [exact Hmiss|].
  split; [exact Hnd|]. split; [exact Hcat|].
  exact (C7_progress_only_after_success sourcePrompts newGeminiAPIClient
           deniedOnce newEngine world0 (lit "Hello world")
           (request ["vocabulary"; "grammar"] true) Hv Hcb Hmiss Hnd Hcat).
Defined.

(** C7 as stated fails: the grammar category fails, the callback is not
    called for it, and the only call reports 50, not completion. *)
Lemma C7_progress_counterexample :
  let call := analyzeText sourcePrompts newGeminiAPIClient deniedOnce newEngine
                world0 (lit "Hello world")
                (request ["vocabulary"; "grammar"] true) in
  progressCalls (trace call.2)
  = [(1%nat, 2%nat, lit "Completed vocabulary analysis")]
  /\ (percentage 1 2 == 50)%Q.
Proof. vm_compute. split; reflexivity. Qed.

(** Both categories answered: each report stands behind the request of its
    category; the wait before the second request is the one of the rate
    limiter. *)
Example progress_between_requests :
  trace (analyzeText sourcePrompts newGeminiAPIClient
           (always (answer (lit "fine"))) newEngine world0
           (lit "Hello world") (request ["vocabulary"; "grammar"] true)).2
  = [EFetch (getPrompt sourcePrompts (lit "grammar") (lit "Hello world"));
     EProgress 1 2 (lit "Completed grammar analysis");
     EDelay 750;
     EFetch (getPrompt sourcePrompts (lit "vocabulary") (lit "Hello world"));
     EProgress 2 2 (lit "Completed vocabulary analysis")].
Proof. vm_compute. reflexivity. Qed.

(** ** The academic-vocabulary list *)

Example response2_words :
  academicVocabulary (parseVocabularyResponse response2)
  = [lit "analyze"; lit "paradigm shift"]
  /\ collocations (parseVocabularyResponse response2)
     = [lit "take into account"].
Proof. vm_compute. split; reflexivity. Qed.


(** *** Trimming *)

Lemma dropWhile_all p s : forallb p s = true -> dropWhile p s = [].
Proof.
  induction s as [|c s IH]; simpl; [done|].
  intros [-> Hs]%andb_true_iff. auto.
Qed.

Lemma dropWhile_app_stop p x y :
  dropWhile p y = y -> dropWhile p (x ++ y) = dropWhile p x ++ y.
Proof. intros Hy. induction x as [|c x IH]; simpl; [done|]. by destruct (p c). Qed.

Lemma dropWhile_app_all p x y :
  forallb p x = true -> dropWhile p (x ++ y) = dropWhile p y.
Proof.
  induction x as [|c x IH]; simpl; [done|].
  intros [-> Hx]%andb_true_iff. auto.
Qed.

Lemma dropWhile_idemp p s : dropWhile p (dropWhile p s) = dropWhile p s.
Proof.
  induction s as [|c s IH]; simpl; [done|].
  destruct (p c) eqn:E; [done|]. simpl. by rewrite E.
Qed.

Lemma forallb_dropWhile q p s :
  forallb q s = true -> forallb q (dropWhile p s) = true.
Proof.
  induction s as [|c s IH]; simpl; [done|].
  intros [Hc Hs]%andb_true_iff. destruct (p c); [auto|].
  simpl. by rewrite Hc, Hs.
Qed.

Lemma forallb_reverse (q : N -> bool) s :
  forallb q (reverse s) = forallb q s.
Proof.
  induction s as [|c s IH]; [done|].
  rewrite reverse_cons, forallb_app, IH. simpl. rewrite andb_true_r.
  apply andb_comm.
Qed.

Lemma forallb_trim q s : forallb q s = true -> forallb q (trim s) = true.
Proof.
  intros Hs. unfold trim, trimEnd, trimStart.
  rewrite forallb_reverse. apply forallb_dropWhile.
  rewrite forallb_reverse. by apply forallb_dropWhile.
Qed.

Lemma endsTight_app x s : endsTight s -> endsTight (x ++ s).
Proof.
  intros (d & r & Hr & Hd). exists d, (r ++ reverse x).
  by rewrite reverse_app, Hr.
Qed.



Lemma trimEnd_app s t : endsTight s -> trimEnd (s ++ t) = s ++ trimEnd t.
Proof.
  intros (d & r & Hr & Hd). unfold trimEnd.
  rewrite reverse_app, dropWhile_app_stop.
  - by rewrite reverse_app, reverse_involutive.
  - rewrite Hr. simpl. by rewrite Hd.
Qed.

Lemma trimEnd_white s : forallb isWhiteSpace s = true -> trimEnd s = [].
Proof.
  intros Hs. unfold trimEnd. rewrite dropWhile_all; [done|].
  by rewrite forallb_reverse.
Qed.

Lemma trimEnd_tight s : endsTight s -> trimEnd s = s.
Proof.
  intros Hs. rewrite <- (app_nil_r s) at 1.
  rewrite trimEnd_app by done. by rewrite (trimEnd_white []), app_nil_r.
Qed.




(** [trimEnd] removes a suffix. *)
Lemma trimEnd_prefix s : exists ws, s = trimEnd s ++ ws.
Proof.
  unfold trimEnd.
  assert (H : forall x, exists y, x = y ++ dropWhile isWhiteSpace x).
  { induction x as [|c x [y IH]]; [by exists []|]. simpl.
    destruct (isWhiteSpace c); [|by exists []].
    exists (c :: y). simpl. by rewrite <- IH. }
  destruct (H (reverse s)) as [y Hy]. exists (reverse y).
  rewrite <- reverse_app, <- Hy. by rewrite reverse_involutive.
Qed.

Lemma trim_idemp s : trim (trim s) = trim s.
Proof.
  unfold trim. set (y := trimStart s).
  assert (Hy : trimStart y = y) by apply dropWhile_idemp.
  assert (He : trimEnd (trimEnd y) = trimEnd y).
  { unfold trimEnd. by rewrite reverse_involutive, dropWhile_idemp. }
  enough (trimStart (trimEnd y) = trimEnd y) as -> by done.
  destruct (trimEnd_prefix y) as [ws Hws].
  destruct (trimEnd y) as [|c r] eqn:E; [done|].
  rewrite Hws in Hy. unfold trimStart in *. simpl in *.
  destruct (isWhiteSpace c) eqn:Ec; [|done].
  exfalso. clear He E.
  assert (Hlen : forall x, (length (dropWhile isWhiteSpace x) <= length x)%nat).
  { induction x as [|a x IH]; simpl; [lia|].
    destruct (isWhiteSpace a); simpl; lia. }
  specialize (Hlen (r ++ ws)). rewrite Hy in Hlen. simpl in Hlen. lia.
Qed.

(** *** Lines *)

Lemma split_oneLine l : oneLine l = true -> split NL l = [l].
Proof.
  induction l as [|c l IH]; simpl; [done|].
  intros [Hc Hl]%andb_true_iff. apply negb_true_iff in Hc.
  rewrite Hc, IH by done. done.
Qed.

Lemma split_line l s :
  oneLine l = true -> split NL (l ++ NL :: s) = l :: split NL s.
Proof.
  induction l as [|c l IH]; simpl; [done|].
  intros [Hc Hl]%andb_true_iff. apply negb_true_iff in Hc.
  rewrite Hc, IH by done. done.
Qed.

Lemma split_join ls :
  ls <> [] -> forallb oneLine ls = true -> split NL (join [NL] ls) = ls.
Proof.
  induction ls as [|p ls IH]; [done|]. intros _ Hall.
  simpl in Hall. apply andb_true_iff in Hall as [Hp Hls].
  destruct ls as [|q ls]; [by apply split_oneLine|].
  change (join [NL] (p :: q :: ls)) with (p ++ NL :: join [NL] (q :: ls)).
  rewrite split_line by done. f_equal. by apply IH.
Qed.

(** *** Scanning the sections *)

(** Lines that are not headings only add to the content of the current
    section. *)
Lemma scan_content ls : forall s,
  forallb (fun l => negb (isHeading (trim l))) ls = true ->
  foldl scanLine s ls
  = {| scanned := scanned s; currentSection := currentSection s;
       currentContent := currentContent s ++ contentLines ls |}.
Proof.
  induction ls as [|l ls IH]; intros s Hall.
  { destruct s. simpl. by rewrite app_nil_r. }
  simpl in Hall. apply andb_true_iff in Hall as [Hl Hls].
  apply negb_true_iff in Hl.
  simpl. rewrite IH by done. unfold scanLine at 1 2 3. rewrite Hl.
  unfold contentLines. cbn [fmap list_fmap List.filter].
  fold (trim <$> ls).
  destruct (0 <? length (trim l))%nat; cbn [scanned currentSection currentContent].
  - by rewrite <- app_assoc.
  - done.
Qed.




(** *** Bullet lines *)













(** *** The section of the heading *)







(** * Further properties of the code *)

(** ** The client: every path of the retry loop *)

Lemma backoffTrace_step prompt d attempt k :
  backoffTrace prompt d attempt (S (S k))
  = EFetch prompt :: EDelay (d * Z.of_nat attempt)
    :: backoffTrace prompt d (S attempt) (S k).
Proof. reflexivity. Qed.

Lemma trace_fetch net prompt w :
  trace (fetch net prompt w).2 = trace w ++ [EFetch prompt].
Proof. reflexivity. Qed.

Lemma tryBlock_again client attempt out :
  tryBlock client attempt out = Again -> (attempt < retryAttempts client)%nat.
Proof.
  unfold tryBlock.
  destruct out as [m|status statusText em|status statusText|m|[c|]]; try done.
  - destruct (status =? 429)%N.
    + destruct (attempt <? retryAttempts client)%nat eqn:E; [|done].
      intros _. by apply Nat.ltb_lt.
    + by repeat destruct (_ =? _)%N.
  - destruct (status =? 429)%N.
    + destruct (attempt <? retryAttempts client)%nat eqn:E; [|done].
      intros _. by apply Nat.ltb_lt.
    + by repeat destruct (_ =? _)%N.
  - destruct (decide _); [done|]. by destruct (firstPart c).
Qed.

(** Inside the loop the attempt number and the number of turns left add up
    to [retryAttempts + 1]; the last turn never continues. *)
Lemma attemptLoop_backoff client net prompt remaining :
  forall attempt lastError w,
  (attempt + S remaining = S (retryAttempts client))%nat ->
  exists k, (1 <= k <= S remaining)%nat
    /\ trace (attemptLoop client net prompt (S remaining) attempt lastError w).2
       = trace w ++ backoffTrace prompt (retryDelay client) attempt k.
Proof.
  induction remaining as [|r IH]; intros attempt lastError w Hsum;
    rewrite attemptLoop_S; cbv zeta; set (w1 := (fetch net prompt w).2).
  - assert (Hlt : (attempt <? retryAttempts client)%nat = false)
      by (apply Nat.ltb_ge; lia).
    assert (Heq : (attempt =? retryAttempts client)%nat = true)
      by (apply Nat.eqb_eq; lia).
    assert (Hstop : exists k, (1 <= k <= 1)%nat
              /\ trace w1
                 = trace w ++ backoffTrace prompt (retryDelay client) attempt k).
    { exists 1%nat. split; [lia|reflexivity]. }
    destruct (tryBlock client attempt _) as [text| |message] eqn:Htry; simpl; auto.
    + apply tryBlock_again in Htry. lia.
    + rewrite Hlt, andb_false_r, Heq. by destruct (isNotRetried message).
  - assert (Hstop : exists k, (1 <= k <= S (S r))%nat
              /\ trace w1
                 = trace w ++ backoffTrace prompt (retryDelay client) attempt k).
    { exists 1%nat. split; [lia|reflexivity]. }
    assert (Hgo : forall le,
      exists k, (1 <= k <= S (S r))%nat
        /\ trace (attemptLoop client net prompt (S r) (S attempt) le
                    (delay (retryDelay client * Z.of_nat attempt) w1)).2
           = trace w ++ backoffTrace prompt (retryDelay client) attempt k).
    { intros le.
      destruct (IH (S attempt) le
                  (delay (retryDelay client * Z.of_nat attempt) w1))
        as (k & Hk & Ht); [lia|].
      destruct k as [|k]; [lia|].
      exists (S (S k)). split; [lia|].
      rewrite Ht, backoffTrace_step. cbn [delay trace]. unfold w1.
      rewrite trace_fetch, <- !app_assoc. reflexivity. }
    destruct (tryBlock client attempt _); cbn [snd]; auto.
    destruct (_ && _); auto.
    destruct (isNotRetried _); cbn [snd]; auto.
    destruct (_ =? _)%nat; cbn [snd]; auto.
Qed.

(** X1. Whatever the endpoint does, the events of a call of the client
    are: a request, the backoff [retryDelay * 1], a request, the backoff
    [retryDelay * 2], and so on, ending with a request; there are at most
    [retryAttempts] requests (and at least one, unless [retryAttempts] is
    0), all with the prompt of the call. *)
Theorem generateContent_linear_backoff client net prompt w :
  exists k, (k <= retryAttempts client)%nat
    /\ (Nat.min 1 (retryAttempts client) <= k)%nat
    /\ trace (generateContent client net prompt w).2
       = trace w ++ backoffTrace prompt (retryDelay client) 1 k.
Proof.
  unfold generateContent. destruct (retryAttempts client) as [|r] eqn:HR.
  { exists 0%nat. simpl. rewrite app_nil_r. repeat split; lia. }
  destruct (attemptLoop_backoff client net prompt r 1 None w) as (k & Hk & Ht);
    [lia|].
  exists k. rewrite Ht. repeat split; simpl; lia.
Qed.

Lemma retryPrefix_backoff prompt d k : forall attempt j,
  backoffTrace prompt d attempt (k + S j)
  = retryPrefix prompt d attempt k
    ++ backoffTrace prompt d (attempt + k) (S j).
Proof.
  induction k as [|k IH]; intros attempt j.
  { simpl. by rewrite Nat.add_0_r. }
  change (S k + S j)%nat with (S (k + S j)).
  replace (k + S j)%nat with (S (k + j)) by lia.
  rewrite backoffTrace_step. replace (S (k + j)) with (k + S j)%nat by lia.
  rewrite IH. simpl. by replace (attempt + S k)%nat with (S attempt + k)%nat by lia.
Qed.

Lemma fetches_retryPrefix prompt d k : forall attempt,
  length (fetches (retryPrefix prompt d attempt k)) = k.
Proof. induction k as [|k IH]; intros attempt; simpl; [done|]. by rewrite IH. Qed.

(** Responses that keep the loop going are each followed by the backoff and
    the next attempt. *)
Lemma attemptLoop_keeps client net prompt k : forall attempt lastError w rest,
  (attempt + k <= retryAttempts client)%nat ->
  (forall i, (i < k)%nat ->
     keepsTrying client (attempt + i)
       (outcome (net (length (fetches (trace w)) + i)%nat)) = true) ->
  exists lastError' w',
    attemptLoop client net prompt (k + rest) attempt lastError w
    = attemptLoop client net prompt rest (attempt + k) lastError' w'
    /\ trace w' = trace w ++ retryPrefix prompt (retryDelay client) attempt k.
Proof.
  induction k as [|k IH]; intros attempt lastError w rest Hle Hkeep.
  { exists lastError, w. simpl. by rewrite Nat.add_0_r, app_nil_r. }
  change (S k + rest)%nat with (S (k + rest)). rewrite attemptLoop_S. cbv zeta.
  pose proof (Hkeep 0%nat ltac:(lia)) as H0. rewrite !Nat.add_0_r in H0.
  unfold keepsTrying in H0. unfold fetch at 1. cbn [fst].
  set (w1 := (fetch net prompt w).2).
  set (w2 := delay (retryDelay client * Z.of_nat attempt) w1).
  assert (Hlt : (attempt <? retryAttempts client)%nat = true)
    by (apply Nat.ltb_lt; lia).
  assert (Hne : (attempt =? retryAttempts client)%nat = false)
    by (apply Nat.eqb_neq; lia).
  assert (Hnext : forall le,
    exists lastError' w',
      attemptLoop client net prompt (k + rest) (S attempt) le w2
      = attemptLoop client net prompt rest (attempt + S k) lastError' w'
      /\ trace w' = trace w ++ retryPrefix prompt (retryDelay client) attempt (S k)).
  { intros le. destruct (IH (S attempt) le w2 rest) as (le' & w' & Heq & Ht).
    - lia.
    - intros i Hi. specialize (Hkeep (S i) ltac:(lia)).
      replace (S attempt + i)%nat with (attempt + S i)%nat by lia.
      replace (length (fetches (trace w2)) + i)%nat
        with (length (fetches (trace w)) + S i)%nat; [done|].
      unfold w2, w1. rewrite fetches_delay, fetches_fetch, length_app. simpl. lia.
    - exists le', w'. replace (attempt + S k)%nat with (S attempt + k)%nat by lia.
      split; [done|]. rewrite Ht. unfold w2, w1. cbn [delay trace].
      rewrite trace_fetch, <- !app_assoc. reflexivity. }
  destruct (tryBlock client attempt _) as [text| |message]; [done|apply Hnext|].
  apply negb_true_iff in H0. rewrite H0, Hlt, Hne, andb_true_r.
  destruct (mentionsTransport message); apply Hnext.
Qed.

(** X2. When the first [k] responses of a call keep the loop going
    (status 429, a network failure, a server error, a malformed body) and
    attempt [k + 1] still exists and gets a response with a text part, the
    call returns that text; it has sent exactly [k + 1] requests, with the
    backoffs [retryDelay * 1], ..., [retryDelay * k] between them. *)
Theorem generateContent_succeeds_after_retries client net prompt w k text :
  (k < retryAttempts client)%nat ->
  (forall i, (i < k)%nat ->
     keepsTrying client (S i)
       (outcome (net (length (fetches (trace w)) + i)%nat)) = true) ->
  tryBlock client (S k) (outcome (net (length (fetches (trace w)) + k)%nat))
  = Done text ->
  (generateContent client net prompt w).1 = Returned text
  /\ trace (generateContent client net prompt w).2
     = trace w ++ backoffTrace prompt (retryDelay client) 1 (S k).
Proof.
  intros Hk Hkeep Hdone. unfold generateContent.
  destruct (attemptLoop_keeps client net prompt k 1 None w
              (S (retryAttempts client - S k))) as (le & w' & Heq & Ht);
    [lia|exact Hkeep|].
  assert (E : attemptLoop client net prompt (retryAttempts client) 1 None w
              = attemptLoop client net prompt
                  (k + S (retryAttempts client - S k)) 1 None w)
    by (f_equal; lia).
  rewrite E, Heq. clear E Heq.
  rewrite attemptLoop_S. cbv zeta.
  assert (Hidx : length (fetches (trace w')) = (length (fetches (trace w)) + k)%nat).
  { rewrite Ht, fetches_app, length_app, fetches_retryPrefix. done. }
  assert (Hout : (fetch net prompt w').1
                 = outcome (net (length (fetches (trace w)) + k)%nat))
    by (unfold fetch; cbn [fst]; by rewrite Hidx).
  rewrite Hout. replace (1 + k)%nat with (S k) by lia. rewrite Hdone.
  split; [done|]. cbn [snd]. rewrite trace_fetch, Ht.
  pose proof (retryPrefix_backoff prompt (retryDelay client) k 1 0) as Hb.
  replace (k + 1)%nat with (S k) in Hb by lia.
  rewrite Hb, <- app_assoc. reflexivity.
Qed.

Lemma generateContent_succeeds_after_retries_witness :
  (2 < retryAttempts newGeminiAPIClient)%nat
  /\ (forall i, (i < 2)%nat ->
        keepsTrying newGeminiAPIClient (S i)
          (outcome (script [throttled; unreachable] (answer (lit "fine"))
                      (length (fetches (trace world0)) + i)%nat)) = true)
  /\ tryBlock newGeminiAPIClient 3
       (outcome (script [throttled; unreachable] (answer (lit "fine"))
                   (length (fetches (trace world0)) + 2)%nat))
     = Done (Some (lit "fine"))
  /\ (generateContent newGeminiAPIClient
        (script [throttled; unreachable] (answer (lit "fine")))
        (lit "p") world0).1 = Returned (Some (lit "fine"))
  /\ trace (generateContent newGeminiAPIClient
              (script [throttled; unreachable] (answer (lit "fine")))
              (lit "p") world0).2
     = trace world0
       ++ backoffTrace (lit "p") (retryDelay newGeminiAPIClient) 1 3.
Proof.
  assert (H1 : (2 < retryAttempts newGeminiAPIClient)%nat) by (simpl; lia).
  assert (H2 : forall i, (i < 2)%nat ->
            keepsTrying newGeminiAPIClient (S i)
              (outcome (script [throttled; unreachable] (answer (lit "fine"))
                          (length (fetches (trace world0)) + i)%nat)) = true).
  { intros [|[|i]] Hi; [reflexivity|reflexivity|lia]. }
  split; [exact H1|]. split; [exact H2|]. split; [reflexivity|].
  exact (generateContent_succeeds_after_retries newGeminiAPIClient
           (script [throttled; unreachable] (answer (lit "fine")))
           (lit "p") world0 2 (Some (lit "fine")) H1 H2 eq_refl).
Defined.

(** X3. When every response keeps the loop going, the call gives up after
    exactly [retryAttempts] requests: it throws "Analysis failed after n
    attempts: " followed by the message of the error of the last attempt,
    and no backoff follows the last request. *)
Theorem generateContent_gives_up_after_max_attempts client net prompt w :
  (1 <= retryAttempts client)%nat ->
  (forall i attempt, keepsTrying client attempt (outcome (net i)) = true) ->
  exists message,
    tryBlock client (retryAttempts client)
      (outcome (net (length (fetches (trace w))
                     + pred (retryAttempts client))%nat))
    = Raised message
    /\ (generateContent client net prompt w).1
       = Thrown (lit "Analysis failed after "
                 ++ decimal (N.of_nat (retryAttempts client))
                 ++ lit " attempts: " ++ message)
    /\ trace (generateContent client net prompt w).2
       = trace w
         ++ backoffTrace prompt (retryDelay client) 1 (retryAttempts client).
Proof.
  intros Hpos Hkeep. unfold generateContent.
  destruct (retryAttempts client) as [|k] eqn:HR; [lia|]. cbn [pred].
  destruct (attemptLoop_keeps client net prompt k 1 None w 1)
    as (le & w' & Heq & Ht); [lia|by intros; apply Hkeep|].
  assert (E : attemptLoop client net prompt (S k) 1 None w
              = attemptLoop client net prompt (k + 1) 1 None w)
    by (f_equal; lia).
  rewrite E, Heq. clear E Heq.
  rewrite attemptLoop_S. cbv zeta.
  assert (Hidx : length (fetches (trace w')) = (length (fetches (trace w)) + k)%nat).
  { rewrite Ht, fetches_app, length_app, fetches_retryPrefix. done. }
  assert (Hout : (fetch net prompt w').1
                 = outcome (net (length (fetches (trace w)) + k)%nat))
    by (unfold fetch; cbn [fst]; by rewrite Hidx).
  rewrite Hout. replace (1 + k)%nat with (S k) by lia.
  pose proof (Hkeep (length (fetches (trace w)) + k)%nat (S k)) as Hlast.
  unfold keepsTrying in Hlast. rewrite <- HR in *.
  destruct (tryBlock client (retryAttempts client) _) as [t| |message] eqn:Htry;
    [done| |].
  { apply tryBlock_again in Htry. lia. }
  exists message. split; [done|].
  apply negb_true_iff in Hlast.
  rewrite Hlast, Nat.ltb_irrefl, andb_false_r, Nat.eqb_refl.
  split; [done|]. cbn [snd]. rewrite trace_fetch, Ht.
  pose proof (retryPrefix_backoff prompt (retryDelay client) k 1 0) as Hb.
  replace (k + 1)%nat with (retryAttempts client) in Hb by lia.
  rewrite Hb, <- app_assoc. reflexivity.
Qed.

Lemma generateContent_gives_up_after_max_attempts_witness :
  (1 <= retryAttempts newGeminiAPIClient)%nat
  /\ (forall i attempt,
        keepsTrying newGeminiAPIClient attempt (outcome (always unreachable i))
        = true)
  /\ exists message,
       tryBlock newGeminiAPIClient (retryAttempts newGeminiAPIClient)
         (outcome (always unreachable
                     (length (fetches (trace world0))
                      + pred (retryAttempts newGeminiAPIClient))%nat))
       = Raised message
       /\ (generateContent newGeminiAPIClient (always unreachable)
             (lit "p") world0).1
          = Thrown (lit "Analysis failed after "
                    ++ decimal (N.of_nat (retryAttempts newGeminiAPIClient))
                    ++ lit " attempts: " ++ message)
       /\ trace (generateContent newGeminiAPIClient (always unreachable)
                   (lit "p") world0).2
          = trace world0
            ++ backoffTrace (lit "p") (retryDelay newGeminiAPIClient) 1
                 (retryAttempts newGeminiAPIClient).
Proof.
  assert (H1 : (1 <= retryAttempts newGeminiAPIClient)%nat) by (simpl; lia).
  assert (H2 : forall i attempt,
            keepsTrying newGeminiAPIClient attempt
              (outcome (always unreachable i)) = true)
    by (intros i attempt; reflexivity).
  split; [exact H1|]. split; [exact H2|].
  exact (generateContent_gives_up_after_max_attempts newGeminiAPIClient
           (always unreachable) (lit "p") world0 H1 H2).
Defined.

Example unreachable_three_requests :
  generateContent newGeminiAPIClient (always unreachable) (lit "p") world0
  = (Thrown (lit "Analysis failed after 3 attempts: Failed to fetch"),
     {| now := 1700000000000 + 30 + 1000 + 30 + 2000 + 30;
        trace := [EFetch (lit "p"); EDelay 1000; EFetch (lit "p"); EDelay 2000;
                  EFetch (lit "p")] |}).
Proof. vm_compute. reflexivity. Qed.

Lemma startsWith_app needle rest : startsWith needle (needle ++ rest) = true.
Proof.
  induction needle as [|c needle IH]; simpl; [by destruct rest|].
  by rewrite N.eqb_refl.
Qed.

Lemma includes_prefix needle rest : includes needle (needle ++ rest) = true.
Proof.
  destruct (needle ++ rest) eqn:E; simpl; rewrite <- E, startsWith_app; done.
Qed.

Lemma invalidRequestMessage_not_retried errorMessage :
  isNotRetried (invalidRequestMessage errorMessage) = true.
Proof.
  unfold isNotRetried, invalidRequestMessage.
  set (tail := default _ errorMessage).
  change (lit "Invalid request: " ++ tail)
    with (lit "Invalid request" ++ (lit ": " ++ tail)).
  rewrite includes_prefix. by rewrite orb_true_r.
Qed.

(** An error that is not retried ends the call at once. *)
Lemma attemptLoop_thrown_on client net prompt remaining attempt lastError w message :
  tryBlock client attempt (fetch net prompt w).1 = Raised message ->
  mentionsTransport message && (attempt <? retryAttempts client)%nat = false ->
  isNotRetried message = true ->
  attemptLoop client net prompt (S remaining) attempt lastError w
  = (Thrown message, (fetch net prompt w).2).
Proof.
  intros Htry Ht Hn. rewrite attemptLoop_S. cbv zeta. by rewrite Htry, Ht, Hn.
Qed.



(** X5. A response with status 400 whose body is not [null] ends the call
    at that attempt with "Invalid request: " followed by the message of the
    service (or by "Bad request" when there is none), after one request,
    provided that message mentions neither "fetch" nor "network". *)
Theorem generateContent_bad_request client net prompt w statusText errorMessage :
  (1 <= retryAttempts client)%nat ->
  outcome (net (length (fetches (trace w)))) = NotOk 400 statusText errorMessage ->
  mentionsTransport (invalidRequestMessage errorMessage) = false ->
  generateContent client net prompt w
  = (Thrown (invalidRequestMessage errorMessage), (fetch net prompt w).2)
  /\ trace (generateContent client net prompt w).2 = trace w ++ [EFetch prompt].
Proof.
  intros Hpos Hout Hquiet. unfold generateContent.
  destruct (retryAttempts client) as [|k] eqn:HR; [lia|].
  rewrite (attemptLoop_thrown_on client net prompt k 1 None w
             (invalidRequestMessage errorMessage)).
  - done.
  - unfold fetch. cbn [fst]. rewrite Hout. reflexivity.
  - by rewrite Hquiet.
  - apply invalidRequestMessage_not_retried.
Qed.

Lemma generateContent_bad_request_witness :
  (1 <= retryAttempts newGeminiAPIClient)%nat
  /\ outcome (always (malformed "prompt is empty")
                (length (fetches (trace world0))))
     = NotOk 400 (lit "Bad Request") (Some (lit "prompt is empty"))
  /\ mentionsTransport (invalidRequestMessage (Some (lit "prompt is empty")))
     = false
  /\ generateContent newGeminiAPIClient (always (malformed "prompt is empty"))
       (lit "p") world0
     = (Thrown (invalidRequestMessage (Some (lit "prompt is empty"))),
        (fetch (always (malformed "prompt is empty")) (lit "p") world0).2)
  /\ trace (generateContent newGeminiAPIClient
              (always (malformed "prompt is empty")) (lit "p") world0).2
     = trace world0 ++ [EFetch (lit "p")].
Proof.
  assert (H1 : (1 <= retryAttempts newGeminiAPIClient)%nat) by (simpl; lia).
  split; [exact H1|]. split; [reflexivity|]. split; [reflexivity|].
  exact (generateContent_bad_request newGeminiAPIClient
           (always (malformed "prompt is empty")) (lit "p") world0
           (lit "Bad Request") (Some (lit "prompt is empty")) H1 eq_refl eq_refl).
Defined.

Example malformed_one_request :
  generateContent newGeminiAPIClient (always (malformed "prompt is empty"))
    (lit "p") world0
  = (Thrown (lit "Invalid request: prompt is empty"),
     {| now := 1700000000000 + 80; trace := [EFetch (lit "p")] |}).
Proof. vm_compute. reflexivity. Qed.

(** X6. A response with status 400 whose message mentions "fetch" or
    "network" is taken for a network failure: while attempts remain it is
    not thrown but followed by the backoff and the next attempt. *)
Theorem generateContent_bad_request_taken_for_network
    client net prompt w statusText errorMessage remaining attempt lastError :
  outcome (net (length (fetches (trace w)))) = NotOk 400 statusText errorMessage ->
  mentionsTransport (invalidRequestMessage errorMessage) = true ->
  (attempt < retryAttempts client)%nat ->
  attemptLoop client net prompt (S remaining) attempt lastError w
  = attemptLoop client net prompt remaining (S attempt)
      (Some (invalidRequestMessage errorMessage))
      (delay (retryDelay client * Z.of_nat attempt) (fetch net prompt w).2).
Proof.
  intros Hout Hloud Hlt. rewrite attemptLoop_S. cbv zeta.
  unfold fetch at 1. cbn [fst]. rewrite Hout. cbn [tryBlock].
  change (400 =? 429)%N with false. change (400 =? 400)%N with true. cbv iota.
  fold (invalidRequestMessage errorMessage). rewrite Hloud.
  apply Nat.ltb_lt in Hlt. by rewrite Hlt.
Qed.

Lemma generateContent_bad_request_taken_for_network_witness :
  outcome (script [malformed "network policy violated"] (answer (lit "fine"))
             (length (fetches (trace world0))))
  = NotOk 400 (lit "Bad Request") (Some (lit "network policy violated"))
  /\ mentionsTransport
       (invalidRequestMessage (Some (lit "network policy violated"))) = true
  /\ (1 < retryAttempts newGeminiAPIClient)%nat
  /\ attemptLoop newGeminiAPIClient
       (script [malformed "network policy violated"] (answer (lit "fine")))
       (lit "p") 3 1 None world0
     = attemptLoop newGeminiAPIClient
         (script [malformed "network policy violated"] (answer (lit "fine")))
         (lit "p") 2 2
         (Some (invalidRequestMessage (Some (lit "network policy violated"))))
         (delay (retryDelay newGeminiAPIClient * Z.of_nat 1)
            (fetch (script [malformed "network policy violated"]
                      (answer (lit "fine"))) (lit "p") world0).2).
Proof.
  assert (H3 : (1 < retryAttempts newGeminiAPIClient)%nat) by (simpl; lia).
  split; [reflexivity|]. split; [reflexivity|]. split; [exact H3|].
  exact (generateContent_bad_request_taken_for_network newGeminiAPIClient
           (script [malformed "network policy violated"] (answer (lit "fine")))
           (lit "p") world0 (lit "Bad Request")
           (Some (lit "network policy violated")) 2 1 None eq_refl eq_refl H3).
Defined.

Example malformed_retried :
  generateContent newGeminiAPIClient
    (script [malformed "network policy violated"] (answer (lit "fine")))
    (lit "p") world0
  = (Returned (Some (lit "fine")),
     {| now := 1700000000000 + 80 + 1000 + 250;
        trace := [EFetch (lit "p"); EDelay 1000; EFetch (lit "p")] |}).
Proof. vm_compute. reflexivity. Qed.

(** X24. A response with status 400 whose body is [null] does not give
    "Invalid request": reading the error of the body throws a TypeError,
    which the loop treats like any other failure.  While attempts remain
    it is followed by the backoff and the next attempt; at the last
    attempt the call gives up with the error that wraps the TypeError. *)
Theorem generateContent_bad_request_null_body
    client net prompt w statusText remaining attempt lastError :
  outcome (net (length (fetches (trace w)))) = NotOkNull 400 statusText ->
  (attempt <= retryAttempts client)%nat ->
  attemptLoop client net prompt (S remaining) attempt lastError w
  = if (attempt =? retryAttempts client)%nat then
      (Thrown (lit "Analysis failed after "
               ++ decimal (N.of_nat (retryAttempts client))
               ++ lit " attempts: " ++ MSG_NULL "error"),
       (fetch net prompt w).2)
    else
      attemptLoop client net prompt remaining (S attempt)
        (Some (MSG_NULL "error"))
        (delay (retryDelay client * Z.of_nat attempt) (fetch net prompt w).2).
Proof.
  intros Hout Hle. rewrite attemptLoop_S. cbv zeta.
  unfold fetch at 1. cbn [fst]. rewrite Hout. cbn [tryBlock].
  change (400 =? 429)%N with false. change (400 =? 400)%N with true. cbv iota.
  change (mentionsTransport (MSG_NULL "error")) with false.
  change (isNotRetried (MSG_NULL "error")) with false. cbn [andb].
  by destruct (attempt =? retryAttempts client)%nat.
Qed.

Lemma generateContent_bad_request_null_body_witness :
  outcome (script [nullBody] (answer (lit "fine"))
             (length (fetches (trace world0))))
  = NotOkNull 400 (lit "Bad Request")
  /\ (1 <= retryAttempts newGeminiAPIClient)%nat
  /\ attemptLoop newGeminiAPIClient (script [nullBody] (answer (lit "fine")))
       (lit "p") 3 1 None world0
     = if (1 =? retryAttempts newGeminiAPIClient)%nat then
         (Thrown (lit "Analysis failed after "
                  ++ decimal (N.of_nat (retryAttempts newGeminiAPIClient))
                  ++ lit " attempts: " ++ MSG_NULL "error"),
          (fetch (script [nullBody] (answer (lit "fine"))) (lit "p") world0).2)
       else
         attemptLoop newGeminiAPIClient
           (script [nullBody] (answer (lit "fine"))) (lit "p") 2 2
           (Some (MSG_NULL "error"))
           (delay (retryDelay newGeminiAPIClient * Z.of_nat 1)
              (fetch (script [nullBody] (answer (lit "fine")))
                 (lit "p") world0).2).
Proof.
  assert (H2 : (1 <= retryAttempts newGeminiAPIClient)%nat) by (simpl; lia).
  split; [reflexivity|]. split; [exact H2|].
  exact (generateContent_bad_request_null_body newGeminiAPIClient
           (script [nullBody] (answer (lit "fine"))) (lit "p") world0
           (lit "Bad Request") 2 1 None eq_refl H2).
Defined.

Example null_body_retried :
  generateContent newGeminiAPIClient (script [nullBody] (answer (lit "fine")))
    (lit "p") world0
  = (Returned (Some (lit "fine")),
     {| now := 1700000000000 + 80 + 1000 + 250;
        trace := [EFetch (lit "p"); EDelay 1000; EFetch (lit "p")] |})
  /\ generateContent newGeminiAPIClient (always nullBody) (lit "p") world0
     = (Thrown (lit "Analysis failed after 3 attempts: Cannot read properties of null (reading 'error')"),
        {| now := 1700000000000 + 80 + 1000 + 80 + 2000 + 80;
           trace := [EFetch (lit "p"); EDelay 1000; EFetch (lit "p");
                     EDelay 2000; EFetch (lit "p")] |}).
Proof. vm_compute. split; reflexivity. Qed.

(** ** The rate limiter *)

Lemma foldl_min x r :
  foldl Z.min x r <= x
  /\ (forall t, t ∈ r -> foldl Z.min x r <= t)
  /\ (foldl Z.min x r = x \/ foldl Z.min x r ∈ r).
Proof.
  revert x. induction r as [|y r IH]; intros x; simpl.
  { split; [lia|]. split; [|by left]. intros t Ht. by apply elem_of_nil in Ht. }
  destruct (IH (Z.min x y)) as (H1 & H2 & H3).
  split; [lia|]. split.
  - intros t [->|Ht]%elem_of_cons; [lia|auto].
  - destruct H3 as [H3|H3]; [|right; by apply list_elem_of_further].
    rewrite H3. destruct (Z.min_spec x y) as [[_ E]|[_ E]]; rewrite E.
    + by left.
    + right. apply list_elem_of_here.
Qed.

Lemma minimum_spec l :
  l <> [] -> minimum l ∈ l /\ forall t, t ∈ l -> minimum l <= t.
Proof.
  destruct l as [|x r]; [done|]. intros _. unfold minimum.
  destruct (foldl_min x r) as (H1 & H2 & H3). split.
  - destruct H3 as [-> |H3]; [apply list_elem_of_here|by apply list_elem_of_further].
  - intros t [->|Ht]%elem_of_cons; auto.
Qed.

Lemma foldl_max x r :
  x <= foldl Z.max x r /\ (forall t, t ∈ r -> t <= foldl Z.max x r).
Proof.
  revert x. induction r as [|y r IH]; intros x; simpl.
  { split; [lia|]. intros t Ht. by apply elem_of_nil in Ht. }
  destruct (IH (Z.max x y)) as (H1 & H2). split; [lia|].
  intros t [->|Ht]%elem_of_cons; [lia|auto].
Qed.

Lemma maximum_spec l t : t ∈ l -> t <= maximum l.
Proof.
  destruct l as [|x r]; [by intros ?%elem_of_nil|]. unfold maximum.
  destruct (foldl_max x r) as (H1 & H2).
  intros [->|Ht]%elem_of_cons; auto.
Qed.

Lemma elem_of_inWindow time recorded t :
  t ∈ inWindow time recorded <-> t ∈ recorded /\ time - t < 60000.
Proof.
  unfold inWindow. rewrite !list_elem_of_In, List.filter_In, Z.ltb_lt. done.
Qed.

(** What [waitIfNeeded] returns, with its two waits named. *)
Lemma waitIfNeeded_unfold rl w :
  exists wait1 wait2,
    0 <= wait1 /\ 0 <= wait2
    /\ now (waitIfNeeded rl w).2 = now w + wait1 + wait2
    /\ requests (waitIfNeeded rl w).1
       = inWindow (now w) (requests rl) ++ [now (waitIfNeeded rl w).2]
    /\ requestsPerMinute (waitIfNeeded rl w).1 = requestsPerMinute rl
    /\ minInterval (waitIfNeeded rl w).1 = minInterval rl
    /\ ((requestsPerMinute rl <= length (inWindow (now w) (requests rl)))%nat ->
        0 < 60000 - (now w - minimum (inWindow (now w) (requests rl))) + 100 ->
        wait1 = 60000 - (now w - minimum (inWindow (now w) (requests rl))) + 100)
    /\ (inWindow (now w) (requests rl) <> [] ->
        minInterval rl
        <= now w - maximum (inWindow (now w) (requests rl)) + wait2).
Proof.
  unfold waitIfNeeded. fold (inWindow (now w) (requests rl)).
  set (recent := inWindow (now w) (requests rl)).
  cbn [fst snd requests requestsPerMinute minInterval].
  set (w1 := if (requestsPerMinute rl <=? length recent)%nat then _ else _).
  set (wait1 := now w1 - now w).
  assert (H1 : 0 <= wait1
               /\ ((requestsPerMinute rl <= length recent)%nat ->
                   0 < 60000 - (now w - minimum recent) + 100 ->
                   wait1 = 60000 - (now w - minimum recent) + 100)).
  { unfold wait1, w1. destruct (Nat.leb_spec (requestsPerMinute rl) (length recent)).
    - destruct (Z.ltb_spec 0 (60000 - (now w - minimum recent) + 100));
        cbn [delay now]; split; intros; lia.
    - split; intros; lia. }
  destruct H1 as [Hw1 Hw1'].
  set (w2 := if (0 <? length recent)%nat then _ else _).
  set (wait2 := now w2 - now w1).
  assert (H2 : 0 <= wait2
               /\ (recent <> [] ->
                   minInterval rl <= now w - maximum recent + wait2)).
  { unfold wait2, w2. destruct recent as [|x r] eqn:E.
    - cbn [length Nat.ltb Nat.leb]. split; [lia|done].
    - change (0 <? length (x :: r))%nat with true. cbv iota. rewrite <- E.
      destruct (Z.ltb_spec (now w - maximum recent) (minInterval rl));
        cbn [delay now]; split; intros; lia. }
  destruct H2 as [Hw2 Hw2'].
  exists wait1, wait2. repeat split; auto; unfold wait1, wait2; lia.
Qed.

(** X7. [waitIfNeeded] never turns the clock back, records the time at
    which it lets the caller go as the newest request, and lets the caller
    go no sooner than [minInterval] after every request recorded within
    the last minute and a minute after every older one. *)
Theorem waitIfNeeded_spacing rl w :
  let after := waitIfNeeded rl w in
  now w <= now after.2
  /\ last (requests after.1) = Some (now after.2)
  /\ (forall t, t ∈ requests rl ->
        Z.min (minInterval rl) 60000 <= now after.2 - t)
  /\ fetches (trace after.2) = fetches (trace w).
Proof.
  cbv zeta.
  destruct (waitIfNeeded_unfold rl w)
    as (wait1 & wait2 & H1 & H2 & Hnow & Hreq & _ & _ & _ & Hgap).
  split; [lia|]. split; [by rewrite Hreq, last_snoc|].
  split; [|apply waitIfNeeded_trace].
  intros t Ht.
  destruct (Z.lt_ge_cases (now w - t) 60000) as [Hin|Hout]; [|lia].
  assert (Hrecent : t ∈ inWindow (now w) (requests rl))
    by (by apply elem_of_inWindow).
  pose proof (maximum_spec _ _ Hrecent) as Hmax.
  assert (Hne : inWindow (now w) (requests rl) <> [])
    by (intros E; rewrite E in Hrecent; by apply elem_of_nil in Hrecent).
  specialize (Hgap Hne). lia.
Qed.

Lemma filter_length_lt {A} (f : A -> bool) l x :
  x ∈ l -> f x = false -> (length (List.filter f l) < length l)%nat.
Proof.
  intros Hx Hf. apply filter_shorter. intros E.
  apply list_elem_of_In in Hx. rewrite <- E in Hx.
  apply List.filter_In in Hx as [_ Hx]. congruence.
Qed.

Lemma inWindow_later time time' recorded :
  time <= time' ->
  (length (inWindow time' recorded) <= length (inWindow time recorded))%nat.
Proof.
  intros Hle. unfold inWindow. induction recorded as [|t r IH]; simpl; [lia|].
  destruct (Z.ltb_spec (time' - t) 60000), (Z.ltb_spec (time - t) 60000);
    simpl; lia.
Qed.

(** X8. When at most [requestsPerMinute] recorded requests lie within the
    minute before a call of [waitIfNeeded], then at the time the call lets
    the caller go, and at every later time, at most [requestsPerMinute]
    recorded requests lie within the minute before, the new one
    included. *)
Theorem waitIfNeeded_window rl w time :
  (1 <= requestsPerMinute rl)%nat ->
  (length (inWindow (now w) (requests rl)) <= requestsPerMinute rl)%nat ->
  now (waitIfNeeded rl w).2 <= time ->
  (length (inWindow time (requests (waitIfNeeded rl w).1))
   <= requestsPerMinute (waitIfNeeded rl w).1)%nat.
Proof.
  intros Hpos Hinv Htime.
  destruct (waitIfNeeded_unfold rl w)
    as (wait1 & wait2 & H1 & H2 & Hnow & Hreq & Hrpm & _ & Hfull & _).
  rewrite Hreq, Hrpm. set (recent := inWindow (now w) (requests rl)) in *.
  unfold inWindow at 1. rewrite List.filter_app, length_app.
  fold (inWindow time recent).
  assert (Hone : (length (List.filter (fun t => (time - t <? 60000)%Z)
                            [now (waitIfNeeded rl w).2]) <= 1)%nat)
    by (simpl; destruct (_ <? _); simpl; lia).
  pose proof (List.filter_length_le (fun t => time - t <? 60000) recent) as Hle.
  fold (inWindow time recent) in Hle.
  destruct (Nat.lt_ge_cases (length recent) (requestsPerMinute rl)) as [Hlt|Hge];
    [lia|].
  (* the window is full: the oldest request has left it by now *)
  assert (Hne : recent <> []) by (intros E; rewrite E in Hge; simpl in Hge; lia).
  destruct (minimum_spec recent Hne) as [Hmin _].
  pose proof Hmin as Hmin'. apply elem_of_inWindow in Hmin' as [_ Hmin'].
  assert (Hwait : wait1 = 60000 - (now w - minimum recent) + 100)
    by (apply Hfull; lia).
  assert (Hgone : (length (inWindow time recent) < length recent)%nat).
  { apply (filter_length_lt _ _ (minimum recent)); [done|].
    apply Z.ltb_ge. lia. }
  lia.
Qed.

Lemma waitIfNeeded_window_witness :
  (1 <= requestsPerMinute fullLimiter)%nat
  /\ (length (inWindow (now fullTime) (requests fullLimiter))
      <= requestsPerMinute fullLimiter)%nat
  /\ now (waitIfNeeded fullLimiter fullTime).2 <= 82100
  /\ (length (inWindow 82100 (requests (waitIfNeeded fullLimiter fullTime).1))
      <= requestsPerMinute (waitIfNeeded fullLimiter fullTime).1)%nat.
Proof.
  assert (H1 : (1 <= requestsPerMinute fullLimiter)%nat) by (simpl; lia).
  assert (H2 : (length (inWindow (now fullTime) (requests fullLimiter))
                <= requestsPerMinute fullLimiter)%nat) by (simpl; lia).
  assert (H3 : now (waitIfNeeded fullLimiter fullTime).2 <= 82100)
    by (vm_compute; discriminate).
  split; [exact H1|]. split; [exact H2|]. split; [exact H3|].
  exact (waitIfNeeded_window fullLimiter fullTime 82100 H1 H2 H3).
Defined.

(** The window of [fullLimiter] is full: both recorded requests
    lie within the minute before the call, so the caller is held until the
    older one has left the window, and then for the minimal interval; at
    the time it is let go the window holds two requests again, the new one
    included. *)
Example waitIfNeeded_full_window :
  inWindow (now fullTime) (requests fullLimiter) = [1000; 31000]
  /\ waitIfNeeded fullLimiter fullTime
     = ({| requestsPerMinute := 2; minInterval := 30000;
           requests := [1000; 31000; 82100] |},
        {| now := 82100; trace := [EDelay 21100; EDelay 21000] |})
  /\ inWindow 82100 (requests (waitIfNeeded fullLimiter fullTime).1)
     = [31000; 82100].
Proof. vm_compute. repeat split; reflexivity. Qed.

(** With nothing recorded there is no wait. *)
Example waitIfNeeded_first_request :
  waitIfNeeded newRateLimiter world0
  = ({| requestsPerMinute := 60; minInterval := 1000;
        requests := [1700000000000] |}, world0).
Proof. vm_compute. reflexivity. Qed.

(** ** The keys of the cache *)

Lemma digit36_alnum d :
  0 <= d < 36 -> isDigit (digit36 d) || isLower (digit36 d) = true.
Proof.
  intros Hd. unfold digit36, isDigit, isLower.
  destruct (Z.ltb_spec d 10).
  - apply orb_true_iff. left. apply andb_true_iff. split; apply N.leb_le; lia.
  - apply orb_true_iff. right. apply andb_true_iff. split; apply N.leb_le; lia.
Qed.

Lemma toString36_from_alnum fuel : forall n acc,
  forallb (fun c => isDigit c || isLower c) acc = true ->
  forallb (fun c => isDigit c || isLower c) (toString36_from fuel n acc) = true.
Proof.
  induction fuel as [|fuel IH]; intros n acc Hacc; simpl; [done|].
  assert (Hnew : forallb (fun c => isDigit c || isLower c)
                   (digit36 (n mod 36) :: acc) = true).
  { simpl. rewrite Hacc, andb_true_r. apply digit36_alnum.
    apply Z.mod_pos_bound. lia. }
  destruct (n / 36 =? 0); [done|]. by apply IH.
Qed.

(** The hash is written with digits and small letters only. *)
Lemma simpleHash_alnum text :
  forallb (fun c => isDigit c || isLower c) (simpleHash text) = true.
Proof. unfold simpleHash, toString36. by apply toString36_from_alnum. Qed.

Lemma app_separator_inj (sep : N) h1 h2 j1 j2 :
  sep ∉ h1 -> sep ∉ h2 -> h1 ++ sep :: j1 = h2 ++ sep :: j2 ->
  h1 = h2 /\ j1 = j2.
Proof.
  revert h2. induction h1 as [|c h1 IH]; intros [|d h2] H1 H2 E; simpl in E.
  - by simplify_eq.
  - simplify_eq. exfalso. apply H2. apply list_elem_of_here.
  - simplify_eq. exfalso. apply H1. apply list_elem_of_here.
  - simplify_eq. destruct (IH h2) as [-> ->]; [| |done|done].
    + intros Hin. apply H1. by apply list_elem_of_further.
    + intros Hin. apply H2. by apply list_elem_of_further.
Qed.

Lemma split_one (sep : N) l :
  forallb (fun c => negb (c =? sep)%N) l = true -> split sep l = [l].
Proof.
  induction l as [|c l IH]; simpl; [done|].
  intros [Hc Hl]%andb_true_iff. apply negb_true_iff in Hc.
  rewrite Hc, IH by done. done.
Qed.

Lemma split_first (sep : N) l s :
  forallb (fun c => negb (c =? sep)%N) l = true ->
  split sep (l ++ sep :: s) = l :: split sep s.
Proof.
  induction l as [|c l IH]; simpl.
  { by rewrite N.eqb_refl. }
  intros [Hc Hl]%andb_true_iff. apply negb_true_iff in Hc.
  rewrite Hc, IH by done. done.
Qed.

(** Joining with a separator that no part holds loses nothing. *)
Lemma split_join_sep (sep : N) ls :
  ls <> [] ->
  Forall (fun l => forallb (fun c => negb (c =? sep)%N) l = true) ls ->
  split sep (join [sep] ls) = ls.
Proof.
  induction ls as [|p ls IH]; [done|]. intros _ Hall.
  apply Forall_cons in Hall as [Hp Hls].
  destruct ls as [|q ls]; [by apply split_one|].
  change (join [sep] (p :: q :: ls)) with (p ++ sep :: join [sep] (q :: ls)).
  rewrite split_first by done. f_equal. by apply IH.
Qed.

Lemma join_plain_inj ls1 ls2 :
  Forall (fun l => isPlainName l = true) ls1 ->
  Forall (fun l => isPlainName l = true) ls2 ->
  join (lit ",") ls1 = join (lit ",") ls2 -> ls1 = ls2.
Proof.
  intros H1 H2 E.
  assert (Hsplit : forall ls, Forall (fun l => isPlainName l = true) ls ->
            ls <> [] -> split 44 (join (lit ",") ls) = ls
                        /\ join (lit ",") ls <> []).
  { intros ls Hls Hne. split.
    - apply (split_join_sep 44); [done|]. eapply Forall_impl; [exact Hls|].
      simpl. unfold isPlainName. by intros l [_ ?]%andb_true_iff.
    - destruct ls as [|p ls]; [done|]. apply Forall_cons in Hls as [Hp _].
      unfold isPlainName in Hp. apply andb_true_iff in Hp as [Hp _].
      destruct p; [done|]. by destruct ls. }
  destruct ls1 as [|p1 ls1], ls2 as [|p2 ls2]; [done| | |].
  - destruct (Hsplit _ H2) as [_ Hne]; [done|]. by rewrite <- E in Hne.
  - destruct (Hsplit _ H1) as [_ Hne]; [done|]. by rewrite E in Hne.
  - destruct (Hsplit _ H1) as [S1 _]; [done|].
    destruct (Hsplit _ H2) as [S2 _]; [done|]. congruence.
Qed.

(** X9. For module names that are not empty and hold no comma, two
    requests have the same cache key exactly when their texts have the same
    hash and their module lists are permutations of each other. *)
Theorem generateCacheKey_same_iff text1 text2 mods1 mods2 :
  forallb isPlainName mods1 = true ->
  forallb isPlainName mods2 = true ->
  (generateCacheKey text1 mods1).1 = (generateCacheKey text2 mods2).1
  <-> simpleHash text1 = simpleHash text2 /\ mods1 ≡ₚ mods2.
Proof.
  intros Hp1 Hp2. unfold generateCacheKey. cbn [fst]. split.
  - intros E.
    assert (Hno : forall text, 95%N ∉ simpleHash text).
    { intros text Hin. pose proof (simpleHash_alnum text) as Ha.
      rewrite forallb_forall in Ha. apply list_elem_of_In, Ha in Hin.
      discriminate Hin. }
    change (lit "_" ++ ?x) with (95%N :: x) in E.
    apply app_separator_inj in E as [Hh Hj]; [|apply Hno|apply Hno].
    split; [done|].
    assert (Hplain : forall mods, forallb isPlainName mods = true ->
              Forall (fun l => isPlainName l = true) (sort mods)).
    { intros mods Hm. apply Forall_forall. intros m Hin.
      rewrite elem_of_sort in Hin. rewrite forallb_forall in Hm.
      by apply Hm, list_elem_of_In. }
    apply join_plain_inj in Hj; [|by apply Hplain|by apply Hplain].
    by rewrite <- (sort_Permutation mods1), <- (sort_Permutation mods2), Hj.
  - intros [-> Hperm]. by rewrite (sort_perm _ _ Hperm).
Qed.

Lemma generateCacheKey_same_iff_witness :
  forallb isPlainName [lit "vocabulary"; lit "grammar"] = true
  /\ forallb isPlainName [lit "grammar"; lit "vocabulary"] = true
  /\ ((generateCacheKey (lit "Aa") [lit "vocabulary"; lit "grammar"]).1
      = (generateCacheKey (lit "BB") [lit "grammar"; lit "vocabulary"]).1
      <-> simpleHash (lit "Aa") = simpleHash (lit "BB")
          /\ [lit "vocabulary"; lit "grammar"]
             ≡ₚ [lit "grammar"; lit "vocabulary"]).
Proof.
  split; [reflexivity|]. split; [reflexivity|].
  exact (generateCacheKey_same_iff (lit "Aa") (lit "BB")
           [lit "vocabulary"; lit "grammar"] [lit "grammar"; lit "vocabulary"]
           eq_refl eq_refl).
Defined.

Example hash_collision : simpleHash (lit "Aa") = simpleHash (lit "BB").
Proof. reflexivity. Qed.

(** X10. The cache tells texts apart by their hash only.  After a call
    for a valid text and categories of the enumeration has returned, a
    call for ANOTHER valid text with the same hash and the same categories
    returns the report of the first text (its [text] property is the first
    text when that call computed it), and sends no request. *)
Theorem analyzeText_same_hash_same_report
    prompts client net e w w2 text1 text2 opts opts2 :
  validText text1 -> validText text2 ->
  simpleHash text1 = simpleHash text2 ->
  forallb isCategory (requested opts) = true ->
  requested opts ≡ₚ requested opts2 ->
  let first := analyzeText prompts client net e w text1 opts in
  exists r,
    first.1.1 = Returned r
    /\ analyzeText prompts client net first.1.2 w2 text2 opts2
       = (Returned r, first.1.2, w2)
    /\ (cache e !! (generateCacheKey text1 (requested opts)).1 = None ->
        r !! lit "text" = Some (VString text1)).
Proof.
  intros Hv1 Hv2 Hhash Hcat Hperm first.
  pose proof (categories_not_text _ Hcat) as Hnot.
  destruct first as [[res e1] w1] eqn:Hfirst. cbn [fst snd].
  assert (Hret : exists r, res = Returned r).
  { subst first. rewrite (analyzeText_valid _ _ _ _ _ _ _ Hv1) in Hfirst.
    destruct (cache e !! _); simplify_eq; eauto. }
  destruct Hret as [r ->]. exists r. split; [done|].
  pose proof (analyzeText_stored _ _ _ _ _ _ _ _ _ _ Hnot Hfirst) as Hstored.
  split.
  - apply analyzeText_hit; [done|].
    assert (Hkey : (generateCacheKey text2 (requested opts2)).1
                   = (generateCacheKey text1 (requested opts)).1).
    { unfold generateCacheKey. cbn [fst]. by rewrite Hhash, (sort_perm _ _ Hperm). }
    by rewrite Hkey.
  - intros Hmiss. subst first.
    rewrite (analyzeText_valid _ _ _ _ _ _ _ Hv1), Hmiss in Hfirst.
    simplify_eq. by apply finalResults_text.
Qed.

Lemma analyzeText_same_hash_same_report_witness :
  validText (lit "Aa") /\ validText (lit "BB")
  /\ simpleHash (lit "Aa") = simpleHash (lit "BB")
  /\ forallb isCategory (requested (request ["grammar"] false)) = true
  /\ requested (request ["grammar"] false) ≡ₚ requested (request ["grammar"] false)
  /\ let first :=
       analyzeText sourcePrompts newGeminiAPIClient (always (answer (lit "fine")))
         newEngine world0 (lit "Aa") (request ["grammar"] false) in
     exists r,
       first.1.1 = Returned r
       /\ analyzeText sourcePrompts newGeminiAPIClient
            (always (answer (lit "fine"))) first.1.2 world0 (lit "BB")
            (request ["grammar"] false)
          = (Returned r, first.1.2, world0)
       /\ (cache newEngine
             !! (generateCacheKey (lit "Aa")
                   (requested (request ["grammar"] false))).1 = None ->
           r !! lit "text" = Some (VString (lit "Aa"))).
Proof.
  assert (H1 : validText (lit "Aa")) by valid_text.
  assert (H2 : validText (lit "BB")) by valid_text.
  assert (H3 : simpleHash (lit "Aa") = simpleHash (lit "BB")) by reflexivity.
  assert (H4 : forallb isCategory (requested (request ["grammar"] false)) = true)
    by reflexivity.
  assert (H5 : requested (request ["grammar"] false)
               ≡ₚ requested (request ["grammar"] false)) by reflexivity.
  split; [exact H1|]. split; [exact H2|]. split; [exact H3|].
  split; [exact H4|]. split; [exact H5|].
  exact (analyzeText_same_hash_same_report sourcePrompts newGeminiAPIClient
           (always (answer (lit "fine"))) newEngine world0 world0
           (lit "Aa") (lit "BB") (request ["grammar"] false)
           (request ["grammar"] false) H1 H2 H3 H4 H5).
Defined.

(** ** What a call does to the cache and to the endpoint *)

(** X11. [analyzeText] never removes or replaces an entry of the cache:
    whatever the text, the options and the endpoint, every entry of the
    cache before the call is there, unchanged, after it. *)
Theorem analyzeText_keeps_cache_entries
    prompts client net e w text opts key stored :
  cache e !! key = Some stored ->
  cache (analyzeText prompts client net e w text opts).1.2 !! key = Some stored.
Proof.
  intros Hkey. unfold analyzeText.
  destruct (length (trim text) =? 0)%nat; [done|].
  destruct (50000 <? Z.of_nat (length text)); [done|].
  destruct (generateCacheKey text (requested opts)) as [cacheKey mods].
  destruct (cache e !! cacheKey) eqn:Hc; [done|]. cbn [fst snd cache].
  destruct (someWithoutError _); [|done].
  rewrite lookup_insert_ne; [done|]. intros ->. congruence.
Qed.

Lemma analyzeText_keeps_cache_entries_witness :
  cache deniedCall.1.2 !! deniedKey = Some deniedReport
  /\ cache (analyzeText sourcePrompts newGeminiAPIClient
              (always (answer (lit "fine"))) deniedCall.1.2 world0
              (lit "Another text") (request ["content"] false)).1.2
       !! deniedKey = Some deniedReport.
Proof.
  assert (H1 : cache deniedCall.1.2 !! deniedKey = Some deniedReport)
    by (vm_compute; reflexivity).
  split; [exact H1|].
  exact (analyzeText_keeps_cache_entries sourcePrompts newGeminiAPIClient
           (always (answer (lit "fine"))) deniedCall.1.2 world0
           (lit "Another text") (request ["content"] false)
           deniedKey deniedReport H1).
Defined.

Lemma length_attempts {A} (f : jsstring -> A) bound mods : forall ks,
  Forall (fun k => (k <= bound)%nat /\ (0 < bound -> 0 < k)%nat) ks ->
  (length (concat (zip_with (fun m k => replicate k (f m)) mods ks))
   <= length mods * bound)%nat.
Proof.
  induction mods as [|m mods IH]; intros [|k ks] Hks; simpl; try lia.
  apply Forall_cons in Hks as [[Hk _] Hks].
  rewrite length_app, length_replicate. specialize (IH ks Hks). lia.
Qed.

(** X12. A call of [analyzeText] sends at most [retryAttempts] requests
    for each requested module, whatever the endpoint answers. *)
Theorem analyzeText_request_bound prompts client net e w text opts :
  (length (fetches (trace (analyzeText prompts client net e w text opts).2))
   <= length (fetches (trace w))
      + length (requested opts) * retryAttempts client)%nat.
Proof.
  unfold analyzeText.
  destruct (length (trim text) =? 0)%nat; [cbn [snd]; lia|].
  destruct (50000 <? Z.of_nat (length text)); [cbn [snd]; lia|].
  unfold generateCacheKey.
  destruct (cache e !! _); [cbn [snd]; lia|]. cbn [snd].
  destruct (analyzeModules_fetches prompts client net text (onProgress opts)
              (length (sort (requested opts))) (sort (requested opts))
              {| results := initialResults text w; completedModules := 0;
                 limiter := rateLimiter e; outside := w |})
    as (ks & Hlen & Hall & Hf).
  rewrite Hf, length_app. cbn [outside].
  pose proof (length_attempts (fun m => getPrompt prompts m text)
                (retryAttempts client) (sort (requested opts)) ks Hall) as Hb.
  rewrite (Permutation_length (sort_Permutation (requested opts))) in Hb. lia.
Qed.

(** X13. After [clearCache], a call for a valid text with at least one
    module contacts the endpoint again (when [retryAttempts] is not 0),
    even if the same request was answered from the cache before. *)
Theorem clearCache_forgets prompts client net e w text opts :
  validText text ->
  (1 <= retryAttempts client)%nat ->
  requested opts <> [] ->
  cache (clearCache e) = ∅
  /\ (length (fetches (trace w))
      < length (fetches (trace (analyzeText prompts client net (clearCache e) w
                                  text opts).2)))%nat.
Proof.
  intros Hv Hpos Hne. split; [done|].
  rewrite (proj2 (analyzeText_miss prompts client net (clearCache e) w text opts
                    Hv (lookup_empty _))).
  unfold loopEnd.
  destruct (analyzeModules_fetches prompts client net text (onProgress opts)
              (length (generateCacheKey text (requested opts)).2)
              (generateCacheKey text (requested opts)).2
              (loopStart (clearCache e) w text))
    as (ks & Hlen & Hall & Hf).
  rewrite Hf, length_app. cbn [loopStart outside generateCacheKey snd] in *.
  assert (Hmods : sort (requested opts) <> []).
  { intros E. apply Hne. apply Permutation_nil_r.
    by rewrite <- (sort_Permutation (requested opts)), E. }
  destruct (sort (requested opts)) as [|m mods]; [done|].
  destruct ks as [|k ks]; [done|].
  apply Forall_cons in Hall as [[_ Hk] _]. simpl.
  rewrite length_app, length_replicate. specialize (Hk ltac:(lia)). lia.
Qed.

Lemma clearCache_forgets_witness :
  validText (lit "Hello world")
  /\ (1 <= retryAttempts newGeminiAPIClient)%nat
  /\ requested (request ["grammar"; "vocabulary"] false) <> []
  /\ cache (clearCache deniedCall.1.2) = ∅
  /\ (length (fetches (trace deniedCall.2))
      < length (fetches (trace (analyzeText sourcePrompts newGeminiAPIClient
                                  (always denied) (clearCache deniedCall.1.2)
                                  deniedCall.2 (lit "Hello world")
                                  (request ["grammar"; "vocabulary"] false)).2)))%nat.
Proof.
  assert (H1 : validText (lit "Hello world")) by valid_text.
  assert (H2 : (1 <= retryAttempts newGeminiAPIClient)%nat) by (simpl; lia).
  assert (H3 : requested (request ["grammar"; "vocabulary"] false) <> [])
    by discriminate.
  split; [exact H1|]. split; [exact H2|]. split; [exact H3|].
  exact (clearCache_forgets sourcePrompts newGeminiAPIClient (always denied)
           deniedCall.1.2 deniedCall.2 (lit "Hello world")
           (request ["grammar"; "vocabulary"] false) H1 H2 H3).
Defined.

Section SilentFacts.
Variable prompts : AnalysisPrompts.
Variable client : GeminiAPIClient.
Variable net : nat -> reply.

Lemma analyzeModule_silent text total st module :
  progressCalls (trace (outside (analyzeModule prompts client net text false
                                   total st module)))
  = progressCalls (trace (outside st)).
Proof.
  pose proof (runModuleAnalysis_progress prompts client net text module st) as Hp.
  destruct (runModuleAnalysis prompts client net text module _)
    as [[data|msg] w2] eqn:E; cbn [snd] in Hp.
  - by rewrite (analyzeModule_returned _ _ _ _ _ _ _ _ _ _ E).
  - by rewrite (analyzeModule_thrown _ _ _ _ _ _ _ _ _ _ E).
Qed.

Lemma analyzeModules_silent text total mods : forall st,
  progressCalls (trace (outside (analyzeModules prompts client net text false
                                   total st mods)))
  = progressCalls (trace (outside st)).
Proof.
  induction mods as [|m mods IH]; intros st; [done|].
  rewrite analyzeModules_cons, IH. apply analyzeModule_silent.
Qed.
End SilentFacts.

(** X14. Without a callback a call of [analyzeText] reports no progress:
    no progress event is added, whatever the text, the modules and the
    endpoint. *)
Theorem analyzeText_without_callback prompts client net e w text opts :
  onProgress opts = false ->
  progressCalls (trace (analyzeText prompts client net e w text opts).2)
  = progressCalls (trace w).
Proof.
  intros Hoff. unfold analyzeText.
  destruct (length (trim text) =? 0)%nat; [done|].
  destruct (50000 <? Z.of_nat (length text)); [done|].
  destruct (generateCacheKey text (requested opts)) as [cacheKey mods].
  destruct (cache e !! cacheKey); [done|]. cbn [snd].
  rewrite Hoff. apply analyzeModules_silent.
Qed.

Lemma analyzeText_without_callback_witness :
  onProgress (request ["grammar"; "vocabulary"] false) = false
  /\ progressCalls (trace deniedCall.2) = progressCalls (trace world0).
Proof.
  split; [reflexivity|].
  exact (analyzeText_without_callback sourcePrompts newGeminiAPIClient
           (always denied) newEngine world0 (lit "Hello world")
           (request ["grammar"; "vocabulary"] false) eq_refl).
Defined.

(** ** The section table *)

Lemma split_pieces (sep : N) s :
  Forall (fun l => forallb (fun c => negb (c =? sep)%N) l = true) (split sep s).
Proof.
  induction s as [|c s IH]; simpl; [by repeat constructor|].
  destruct (N.eqb_spec c sep) as [->|Hne].
  - by constructor.
  - assert (Hc : negb (c =? sep)%N = true) by (by apply negb_true_iff, N.eqb_neq).
    destruct (split sep s) as [|l ls].
    + constructor; [|constructor]. simpl. by rewrite Hc.
    + apply Forall_cons in IH as [Hl Hls]. constructor; [|done].
      simpl. by rewrite Hl, Hc.
Qed.

Lemma setProperty_keys k v obj :
  (setProperty k v obj).*1 = obj.*1 ∧ k ∈ obj.*1
  \/ (setProperty k v obj).*1 = obj.*1 ++ [k] ∧ k ∉ obj.*1.
Proof.
  induction obj as [|[k' v'] obj IH]; cbn [setProperty].
  { right. split; [done|]. apply not_elem_of_nil. }
  destruct (decide (k = k')) as [<-|Hne]; rewrite !fmap_cons; cbn [fst].
  - left. split; [done|]. apply list_elem_of_here.
  - destruct IH as [[E Hin]|[E Hnot]]; rewrite E.
    + left. split; [done|]. by apply list_elem_of_further.
    + right. split; [done|]. intros [?|?]%elem_of_cons; done.
Qed.

Lemma setProperty_NoDup k v obj : NoDup obj.*1 -> NoDup (setProperty k v obj).*1.
Proof.
  intros Hnd. destruct (setProperty_keys k v obj) as [[-> _]|[-> Hnot]]; [done|].
  apply NoDup_app. split; [done|]. split; [|apply NoDup_singleton].
  intros x Hx ->%list_elem_of_singleton. done.
Qed.

Lemma setProperty_Forall (P : jsstring * jsstring -> Prop) k v obj :
  P (k, v) -> Forall P obj -> Forall P (setProperty k v obj).
Proof.
  intros Hnew. induction 1 as [|[k' v'] obj Hkv Hobj IH]; simpl.
  { by repeat constructor. }
  destruct (decide (k = k')); constructor; auto.
Qed.

Lemma forallb_filter (p : N -> bool) s : forallb p (List.filter p s) = true.
Proof.
  induction s as [|c s IH]; simpl; [done|].
  destruct (p c) eqn:E; simpl; [by rewrite E|done].
Qed.

Lemma sectionName_key line : isSectionKey (sectionName line) = true.
Proof.
  unfold isSectionKey, sectionName. apply andb_true_iff. split.
  - apply forallb_trim, forallb_filter.
  - apply bool_decide_eq_true, trim_idemp.
Qed.

Lemma join_content lines :
  lines <> [] -> forallb isContentLine lines = true ->
  isTruthy (join [NL] lines) = true
  /\ forallb isContentLine (split NL (join [NL] lines)) = true.
Proof.
  intros Hne Hall. split.
  - destruct lines as [|l lines]; [done|]. simpl in Hall.
    apply andb_true_iff in Hall as [Hl _]. unfold isContentLine in Hl.
    apply andb_true_iff in Hl as [[Hl _]%andb_true_iff _].
    destruct l; [done|]. by destruct lines.
  - rewrite split_join; [done|done|].
    rewrite forallb_forall in Hall. apply forallb_forall. intros l Hl.
    specialize (Hall l Hl). unfold isContentLine in Hall.
    by apply andb_true_iff in Hall as [[_ ?]%andb_true_iff _].
Qed.

Lemma flushSection_invariant s :
  scanInvariant s ->
  NoDup (flushSection s).*1
  /\ Forall (fun entry => isSectionEntry entry = true) (flushSection s).
Proof.
  intros [Hk He Hc Hl]. unfold flushSection.
  destruct (currentContent s) as [|l ls] eqn:E; [done|].
  split; [by apply setProperty_NoDup|].
  apply setProperty_Forall; [|done].
  destruct (join_content (l :: ls)) as [Ht Hs]; [done|done|].
  unfold isSectionEntry. cbn [fst snd]. by rewrite Hc, Ht, Hs.
Qed.

Lemma scanLine_invariant s line :
  oneLine line = true -> scanInvariant s -> scanInvariant (scanLine s line).
Proof.
  intros Hline Hs. unfold scanLine.
  destruct (isHeading (trim line)).
  - destruct (flushSection_invariant s Hs) as [Hk He].
    split; cbn [scanned currentSection currentContent]; try done.
    apply sectionName_key.
  - destruct (0 <? length (trim line))%nat eqn:Hlen; [|done].
    destruct Hs as [Hk He Hc Hl].
    split; cbn [scanned currentSection currentContent]; try done.
    assert (Hnew : isContentLine (trim line) = true).
    { unfold isContentLine, oneLine. rewrite forallb_trim by done.
      rewrite bool_decide_eq_true_2 by apply trim_idemp.
      by destruct (trim line). }
    rewrite forallb_app, Hl. cbn [forallb]. by rewrite Hnew.
Qed.

(** X15. The section table of every response is well formed: no name
    occurs twice; every name consists of small letters and white space,
    with none at either end; and every body is a non-empty sequence of
    non-empty, trimmed lines, so a heading without content lines makes no
    section. *)
Theorem extractSections_well_formed response :
  NoDup (extractSections response).*1
  /\ Forall (fun entry => isSectionEntry entry = true) (extractSections response).
Proof.
  unfold extractSections. apply flushSection_invariant.
  assert (Hlines : Forall (fun l => oneLine l = true) (split NL response))
    by apply split_pieces.
  assert (Hgen : forall ls s, Forall (fun l => oneLine l = true) ls ->
            scanInvariant s -> scanInvariant (foldl scanLine s ls)).
  { induction ls as [|l ls IH]; intros s Hls Hs; [done|].
    apply Forall_cons in Hls as [Hl Hls]. simpl.
    apply IH; [done|]. by apply scanLine_invariant. }
  apply Hgen; [done|]. split; cbn; try done. apply NoDup_nil_2.
Qed.

(** Without a heading there is at most the section [general]. *)
Lemma extractSections_no_heading response :
  forallb (fun l => negb (isHeading (trim l))) (split NL response) = true ->
  extractSections response = []
  \/ exists body, extractSections response = [(lit "general", body)].
Proof.
  intros Hno. unfold extractSections. rewrite scan_content by done.
  unfold flushSection. cbn [scanned currentSection currentContent app].
  destruct (contentLines (split NL response)); [by left|right].
  eexists. reflexivity.
Qed.

(** X16. For a response in which no line is a numbered heading, the
    vocabulary parse finds nothing: the academic-vocabulary list, the
    collocations and the three difficulty levels are empty.  The response
    still counts as processed: no error is recorded and the raw response
    is kept. *)
Theorem parseVocabularyResponse_no_heading response text w :
  forallb (fun l => negb (isHeading (trim l))) (split NL response) = true ->
  academicVocabulary (parseVocabularyResponse response) = []
  /\ collocations (parseVocabularyResponse response) = []
  /\ difficultyLevels (parseVocabularyResponse response) = noDifficulty
  /\ processModuleResponse (lit "vocabulary") (Some response) text w
     = {| pdModule := lit "vocabulary"; rawResponse := Some response;
          processed := true; pdError := None; pdTimestamp := now w;
          pdWordCount := Some (countWords text);
          structured := Some (Vocabulary (parseVocabularyResponse response)) |}.
Proof.
  intros Hno. unfold parseVocabularyResponse.
  cbn [academicVocabulary collocations difficultyLevels].
  unfold extractAcademicVocabulary, extractCollocations, extractDifficultyLevels.
  split; [|split; [|split]]; [| | |reflexivity];
    destruct (extractSections_no_heading response Hno) as [-> | [body ->]];
    reflexivity.
Qed.

Lemma parseVocabularyResponse_no_heading_witness :
  forallb (fun l => negb (isHeading (trim l)))
    (split NL (lit "I cannot analyse this text.")) = true
  /\ academicVocabulary (parseVocabularyResponse (lit "I cannot analyse this text."))
     = []
  /\ collocations (parseVocabularyResponse (lit "I cannot analyse this text.")) = []
  /\ difficultyLevels (parseVocabularyResponse (lit "I cannot analyse this text."))
     = noDifficulty
  /\ processModuleResponse (lit "vocabulary")
       (Some (lit "I cannot analyse this text.")) (lit "Hello world") world0
     = {| pdModule := lit "vocabulary";
          rawResponse := Some (lit "I cannot analyse this text.");
          processed := true; pdError := None; pdTimestamp := now world0;
          pdWordCount := Some (countWords (lit "Hello world"));
          structured :=
            Some (Vocabulary
                    (parseVocabularyResponse (lit "I cannot analyse this text."))) |}.
Proof.
  split; [reflexivity|].
  exact (parseVocabularyResponse_no_heading (lit "I cannot analyse this text.")
           (lit "Hello world") world0 eq_refl).
Defined.

(** ** Word lists *)

Lemma forallb_takeWhile (q p : N -> bool) s :
  forallb q s = true -> forallb q (takeWhile p s) = true.
Proof.
  induction s as [|c s IH]; simpl; [done|].
  intros [Hc Hs]%andb_true_iff. destruct (p c); [|done].
  simpl. by rewrite Hc, IH.
Qed.

Lemma forallb_takeWhile_self (p : N -> bool) s : forallb p (takeWhile p s) = true.
Proof.
  induction s as [|c s IH]; simpl; [done|].
  destruct (p c) eqn:E; [|done]. simpl. by rewrite E.
Qed.

Lemma forallb_stripMarker q s :
  forallb q s = true -> forallb q (stripMarker s) = true.
Proof.
  destruct s as [|c s]; [done|]. unfold stripMarker. intros Hs.
  destruct (_ || _); [|done]. apply forallb_dropWhile.
  simpl in Hs. by apply andb_true_iff in Hs as [_ ?].
Qed.

Lemma forallb_and (a b : N -> bool) s :
  forallb a s = true -> forallb b s = true ->
  forallb (fun c => a c && b c) s = true.
Proof.
  rewrite !forallb_forall. intros Ha Hb c Hc. by rewrite Ha, Hb.
Qed.

Lemma wordOfLine_word line w :
  oneLine line = true -> wordOfLine line = Some w -> isListWord w = true.
Proof.
  intros Hline. unfold wordOfLine.
  destruct (isBulletLine (trim line)); [|done].
  remember (trim (firstToken (stripMarker (trim line)))) as word eqn:Hword.
  destruct (0 <? length word)%nat eqn:Hlen; [|done].
  intros [= <-]. unfold isListWord.
  assert (H1 : isTruthy word = true)
    by (clear Hword; destruct word; [vm_compute in Hlen|]; done).
  assert (H2 : bool_decide (trim word = word) = true)
    by (apply bool_decide_eq_true; rewrite Hword; apply trim_idemp).
  rewrite H1, H2. cbn [andb]. rewrite Hword. apply forallb_and.
  - apply forallb_trim. unfold firstToken.
    apply (forallb_takeWhile_self (fun c => negb ((c =? 44)%N || (c =? 59)%N))).
  - apply forallb_trim, forallb_takeWhile, forallb_stripMarker, forallb_trim, Hline.
Qed.

Lemma length_omap_le {A B} (f : A -> option B) l :
  (length (omap f l) <= length l)%nat.
Proof. induction l as [|x l IH]; csimpl; [lia|]. destruct (f x); simpl; lia. Qed.

(** X17. Every word of a word list is clean: it is not empty, has no
    white space at either end, and holds no ",", no ";" and no line feed;
    and a list has at most as many words as the content has lines. *)
Theorem extractWordList_words content :
  Forall (fun w => isListWord w = true) (extractWordList content)
  /\ (length (extractWordList content) <= length (split NL content))%nat.
Proof.
  unfold extractWordList. split; [|apply length_omap_le].
  apply Forall_forall. intros w Hw.
  apply list_elem_of_omap in Hw as (line & Hline & Hword).
  apply (wordOfLine_word line); [|done].
  pose proof (split_pieces NL content) as Hp. rewrite Forall_forall in Hp.
  by apply Hp.
Qed.

(** ** The CEFR level *)

Lemma findLevel_match content cefrMatch :
  findLevel content = Some cefrMatch ->
  exists a b, cefrMatch = [a; b] /\ isLevelLetter a = true
              /\ isLevelDigit b = true.
Proof.
  induction content as [|a content IH]; [done|].
  destruct content as [|b content]; [done|].
  cbn [findLevel]. destruct (isLevelLetter a && isLevelDigit b) eqn:E.
  - intros [= <-]. apply andb_true_iff in E as [? ?]. eauto.
  - apply IH.
Qed.

Lemma level_of_match a b :
  isLevelLetter a = true -> isLevelDigit b = true ->
  toUpperCaseAscii [a; b] ∈ cefrLevels.
Proof.
  unfold isLevelLetter, isLevelDigit. intros Ha Hb.
  assert (Hb' : b = 49%N \/ b = 50%N)
    by (apply orb_true_iff in Hb as [E|E]; apply N.eqb_eq in E; auto).
  assert (Ha' : a ∈ [65; 66; 67; 97; 98; 99]%N).
  { apply orb_true_iff in Ha as [[H1 H2]%andb_true_iff|[H1 H2]%andb_true_iff];
      apply N.leb_le in H1, H2.
    - assert (a = 65 \/ a = 66 \/ a = 67)%N as [-> |[-> | ->]] by lia;
        apply (bool_decide_unpack _); reflexivity.
    - assert (a = 97 \/ a = 98 \/ a = 99)%N as [-> |[-> | ->]] by lia;
        apply (bool_decide_unpack _); reflexivity. }
  rewrite !elem_of_cons in Ha'.
  destruct Hb' as [-> | ->];
    destruct Ha' as [-> |[-> |[-> |[-> |[-> |[-> |Hnil]]]]]];
    try (by apply elem_of_nil in Hnil);
    apply (bool_decide_unpack _); reflexivity.
Qed.

(** X18. The CEFR level read off a section table is the leftmost match
    of [ABC][12] (in either case) in the first section whose content has
    one, in capitals, and "B2" when no section has one; so it is always
    one of A1, A2, B1, B2, C1 and C2. *)
Theorem extractCEFRLevel_is_level secs :
  extractCEFRLevel secs ∈ cefrLevels
  /\ match list_find (fun entry => is_Some (findLevel entry.2)) secs with
     | Some (_, (_, content)) =>
         Some (extractCEFRLevel secs) = toUpperCaseAscii <$> findLevel content
     | None => extractCEFRLevel secs = lit "B2"
     end.
Proof.
  split.
  - induction secs as [|[section content] secs IH]; cbn [extractCEFRLevel].
    { apply (bool_decide_unpack _). reflexivity. }
    destruct (findLevel content) as [cefrMatch|] eqn:E; [|exact IH].
    apply findLevel_match in E as (a & b & -> & Ha & Hb).
    by apply level_of_match.
  - induction secs as [|[section content] secs IH]; [reflexivity|].
    cbn [list_find extractCEFRLevel]. cbn [snd].
    destruct (findLevel content) as [cefrMatch|] eqn:E.
    + rewrite decide_True by eauto. cbn. by rewrite E.
    + rewrite decide_False by (by intros [? ?]).
      destruct (list_find _ secs) as [[i [section' content']]|]; exact IH.
Qed.

Example extractCEFRLevel_ex :
  extractCEFRLevel [(lit "readability metrics", lit "- Grade level 9");
                    (lit "lexical complexity", lit "Estimated level: b1-B2")]
  = lit "B1"
  /\ extractCEFRLevel [(lit "general", lit "no level here")] = lit "B2".
Proof. split; reflexivity. Qed.

(** ** Counting words *)

Lemma isWord_facts w :
  isWord w = true ->
  (exists c r, w = c :: r /\ isWhiteSpace c = false)
  /\ endsTight w
  /\ forallb (fun c => negb (isWhiteSpace c)) w = true.
Proof.
  unfold isWord. intros [Ht Hall]%andb_true_iff. split; [|split; [|done]].
  - destruct w as [|c r]; [done|]. exists c, r. split; [done|].
    simpl in Hall. apply andb_true_iff in Hall as [Hc _]. by apply negb_true_iff.
  - destruct (reverse w) as [|d r] eqn:E.
    + apply (f_equal reverse) in E. rewrite reverse_involutive in E.
      subst w. done.
    + exists d, r. split; [done|].
      rewrite <- forallb_reverse, E in Hall. simpl in Hall.
      apply andb_true_iff in Hall as [Hd _]. by apply negb_true_iff.
Qed.

Lemma spaced_ends first rest :
  isWord first = true ->
  Forall (fun gw => isGap gw.1 = true /\ isWord gw.2 = true) rest ->
  endsTight (spaced first rest).
Proof.
  intros Hfirst Hrest. revert first Hfirst.
  induction Hrest as [|[g w] rest [_ Hw] _ IH]; intros first Hfirst.
  { unfold spaced. simpl. rewrite app_nil_r. by apply isWord_facts. }
  unfold spaced. rewrite fmap_cons. cbn [concat fst snd].
  rewrite <- (app_assoc g w), (app_assoc first g).
  apply endsTight_app. by apply (IH w).
Qed.

Lemma countRuns_word inRun w r :
  isWord w = true -> countRuns inRun (w ++ r) = countRuns false r.
Proof.
  intros Hw. destruct (isWord_facts w Hw) as ((c & w' & -> & Hc) & _ & Hall).
  simpl. rewrite Hc. simpl in Hall. apply andb_true_iff in Hall as [_ Hall].
  clear Hw Hc. induction w' as [|d w' IH]; [done|].
  simpl in Hall. apply andb_true_iff in Hall as [Hd Hall].
  apply negb_true_iff in Hd. simpl. rewrite Hd. by apply IH.
Qed.

Lemma countRuns_gap g r :
  isGap g = true -> countRuns false (g ++ r) = S (countRuns true r).
Proof.
  unfold isGap. intros [Ht Hall]%andb_true_iff.
  destruct g as [|c g]; [done|]. simpl in Hall.
  apply andb_true_iff in Hall as [Hc Hall]. simpl. rewrite Hc. f_equal.
  clear Ht Hc. induction g as [|d g IH]; [done|].
  simpl in Hall. apply andb_true_iff in Hall as [Hd Hall].
  simpl. rewrite Hd. by apply IH.
Qed.

Lemma countRuns_spaced first rest :
  isWord first = true ->
  Forall (fun gw => isGap gw.1 = true /\ isWord gw.2 = true) rest ->
  forall inRun, countRuns inRun (spaced first rest) = length rest.
Proof.
  intros Hfirst Hrest. revert first Hfirst.
  induction Hrest as [|[g w] rest [Hg Hw] _ IH]; intros first Hfirst inRun;
    unfold spaced.
  { change (first ++ concat ((fun gw => gw.1 ++ gw.2) <$> []))
      with (first ++ []).
    by rewrite countRuns_word. }
  rewrite fmap_cons. cbn [concat fst snd length].
  rewrite countRuns_word by done.
  rewrite <- (app_assoc g w), countRuns_gap by done. f_equal.
  apply (IH w Hw true).
Qed.

(** X19. A text made of [n] words, separated by runs of white space and
    with any white space before and after, counts [n] words; a text of
    white space only counts none. *)
Theorem countWords_spaced before first rest after :
  forallb isWhiteSpace before = true ->
  isWord first = true ->
  Forall (fun gw => isGap gw.1 = true /\ isWord gw.2 = true) rest ->
  forallb isWhiteSpace after = true ->
  countWords (before ++ spaced first rest ++ after) = S (length rest)
  /\ countWords (before ++ after) = 0%nat.
Proof.
  intros Hb Hfirst Hrest Ha. unfold countWords. split.
  - assert (Htrim : trim (before ++ spaced first rest ++ after)
                    = spaced first rest).
    { unfold trim, trimStart. rewrite dropWhile_app_all by done.
      destruct (isWord_facts first Hfirst) as ((c & r & E & Hc) & _ & _).
      assert (Hstart : dropWhile isWhiteSpace (spaced first rest ++ after)
                       = spaced first rest ++ after)
        by (unfold spaced; rewrite E; simpl; by rewrite Hc).
      rewrite Hstart, trimEnd_app by (by apply spaced_ends).
      by rewrite trimEnd_white, app_nil_r. }
    rewrite Htrim.
    pose proof (countRuns_spaced first rest Hfirst Hrest false) as Hcount.
    destruct (isWord_facts first Hfirst) as ((c & r & E & _) & _ & _).
    destruct (spaced first rest) as [|d l] eqn:Es.
    + unfold spaced in Es. by rewrite E in Es.
    + by rewrite Hcount.
  - assert (Htrim : trim (before ++ after) = []).
    { unfold trim, trimStart. rewrite dropWhile_all; [done|].
      by rewrite forallb_app, Hb, Ha. }
    by rewrite Htrim.
Qed.

Lemma countWords_spaced_witness :
  forallb isWhiteSpace (lit "  ") = true
  /\ isWord (lit "the") = true
  /\ Forall (fun gw => isGap gw.1 = true /\ isWord gw.2 = true)
       [(lit "  ", lit "quick"); ([9%N; 10%N], lit "fox.")]
  /\ forallb isWhiteSpace [10%N] = true
  /\ countWords (lit "  "
                 ++ spaced (lit "the")
                      [(lit "  ", lit "quick"); ([9%N; 10%N], lit "fox.")]
                 ++ [10%N]) = 3%nat
  /\ countWords (lit "  " ++ [10%N]) = 0%nat.
Proof.
  assert (H3 : Forall (fun gw => isGap gw.1 = true /\ isWord gw.2 = true)
                 [(lit "  ", lit "quick"); ([9%N; 10%N], lit "fox.")])
    by (repeat constructor).
  split; [reflexivity|]. split; [reflexivity|]. split; [exact H3|].
  split; [reflexivity|].
  exact (countWords_spaced (lit "  ") (lit "the")
           [(lit "  ", lit "quick"); ([9%N; 10%N], lit "fox.")] [10%N]
           eq_refl eq_refl H3 eq_refl).
Defined.

(** ** Processing a response *)

(** X20. [processModuleResponse] keeps the module name, the raw response
    and the time in every case; the flag [processed], the absence of an
    error and the presence of structured data go together; a response
    that is a string is always processed; and processing fails only for
    one of the five categories with a response that has no text. *)
Theorem processModuleResponse_consistent module response text w :
  let data := processModuleResponse module response text w in
  pdModule data = module
  /\ rawResponse data = response
  /\ pdTimestamp data = now w
  /\ (processed data = true <-> pdError data = None)
  /\ (processed data = true <-> is_Some (structured data))
  /\ (is_Some response -> processed data = true)
  /\ (processed data = false -> isCategory module = true /\ response = None).
Proof.
  cbv zeta. unfold processModuleResponse.
  destruct (decide (module = lit "vocabulary")) as [E|_];
    [|destruct (decide (module = lit "grammar")) as [E|_];
      [|destruct (decide (module = lit "structure")) as [E|_];
        [|destruct (decide (module = lit "content")) as [E|_];
          [|destruct (decide (module = lit "complexity")) as [E|_]]]]];
    destruct response as [r|]; cbn [pdModule rawResponse pdTimestamp processed
                                    pdError structured];
    repeat split; try done; try (intros [? ?]; done); eauto;
    try (intros _; rewrite E; reflexivity); try (rewrite E; reflexivity).
Qed.

(** ** The module list built by the page *)

Lemma checkboxes_modules :
  removeFirst (lit "-analysis") <$> checkboxes = defaultModules.
Proof. reflexivity. Qed.

(** X21. Whatever boxes are checked, the module list the page builds
    holds categories of the enumeration only, each at most once, in the
    order vocabulary, grammar, structure, content, complexity; its cache
    key is the one of any other order of the same categories. *)
Theorem getSelectedAnalysisModules_categories checked :
  let selected := getSelectedAnalysisModules checked in
  sublist selected defaultModules
  /\ NoDup selected
  /\ forallb isCategory selected = true
  /\ forallb isPlainName selected = true.
Proof.
  cbv zeta. unfold getSelectedAnalysisModules.
  assert (Hsub : sublist (removeFirst (lit "-analysis")
                          <$> List.filter checked checkboxes) defaultModules).
  { rewrite <- checkboxes_modules. apply fmap_sublist.
    generalize checkboxes. intros l. induction l as [|x l IH]; simpl; [done|].
    destruct (checked x); [by apply sublist_skip|by apply sublist_cons]. }
  assert (Hnd : NoDup defaultModules)
    by (apply (bool_decide_unpack _); reflexivity).
  split; [done|]. split; [by apply (sublist_NoDup _ _ Hnd Hsub)|].
  assert (Hin : forall m, In m (removeFirst (lit "-analysis")
                                 <$> List.filter checked checkboxes) ->
                          m ∈ defaultModules).
  { intros m Hm. apply list_elem_of_In in Hm.
    by apply (elem_of_sublist _ _ _ Hm). }
  split; apply forallb_forall; intros m Hm; apply Hin in Hm.
  - by apply bool_decide_eq_true.
  - unfold defaultModules in Hm. rewrite !elem_of_cons in Hm.
    destruct Hm as [->|[->|[->|[->|[->|Hm]]]]];
      [| | | | |by apply elem_of_nil in Hm]; reflexivity.
Qed.

Example getSelectedAnalysisModules_ex :
  getSelectedAnalysisModules
    (fun id => bool_decide (id ∈ [lit "content-analysis"; lit "grammar-analysis"]))
  = [lit "grammar"; lit "content"].
Proof. reflexivity. Qed.

(** ** Storing the API key *)

Example btoa_ex :
  btoa (lit "Man") = Some (lit "TWFu") /\ btoa (lit "Ma") = Some (lit "TWE=")
  /\ btoa (lit "M") = Some (lit "TQ==") /\ btoa [77; 8226]%N = None.
Proof. repeat split; reflexivity. Qed.

Example atob_ex :
  atob (lit "TWFu") = Some (lit "Man") /\ atob (lit "TWE=") = Some (lit "Ma")
  /\ atob (lit " T Q ") = Some (lit "M") /\ atob (lit "TWFuT") = None
  /\ atob (lit "TW-u") = None.
Proof. repeat split; reflexivity. Qed.

Lemma list_ind3 {A} (P : list A -> Prop) :
  P [] -> (forall a, P [a]) -> (forall a b, P [a; b]) ->
  (forall a b c l, P l -> P (a :: b :: c :: l)) ->
  forall l, P l.
Proof.
  intros H0 H1 H2 H3.
  assert (H : forall l, P l /\ (forall a, P (a :: l)) /\ (forall a b, P (a :: b :: l))).
  { induction l as [|c l (IH0 & IH1 & IH2)]; [by auto|].
    split; [apply IH1|]. split; [intros a; apply IH2|].
    intros a b. by apply H3. }
  intros l. apply H.
Qed.

Lemma base64_value_char v :
  (v < 64)%N -> base64Value (base64Char v) = Some v.
Proof.
  intros Hv.
  assert (Hall : forallb (fun v => bool_decide (base64Value (base64Char v) = Some v))
                   (N.of_nat <$> seq 0 64) = true) by (vm_compute; reflexivity).
  rewrite forallb_forall in Hall.
  apply (bool_decide_unpack _), Is_true_true, Hall, list_elem_of_In, list_elem_of_fmap.
  exists (N.to_nat v). split; [lia|]. apply elem_of_seq. lia.
Qed.

Lemma base64Char_plain v :
  isAsciiWhitespace (base64Char v) = false /\ (base64Char v =? 61)%N = false.
Proof.
  unfold base64Char, isAsciiWhitespace.
  repeat match goal with
         | |- context [if ?b then _ else _] => destruct b eqn:?
         end;
    repeat match goal with
           | H : (_ <? _)%N = true |- _ => apply N.ltb_lt in H
           | H : (_ <? _)%N = false |- _ => apply N.ltb_ge in H
           | H : (_ =? _)%N = true |- _ => apply N.eqb_eq in H
           | H : (_ =? _)%N = false |- _ => apply N.eqb_neq in H
           end;
    split; rewrite ?orb_false_iff; repeat split; apply N.eqb_neq; lia.
Qed.

Lemma sextets_bound bytes :
  forallb (fun c => c <=? 255)%N bytes = true ->
  Forall (fun v => (v < 64)%N) (sextets bytes).
Proof.
  induction bytes as [|a|a b|a b c rest IH] using list_ind3; cbn [sextets forallb];
    rewrite ?andb_true_iff, ?N.leb_le; intros H; repeat constructor;
    try (destruct H as (? & ? & ? & ?)); try (destruct H as (? & ? & ?));
    try (destruct H as (? & ?));
    try (zify; Z.to_euclidean_division_equations; lia).
  apply IH. done.
Qed.

Lemma filter_all {A} (f : A -> bool) l :
  forallb f l = true -> List.filter f l = l.
Proof.
  induction l as [|x l IH]; simpl; [done|].
  intros [-> Hl]%andb_true_iff. by rewrite IH.
Qed.

Lemma padding_cases bytes :
  padding bytes = [] \/ padding bytes = [61%N] \/ padding bytes = [61; 61]%N.
Proof.
  unfold padding. destruct (length bytes mod 3)%nat as [|[|[|n]]]; auto.
Qed.

Lemma padding_step (a b c : N) rest : padding (a :: b :: c :: rest) = padding rest.
Proof.
  unfold padding. cbn [length].
  replace (S (S (S (length rest)))) with (length rest + 1 * 3)%nat by lia.
  by rewrite Nat.Div0.mod_add.
Qed.

Lemma encoded_length bytes :
  (length ((base64Char <$> sextets bytes) ++ padding bytes) mod 4 = 0)%nat
  /\ (length (base64Char <$> sextets bytes) mod 4 <> 1)%nat.
Proof.
  rewrite length_app, length_fmap.
  induction bytes as [|a|a b|a b c rest [IH1 IH2]] using list_ind3.
  - split; [reflexivity|discriminate].
  - split; [reflexivity|discriminate].
  - split; [reflexivity|discriminate].
  - rewrite padding_step. cbn [sextets length].
    revert IH1 IH2.
    generalize (length (sextets rest)), (length (padding rest)).
    intros n m IH1 IH2.
    replace (S (S (S (S n))) + m)%nat with (4 + (n + m))%nat by lia.
    replace (S (S (S (S n)))) with (4 + n)%nat by lia.
    rewrite <- !(Nat.Div0.add_mod_idemp_l 4). change (4 mod 4)%nat with 0%nat.
    done.
Qed.

Lemma stripPadding_encoded vs pad :
  pad = [] \/ pad = [61%N] \/ pad = [61; 61]%N ->
  stripPadding ((base64Char <$> vs) ++ pad) = base64Char <$> vs.
Proof.
  intros Hpad. unfold stripPadding.
  assert (Hcore : reverse (base64Char <$> reverse vs) = base64Char <$> vs)
    by (by rewrite fmap_reverse, reverse_involutive).
  assert (Hrev : forall pad',
    reverse ((base64Char <$> vs) ++ pad') = reverse pad' ++ (base64Char <$> reverse vs))
    by (intros pad'; by rewrite reverse_app, fmap_reverse).
  rewrite Hrev. clear Hrev. revert Hcore. generalize (reverse vs). intros rv Hcore.
  destruct Hpad as [-> |[-> | ->]].
  - rewrite app_nil_r. change (reverse [] ++ (base64Char <$> rv)) with (base64Char <$> rv).
    destruct rv as [|v [|v' r]]; [done| |];
      rewrite !fmap_cons, (proj2 (base64Char_plain v)); done.
  - change (reverse [61%N] ++ (base64Char <$> rv)) with (61%N :: (base64Char <$> rv)).
    destruct rv as [|v r]; [by rewrite <- Hcore|].
    rewrite fmap_cons. change (61 =? 61)%N with true. cbv iota.
    rewrite (proj2 (base64Char_plain v)). by rewrite <- fmap_cons.
  - change (reverse [61; 61]%N ++ (base64Char <$> rv))
      with (61%N :: 61%N :: (base64Char <$> rv)).
    change (61 =? 61)%N with true. by cbv iota.
Qed.

Lemma mapM_base64 vs :
  Forall (fun v => (v < 64)%N) vs -> mapM base64Value (base64Char <$> vs) = Some vs.
Proof.
  intros Hvs. apply mapM_Some_2. apply Forall2_fmap_l, Forall_Forall2_diag.
  eapply Forall_impl; [exact Hvs|]. simpl. intros v Hv. by apply base64_value_char.
Qed.

Lemma bytesOfSextets_sextets bytes :
  forallb (fun c => c <=? 255)%N bytes = true ->
  bytesOfSextets (sextets bytes) = bytes.
Proof.
  induction bytes as [|a|a b|a b c rest IH] using list_ind3;
    cbn [sextets bytesOfSextets forallb];
    rewrite ?andb_true_iff, ?N.leb_le; intros H; [done| | |].
  - destruct H as [Ha _]. f_equal. zify; Z.to_euclidean_division_equations; lia.
  - destruct H as (Ha & Hb & _).
    f_equal; [|f_equal]; zify; Z.to_euclidean_division_equations; lia.
  - destruct H as (Ha & Hb & Hc & Hrest).
    rewrite IH by done.
    f_equal; [|f_equal; [|f_equal]]; zify; Z.to_euclidean_division_equations; lia.
Qed.

(** What [btoa] writes, [atob] reads back. *)
Lemma atob_btoa s encoded : btoa s = Some encoded -> atob encoded = Some s.
Proof.
  unfold btoa. destruct (forallb _ s) eqn:Hbytes; [|done]. intros [= <-].
  unfold atob. rewrite filter_all.
  2:{ rewrite forallb_app. apply andb_true_iff. split.
      - apply forallb_forall. intros c Hc.
        apply list_elem_of_In, list_elem_of_fmap in Hc as (v & -> & _).
        by rewrite (proj1 (base64Char_plain v)).
      - by destruct (padding_cases s) as [-> |[-> | ->]]. }
  destruct (encoded_length s) as [H0 H1]. rewrite H0. cbn [Nat.eqb].
  rewrite stripPadding_encoded by apply padding_cases.
  apply Nat.eqb_neq in H1. rewrite H1.
  rewrite mapM_base64 by (by apply sextets_bound).
  cbn. by rewrite bytesOfSextets_sextets.
Qed.

(** X22. A key that is not empty and has no code unit above 255 is stored
    by [setAPIKey] (which returns true) and read back unchanged by
    [getAPIKey]; after [clearAPIKey] there is no key. *)
Theorem setAPIKey_getAPIKey key localStorage :
  isTruthy key = true ->
  forallb (fun c => c <=? 255)%N key = true ->
  (setAPIKey key localStorage).1 = true
  /\ getAPIKey (setAPIKey key localStorage).2 = Some key
  /\ getAPIKey (clearAPIKey (setAPIKey key localStorage).2) = None.
Proof.
  intros Hkey Hbytes. unfold setAPIKey.
  destruct (btoa key) as [encoded|] eqn:E.
  2:{ unfold btoa in E. by rewrite Hbytes in E. }
  cbn [fst snd]. split; [done|]. split.
  - unfold getAPIKey. rewrite lookup_insert_eq.
    assert (Hfull : isTruthy encoded = true).
    { unfold btoa in E. rewrite Hbytes in E. injection E as <-.
      destruct key as [|a [|b [|c rest]]]; done. }
    rewrite Hfull. by apply atob_btoa.
  - unfold getAPIKey, clearAPIKey. by rewrite lookup_delete_eq.
Qed.

Lemma setAPIKey_getAPIKey_witness :
  isTruthy sampleKey = true
  /\ forallb (fun c => c <=? 255)%N sampleKey = true
  /\ (setAPIKey sampleKey ∅).1 = true
  /\ getAPIKey (setAPIKey sampleKey ∅).2 = Some sampleKey
  /\ getAPIKey (clearAPIKey (setAPIKey sampleKey ∅).2) = None.
Proof.
  split; [reflexivity|]. split; [reflexivity|].
  exact (setAPIKey_getAPIKey sampleKey ∅ eq_refl eq_refl).
Defined.

Example validateAPIKey_ex :
  validateAPIKey sampleKey = true /\ validateAPIKey (lit "AIzaShort") = false
  /\ getAPIKey (setAPIKey [] ∅).2 = None.
Proof. repeat split; reflexivity. Qed.

(** X23. A key with a code unit above 255 cannot be encoded: [setAPIKey]
    returns false and leaves the storage as it was, so [getAPIKey] still
    gives the key stored before, if any. *)
Theorem setAPIKey_wide_key key c localStorage :
  c ∈ key -> (255 < c)%N ->
  setAPIKey key localStorage = (false, localStorage)
  /\ getAPIKey (setAPIKey key localStorage).2 = getAPIKey localStorage.
Proof.
  intros Hc Hwide.
  assert (E : btoa key = None).
  { unfold btoa. destruct (forallb _ key) eqn:Hall; [|done].
    rewrite forallb_forall in Hall.
    apply list_elem_of_In, Hall, N.leb_le in Hc. lia. }
  unfold setAPIKey. by rewrite E.
Qed.

Lemma setAPIKey_wide_key_witness :
  8364%N ∈ (lit "AIza" ++ [8364%N]) /\ (255 < 8364)%N
  /\ setAPIKey (lit "AIza" ++ [8364%N]) (setAPIKey sampleKey ∅).2
     = (false, (setAPIKey sampleKey ∅).2)
  /\ getAPIKey (setAPIKey (lit "AIza" ++ [8364%N]) (setAPIKey sampleKey ∅).2).2
     = getAPIKey (setAPIKey sampleKey ∅).2.
Proof.
  assert (H1 : 8364%N ∈ (lit "AIza" ++ [8364%N])).
  { apply elem_of_app. right. apply list_elem_of_here. }
  assert (H2 : (255 < 8364)%N) by reflexivity.
  split; [exact H1|]. split; [exact H2|].
  exact (setAPIKey_wide_key _ 8364%N (setAPIKey sampleKey ∅).2 H1 H2).
Defined.
